(** * Pulsy: a shallow embedding of the store engine (pulsy.ts)

    The development follows [pulsy.ts]: the registry of named stores, the
    setter pipeline (middleware, commit, subscriber notification, hooks,
    persistence), the persistence adapter, computed and composed stores, the
    time-travel wrapper and the action dispatcher, then the configuration,
    the bulk initialisation, the clearing of the storages, the cleanup of a
    mounted component and the namespaced hook. The [createStore] of the
    earlier variant of the file, which has a guard the current one lacks, is
    in the module [Legacy]; [devtools.ts] is in the module [DevTools].

    Modelling conventions.
    - JavaScript values are the inductive [Value]: [undefined], [null],
      booleans, integer numbers, strings and objects (no arrays, no floating
      point). An object carries the reference it was allocated at, so that
      [!==] ([strict_neq]) compares objects by reference and primitives by
      value. The source builds value objects and never mutates them
      afterwards. The middleware array of a store is a list of its own: an
      array that a caller passes to two [createStore] calls is not shared.
    - The module-level [stores] map, the two DOM storages, [pulsyConfig],
      the React state cells and the refs of the time-travel hook form the
      record [World]; every function of the source that touches them is a
      computation in the monad [M], a state monad over [World] with
      exceptions ([Throw]). A store record is found through its name: no
      function of the model replaces a registry entry while another one
      holds the record.
    - The functions a caller supplies (middleware, updater, [computeFn],
      action handler, [serialize], [deserialize], [migrate]) are pure
      functions that may throw ([None]); a [computeFn] reads the registry
      through [getStoreValue]. The two configuration hooks are observers.
    - Every effect a property can speak about is also appended to a ghost
      [trace]: middleware calls, assignments to [store.value], subscriber
      calls, hook calls, calls of [migrate] and storage writes.
    - Subscriber callbacks may call each other without bound (a computed
      store that depends on itself); the notification functions take a
      [fuel] that bounds the nesting of callbacks and answer [OutOfFuel]
      when it is exhausted.
    - A middleware is awaited before the next one starts; a setter call,
      also one that the source does not await, is modelled as running to
      completion inside the call, without interleaving, and a rejected
      promise is a thrown exception.
    - [setItem] always succeeds (no quota); [JSON.stringify] escapes the
      quote and the backslash only.
    - [devTools.log], [devTools.mark] and [devTools.measure] only write to
      the console and the performance timeline (devtools.ts); they are left
      out. *)

From Stdlib Require Import ZArith String Ascii List Bool Lia.
From Stdlib Require Import DecimalString DecimalPos.
From stdpp Require Import base gmap strings list.

Open Scope string_scope.
Open Scope Z_scope.

(** ** Values *)

Local Set Warnings "-register-all".

Inductive Value : Type :=
| VUndefined
| VNull
| VBool (b : bool)
| VNum (n : Z)
| VStr (s : string)
| VObj (ref : nat) (fields : list (string * Value)).

(** [a === b]: by value on primitives, by reference on objects. *)
Definition strict_eq (a b : Value) : bool :=
  match a, b with
  | VUndefined, VUndefined => true
  | VNull, VNull => true
  | VBool x, VBool y => Bool.eqb x y
  | VNum x, VNum y => Z.eqb x y
  | VStr x, VStr y => String.eqb x y
  | VObj r1 _, VObj r2 _ => Nat.eqb r1 r2
  | _, _ => false
  end.

Definition strict_neq (a b : Value) : bool := negb (strict_eq a b).

(** [fields[key]] on the own properties of an object. *)
Fixpoint obj_get {A : Type} (key : string) (l : list (string * A)) : option A :=
  match l with
  | [] => None
  | (k, x) :: rest => if String.eqb k key then Some x else obj_get key rest
  end.

(** [obj[key] = v]: replaces the property in place, or adds it at the end. *)
Fixpoint obj_set {A : Type} (key : string) (x : A) (l : list (string * A))
  : list (string * A) :=
  match l with
  | [] => [(key, x)]
  | (k, y) :: rest =>
      if String.eqb k key then (k, x) :: rest else (k, y) :: obj_set key x rest
  end.

(** [v[key]] for a value that is not [null] or [undefined]; a missing
    property and a property of a primitive read as [undefined]. *)
Definition get_field (key : string) (v : Value) : Value :=
  match v with
  | VObj _ fields => default VUndefined (obj_get key fields)
  | _ => VUndefined
  end.

(** ** JSON.stringify and JSON.parse *)

Definition dquote : ascii := "034"%char.
Definition backslash : ascii := "092"%char.

(** String escaping: the quote and the backslash are escaped; control
    characters are copied as they are. *)
Fixpoint json_escape (s : string) : string :=
  match s with
  | EmptyString => EmptyString
  | String c rest =>
      if (Ascii.eqb c dquote || Ascii.eqb c backslash)%bool
      then String backslash (String c (json_escape rest))
      else String c (json_escape rest)
  end.

Definition json_quote (s : string) : string :=
  String dquote (json_escape s) +:+ String dquote EmptyString.

Definition json_number (n : Z) : string := NilZero.string_of_int (Z.to_int n).

(** [JSON.stringify v]; [None] is the [undefined] that JSON.stringify
    returns for [undefined]. Properties whose value is [undefined] are
    omitted. *)
Fixpoint JSON_stringify (v : Value) : option string :=
  match v with
  | VUndefined => None
  | VNull => Some "null"
  | VBool true => Some "true"
  | VBool false => Some "false"
  | VNum n => Some (json_number n)
  | VStr s => Some (json_quote s)
  | VObj _ fields =>
      let members :=
        (fix go (l : list (string * Value)) : list string :=
           match l with
           | [] => []
           | (k, x) :: rest =>
               match JSON_stringify x with
               | Some s => (json_quote k +:+ ":" +:+ s) :: go rest
               | None => go rest
               end
           end) fields in
      Some ("{" +:+ String.concat "," members +:+ "}")
  end.

(** The string a storage receives: [setItem] converts its argument with
    [String(...)]. *)
Definition to_item (o : option string) : string := default "undefined" o.

Definition is_ws (c : ascii) : bool :=
  (Ascii.eqb c " " || Ascii.eqb c "010" || Ascii.eqb c "013" || Ascii.eqb c "009")%bool.

Fixpoint skip_ws (s : list ascii) : list ascii :=
  match s with
  | c :: rest => if is_ws c then skip_ws rest else s
  | [] => []
  end.

Definition digit_of (c : ascii) : option Z :=
  let n := Z.of_nat (nat_of_ascii c) in
  if (48 <=? n) && (n <=? 57) then Some (n - 48) else None.

Fixpoint parse_digits (s : list ascii) (acc : Z) : Z * list ascii :=
  match s with
  | c :: rest =>
      match digit_of c with
      | Some d => parse_digits rest (10 * acc + d)
      | None => (acc, s)
      end
  | [] => (acc, [])
  end.

Definition parse_number (s : list ascii) : option (Z * list ascii) :=
  match s with
  | c :: rest =>
      match digit_of c with
      | Some d => Some (parse_digits rest d)
      | None => None
      end
  | [] => None
  end.

(** The characters after an opening quote, up to the closing one. *)
Fixpoint parse_string_body (s : list ascii) (acc : list ascii)
  : option (string * list ascii) :=
  match s with
  | [] => None
  | c :: rest =>
      if Ascii.eqb c dquote then Some (string_of_list_ascii (rev acc), rest)
      else if Ascii.eqb c backslash then
        match rest with
        | e :: rest' => parse_string_body rest' (e :: acc)
        | [] => None
        end
      else parse_string_body rest (c :: acc)
  end.

Section ParseMembers.
Variable parse_value : list ascii -> option (Value * list ascii).

(** The members of an object after the opening brace. *)
Fixpoint parse_members (fuel : nat) (s : list ascii)
    (acc : list (string * Value)) : option (list (string * Value) * list ascii) :=
  match fuel with
  | O => None
  | S fuel' =>
      match skip_ws s with
      | c :: rest =>
          if Ascii.eqb c "}" then
            match acc with [] => Some ([], rest) | _ => None end
          else if Ascii.eqb c dquote then
            match parse_string_body rest [] with
            | Some (k, rest1) =>
                match skip_ws rest1 with
                | colon :: rest2 =>
                    if Ascii.eqb colon ":" then
                      match parse_value rest2 with
                      | Some (x, rest3) =>
                          let acc' := obj_set k x acc in
                          match skip_ws rest3 with
                          | d :: rest4 =>
                              if Ascii.eqb d "," then parse_members fuel' rest4 acc'
                              else if Ascii.eqb d "}" then Some (acc', rest4)
                              else None
                          | [] => None
                          end
                      | None => None
                      end
                    else None
                | [] => None
                end
            | None => None
            end
          else None
      | [] => None
      end
  end.
End ParseMembers.

Definition starts_with (p s : list ascii) : option (list ascii) :=
  if decide (take (length p) s = p) then Some (drop (length p) s) else None.

(** Objects are parsed with reference 0; [fresh_refs] gives them their
    references. *)
Fixpoint parse_value (fuel : nat) (s : list ascii) : option (Value * list ascii) :=
  match fuel with
  | O => None
  | S fuel' =>
      let s := skip_ws s in
      match s with
      | [] => None
      | c :: rest =>
          if Ascii.eqb c "{" then
            match parse_members (parse_value fuel') (length rest) rest [] with
            | Some (fields, rest') => Some (VObj 0 fields, rest')
            | None => None
            end
          else if Ascii.eqb c dquote then
            match parse_string_body rest [] with
            | Some (str, rest') => Some (VStr str, rest')
            | None => None
            end
          else if Ascii.eqb c "-" then
            match parse_number rest with
            | Some (n, rest') => Some (VNum (- n), rest')
            | None => None
            end
          else
            match parse_number s with
            | Some (n, rest') => Some (VNum n, rest')
            | None =>
                match starts_with (list_ascii_of_string "null") s with
                | Some rest' => Some (VNull, rest')
                | None =>
                    match starts_with (list_ascii_of_string "true") s with
                    | Some rest' => Some (VBool true, rest')
                    | None =>
                        match starts_with (list_ascii_of_string "false") s with
                        | Some rest' => Some (VBool false, rest')
                        | None => None
                        end
                    end
                end
            end
      end
  end.

(** [JSON.parse s]; [None] is a thrown [SyntaxError]. *)
Definition JSON_parse (s : string) : option Value :=
  let l := list_ascii_of_string s in
  match parse_value (S (length l)) l with
  | Some (v, rest) => match skip_ws rest with [] => Some v | _ => None end
  | None => None
  end.

(** Gives every object of [v] a reference of its own, from [n] on. *)
Fixpoint fresh_refs (v : Value) (n : nat) : Value * nat :=
  match v with
  | VObj _ fields =>
      let '(fields', n') :=
        (fix go (l : list (string * Value)) (n : nat) : list (string * Value) * nat :=
           match l with
           | [] => ([], n)
           | (k, x) :: rest =>
               let '(x', n1) := fresh_refs x n in
               let '(rest', n2) := go rest n1 in
               ((k, x') :: rest', n2)
           end) fields (S n) in
      (VObj n fields', n')
  | _ => (v, n)
  end.

(** ** Store records, subscribers and configuration *)

(** [Middleware<T>]: [(nextValue, prevValue, storeName) => T | Promise<T>];
    [None] is a throw or a rejected promise. *)
Definition Middleware : Type := Value -> Value -> string -> option Value.

Inductive Storage : Type := localStorage | sessionStorage.

Record PersistenceOptions : Type := mkPersistenceOptions {
  storage : option Storage;
  serialize : option (Value -> option string);
  deserialize : option (string -> option Value);
  version : option Z;
  migrate : option (Value -> Value -> option Value)
}.

(** [boolean | PersistenceOptions | undefined]. *)
Inductive PersistSetting : Type :=
| PUndefined
| PBool (b : bool)
| PObject (o : PersistenceOptions).

Definition truthy (p : PersistSetting) : bool :=
  match p with
  | PUndefined => false
  | PBool b => b
  | PObject _ => true
  end.

(** What a [computeFn] can read: [getStoreValue] of every store. *)
Definition StoreView : Type := string -> option Value.

(** The callbacks found in [store.reloaders]:
    - [RSetState c]: the [setValue] of the React state cell [c] ([usePulsy]);
    - [RComputed name computeFn]: the closure [updateComputedStore];
    - [RComposed name storeMap composedValue]: the closure
      [updateComposedStore], with the [composedValue] it captured. *)
Inductive Reloader : Type :=
| RSetState (cell : nat)
| RComputed (name : string) (computeFn : StoreView -> option Value)
| RComposed (name : string) (storeMap : list (string * string)) (composedValue : Value).

(** [reloaders] is a JavaScript [Set] of functions: insertion-ordered, and a
    function is identified by the number it got when it was created. *)
Record Store : Type := mkStore {
  value : Value;
  reloaders : list (nat * Reloader);
  middleware : list Middleware;
  memoize : bool;
  persist : PersistSetting
}.

(** [PulsyConfig]; a hook is an observer, recorded in the trace when called. *)
Record PulsyConfig : Type := mkPulsyConfig {
  onStoreCreate : bool;
  onStoreUpdate : bool;
  config_persist : option bool;
  defaultMemoize : option bool
}.

(** The third argument of [createStore]. *)
Record StoreOptions : Type := mkStoreOptions {
  opt_persist : PersistSetting;
  opt_middleware : option (list Middleware);
  opt_memoize : option bool
}.

Definition no_options : PersistenceOptions :=
  {| storage := None; serialize := None; deserialize := None;
     version := None; migrate := None |}.

Definition no_store_options : StoreOptions :=
  {| opt_persist := PUndefined; opt_middleware := None; opt_memoize := None |}.

(** ** The world and its trace *)

Inductive Event : Type :=
| EvMiddleware (name : string) (stage : nat) (nextValue prevValue : Value)
| EvCommit (name : string) (v : Value)
| EvNotify (name : string) (id : nat) (v : Value)
| EvOnStoreCreate (name : string) (v : Value)
| EvOnStoreUpdate (name : string) (v : Value)
| EvMigrate (persistedState storedVersion : Value)
| EvSetItem (backend : Storage) (key data : string).

Record World : Type := mkWorld {
  stores : gmap string Store;
  local_items : gmap string string;
  session_items : gmap string string;
  pulsyConfig : PulsyConfig;
  cells : gmap nat Value;
  refs : gmap nat (list Value * Z);
  next_id : nat;
  trace : list Event
}.

Definition with_stores (f : gmap string Store -> gmap string Store) (w : World) : World :=
  {| stores := f (stores w); local_items := local_items w;
     session_items := session_items w; pulsyConfig := pulsyConfig w;
     cells := cells w; refs := refs w; next_id := next_id w; trace := trace w |}.

Definition items (s : Storage) (w : World) : gmap string string :=
  match s with
  | localStorage => local_items w
  | sessionStorage => session_items w
  end.

Definition with_items (s : Storage) (f : gmap string string -> gmap string string)
    (w : World) : World :=
  {| stores := stores w;
     local_items := match s with localStorage => f (local_items w) | _ => local_items w end;
     session_items := match s with sessionStorage => f (session_items w) | _ => session_items w end;
     pulsyConfig := pulsyConfig w;
     cells := cells w; refs := refs w; next_id := next_id w; trace := trace w |}.

Definition with_cells (f : gmap nat Value -> gmap nat Value) (w : World) : World :=
  {| stores := stores w; local_items := local_items w;
     session_items := session_items w; pulsyConfig := pulsyConfig w;
     cells := f (cells w); refs := refs w; next_id := next_id w; trace := trace w |}.

Definition with_refs (f : gmap nat (list Value * Z) -> gmap nat (list Value * Z))
    (w : World) : World :=
  {| stores := stores w; local_items := local_items w;
     session_items := session_items w; pulsyConfig := pulsyConfig w;
     cells := cells w; refs := f (refs w); next_id := next_id w; trace := trace w |}.

Definition with_next_id (f : nat -> nat) (w : World) : World :=
  {| stores := stores w; local_items := local_items w;
     session_items := session_items w; pulsyConfig := pulsyConfig w;
     cells := cells w; refs := refs w; next_id := f (next_id w); trace := trace w |}.

Definition with_trace (f : list Event -> list Event) (w : World) : World :=
  {| stores := stores w; local_items := local_items w;
     session_items := session_items w; pulsyConfig := pulsyConfig w;
     cells := cells w; refs := refs w; next_id := next_id w; trace := f (trace w) |}.

(** ** The monad *)

Inductive Res (A : Type) : Type :=
| Ret (a : A)
| Throw (msg : string)
| OutOfFuel.
Arguments Ret {A} a.
Arguments Throw {A} msg.
Arguments OutOfFuel {A}.

Definition M (A : Type) : Type := World -> Res A * World.

Definition ret {A : Type} (a : A) : M A := fun w => (Ret a, w).

Definition throw {A : Type} (msg : string) : M A := fun w => (Throw msg, w).

Definition bind {A B : Type} (m : M A) (k : A -> M B) : M B :=
  fun w =>
    match m w with
    | (Ret a, w') => k a w'
    | (Throw msg, w') => (Throw msg, w')
    | (OutOfFuel, w') => (OutOfFuel, w')
    end.

(** [try { m } catch (error) { h }]. *)
Definition try_catch {A : Type} (m : M A) (h : M A) : M A :=
  fun w =>
    match m w with
    | (Throw _, w') => h w'
    | r => r
    end.

Definition gets {A : Type} (f : World -> A) : M A := fun w => (Ret (f w), w).

Definition modify (f : World -> World) : M unit := fun w => (Ret tt, f w).

Declare Scope pulsy_scope.
Delimit Scope pulsy_scope with pulsy.
Notation "'let!' x ':=' m 'in' k" := (bind m (fun x => k))
  (at level 10, x name, m at level 100, k at level 200) : pulsy_scope.
Notation "m ';;;' k" := (bind m (fun _ => k))
  (at level 100, k at level 200, right associativity) : pulsy_scope.
Open Scope pulsy_scope.

Definition when (b : bool) (m : M unit) : M unit := if b then m else ret tt.

Fixpoint forEach {A : Type} (f : A -> M unit) (l : list A) : M unit :=
  match l with
  | [] => ret tt
  | x :: rest => f x ;;; forEach f rest
  end.

Definition log (e : Event) : M unit := modify (with_trace (fun t => (t ++ [e])%list)).

Definition fresh_id : M nat :=
  fun w => (Ret (next_id w), with_next_id S w).

(** An object literal: a new reference. *)
Definition new_object (fields : list (string * Value)) : M Value :=
  let! ref := fresh_id in ret (VObj ref fields).

(** ** Storage backends *)

Definition getItem (s : Storage) (key : string) : M (option string) :=
  gets (fun w => items s w !! key).

Definition setItem (s : Storage) (key data : string) : M unit :=
  modify (with_items s (insert key data)) ;;; log (EvSetItem s key data).

(** ** Registry access *)

Definition stores_get (name : string) : M (option Store) :=
  gets (fun w => stores w !! name).

Definition stores_set (name : string) (st : Store) : M unit :=
  modify (with_stores (insert name st)).

Definition assign (v : Value) (st : Store) : Store :=
  {| value := v; reloaders := reloaders st; middleware := middleware st;
     memoize := memoize st; persist := persist st |}.

(** [store.value = v] on the record registered under [name]. *)
Definition set_value (name : string) (v : Value) : M unit :=
  modify (with_stores (alter (assign v) name)) ;;;
  log (EvCommit name v).

(** [store.reloaders.add(f)]: a function already in the set is not added. *)
Definition set_add (f : nat * Reloader) (s : list (nat * Reloader)) : list (nat * Reloader) :=
  if existsb (fun g => Nat.eqb (fst g) (fst f)) s then s else (s ++ [f])%list.

Definition subscribe (f : nat * Reloader) (st : Store) : Store :=
  {| value := value st; reloaders := set_add f (reloaders st);
     middleware := middleware st; memoize := memoize st; persist := persist st |}.

Definition add_reloader (name : string) (f : nat * Reloader) : M unit :=
  modify (with_stores (alter (subscribe f) name)).

Definition view (w : World) : StoreView := fun name => value <$> stores w !! name.

(** ** Persistence adapter *)

(** [defaultPersistenceOptions.serialize], that is [JSON.stringify]. *)
Definition default_serialize (v : Value) : option string :=
  Some (to_item (JSON_stringify v)).

(** [options.version || 1]. *)
Definition version_or_1 (v : option Z) : Z :=
  match v with
  | Some n => if n =? 0 then 1 else n
  | None => 1
  end.

Definition storage_key (name : string) : string := "pulsy_" +:+ name.

(** [persistStore(name, value, options)]. A serializer that throws is caught
    here; [setItem] itself always succeeds in the model. *)
Definition persistStore (name : string) (v : Value) (options : PersistenceOptions)
  : M unit :=
  let storage_ := default localStorage (storage options) in
  let serialize_ := default default_serialize (serialize options) in
  try_catch
    (let! envelope :=
       new_object [("value", v); ("version", VNum (version_or_1 (version options)))] in
     match serialize_ envelope with
     | Some serializedValue => setItem storage_ (storage_key name) serializedValue
     | None => throw "serialize"
     end)
    (ret tt).

(** [deserialize!(serializedValue)]: the caller's deserializer, or
    [JSON.parse], whose objects are new. *)
Definition run_deserialize (d : option (string -> option Value)) (s : string) : M Value :=
  match d with
  | Some f =>
      match f s with
      | Some v => ret v
      | None => throw "deserialize"
      end
  | None =>
      match JSON_parse s with
      | Some v =>
          fun w => let '(v', n) := fresh_refs v (next_id w) in
                   (Ret v', with_next_id (fun _ => n) w)
      | None => throw "SyntaxError"
      end
  end.

Definition with_version (options : PersistenceOptions) (v : Z) : PersistenceOptions :=
  {| storage := storage options; serialize := serialize options;
     deserialize := deserialize options; version := Some v;
     migrate := migrate options |}.

(** [retrievePersistedStore(name, options)]; the result [VUndefined] is the
    [undefined] of the source. [version] is the merged one: the caller's, or
    the default 1. *)
Definition retrievePersistedStore (name : string) (options : PersistenceOptions)
  : M Value :=
  let storage_ := default localStorage (storage options) in
  let version_ := default 1 (version options) in
  try_catch
    (let! serializedValue := getItem storage_ (storage_key name) in
     match serializedValue with
     | Some s =>
         if negb (String.eqb s EmptyString) then
           let! parsed := run_deserialize (deserialize options) s in
           match parsed with
           | VUndefined | VNull => throw "TypeError"
           | _ =>
               let value_ := get_field "value" parsed in
               let storedVersion := get_field "version" parsed in
               match migrate options with
               | Some migrate_ =>
                   if negb (version_ =? 0) && strict_neq storedVersion (VNum version_)
                   then
                     log (EvMigrate value_ storedVersion) ;;;
                     match migrate_ value_ storedVersion with
                     | Some migrated =>
                         persistStore name migrated (with_version options version_) ;;;
                         ret migrated
                     | None => throw "migrate"
                     end
                   else ret value_
               | None => ret value_
               end
           end
         else ret VUndefined
     | None => ret VUndefined
     end)
    (ret VUndefined).

(** ** Store registry *)

(** [options?.persist || pulsyConfig.persist]. *)
Definition persist_or (p : PersistSetting) (global : option bool) : PersistSetting :=
  if truthy p then p
  else match global with
       | Some b => PBool b
       | None => PUndefined
       end.

(** [createStore(name, initialValue, options)]. *)
Definition createStore (name : string) (initialValue : Value) (options : StoreOptions)
  : M unit :=
  let persistOptions :=
    match opt_persist options with
    | PObject o => o
    | _ => no_options
    end in
  let! config := gets pulsyConfig in
  let shouldPersist := persist_or (opt_persist options) (config_persist config) in
  let! value_ :=
    (if truthy shouldPersist then
       let! persistedValue := retrievePersistedStore name persistOptions in
       ret (if strict_neq persistedValue VUndefined then persistedValue else initialValue)
     else ret initialValue) in
  stores_set name
    {| value := value_;
       reloaders := [];
       middleware := default [] (opt_middleware options);
       memoize := default (default false (defaultMemoize config)) (opt_memoize options);
       persist := shouldPersist |} ;;;
  when (onStoreCreate config) (log (EvOnStoreCreate name value_)) ;;;
  when (truthy shouldPersist) (persistStore name value_ persistOptions).

Definition not_found (name : string) : string :=
  "Store with name " +:+ name +:+ " does not exist.".

(** [getStoreValue(name)]. *)
Definition getStoreValue (name : string) : M Value :=
  let! store := stores_get name in
  match store with
  | Some st => ret (value st)
  | None => throw (not_found name)
  end.

(** [store.middleware.push(m)]. *)
Definition push (m : Middleware) (st : Store) : Store :=
  {| value := value st; reloaders := reloaders st;
     middleware := (middleware st ++ [m])%list;
     memoize := memoize st; persist := persist st |}.

(** [addMiddleware(name, middleware)]. *)
Definition addMiddleware (name : string) (m : Middleware) : M unit :=
  let! store := stores_get name in
  match store with
  | Some st =>
      modify (with_stores (alter (push m) name))
  | None => throw (not_found name)
  end.

(** ** Subscriber notification *)

(** [store.reloaders.forEach((r) => r(v))] for the store registered under
    [name], with [call] running one callback. *)
Definition notify_with (call : Reloader -> Value -> M unit) (name : string) (v : Value)
  : M unit :=
  let! store := stores_get name in
  match store with
  | Some st =>
      forEach (fun f => log (EvNotify name (fst f) v) ;;; call (snd f) v) (reloaders st)
  | None => ret tt
  end.

Definition onStoreUpdate_hook (name : string) (v : Value) : M unit :=
  let! config := gets pulsyConfig in
  when (onStoreUpdate config) (log (EvOnStoreUpdate name v)).

(** The loop of [updateComposedStore] over [Object.entries(storeMap)]: the
    properties of [newComposedValue] and [hasChanges]. *)
Fixpoint recombine (sts : gmap string Store) (composedValue : Value)
    (storeMap : list (string * string)) (acc : list (string * Value)) (hasChanges : bool)
  : list (string * Value) * bool :=
  match storeMap with
  | [] => (acc, hasChanges)
  | (key, storeName) :: rest =>
      match sts !! storeName with
      | Some st =>
          if strict_neq (value st) (get_field key composedValue)
          then recombine sts composedValue rest (obj_set key (value st) acc) true
          else recombine sts composedValue rest
                 (obj_set key (get_field key composedValue) acc) hasChanges
      | None => recombine sts composedValue rest acc hasChanges
      end
  end.

(** One call [r(v)] of a subscriber. [fuel] bounds the nesting of the
    callbacks that this call sets off. *)
Fixpoint call_reloader (fuel : nat) (r : Reloader) (v : Value) {struct fuel} : M unit :=
  match fuel with
  | O => fun w => (OutOfFuel, w)
  | S fuel' =>
      match r with
      | RSetState cell =>
          modify (with_cells (insert cell v))
      | RComputed name computeFn =>
          (* updateComputedStore *)
          let! computed := gets (fun w => computeFn (view w)) in
          match computed with
          | None => throw "computeFn"
          | Some newValue =>
              let! store := stores_get name in
              match store with
              | Some _ =>
                  set_value name newValue ;;;
                  notify_with (call_reloader fuel') name newValue ;;;
                  onStoreUpdate_hook name newValue
              | None => ret tt
              end
          end
      | RComposed name storeMap composedValue =>
          (* updateComposedStore *)
          let! ref := fresh_id in
          let! sts := gets stores in
          let '(fields, hasChanges) := recombine sts composedValue storeMap [] false in
          let newComposedValue := VObj ref fields in
          if hasChanges then
            let! composedStore := stores_get name in
            match composedStore with
            | Some _ =>
                set_value name newComposedValue ;;;
                notify_with (call_reloader fuel') name newComposedValue ;;;
                onStoreUpdate_hook name newComposedValue
            | None => ret tt
            end
          else ret tt
      end
  end.

Definition notify (fuel : nat) (name : string) (v : Value) : M unit :=
  notify_with (call_reloader fuel) name v.

(** ** Update pipeline *)

(** The argument of a setter: a value, or an updater function. *)
Inductive SetArg : Type :=
| Literal (v : Value)
| Updater (f : Value -> option Value).

(** The middleware loop of [createSetter]. [prevValue] is [store.value],
    which no stage can change. *)
Fixpoint apply_middleware (name : string) (stage : nat) (chain : list Middleware)
    (prevValue updatedValue : Value) : M Value :=
  match chain with
  | [] => ret updatedValue
  | m :: rest =>
      log (EvMiddleware name stage updatedValue prevValue) ;;;
      match m updatedValue prevValue name with
      | Some v => apply_middleware name (S stage) rest prevValue v
      | None => throw "middleware"
      end
  end.

(** [createSetter(name)(newValue)]; the result [Ret tt] is the resolved
    promise. *)
Definition createSetter (fuel : nat) (name : string) (newValue : SetArg) : M unit :=
  let! store := stores_get name in
  match store with
  | Some st =>
      try_catch
        (let! updatedValue0 :=
           match newValue with
           | Literal v => ret v
           | Updater f =>
               match f (value st) with
               | Some v => ret v
               | None => throw "updater"
               end
           end in
         let! updatedValue :=
           apply_middleware name 0 (middleware st) (value st) updatedValue0 in
         set_value name updatedValue ;;;
         notify fuel name updatedValue ;;;
         onStoreUpdate_hook name updatedValue ;;;
         when (truthy (persist st))
           (persistStore name updatedValue
              match persist st with
              | PObject o => o
              | _ => no_options
              end))
        (ret tt)
  | None => ret tt
  end.

(** [setStoreValue(name, value)]. *)
Definition setStoreValue (fuel : nat) (name : string) (v : Value) : M unit :=
  createSetter fuel name (Literal v).

(** ** The React binding, as far as the wrappers need it *)

(** The first render and the effect of [usePulsy(name)]: a state cell
    initialised with [store.value], and its [setValue] added to
    [store.reloaders]. Returns the cell. *)
Definition usePulsy (name : string) : M nat :=
  let! store := stores_get name in
  match store with
  | Some st =>
      let! cell := fresh_id in
      modify (with_cells (insert cell (value st))) ;;;
      add_reloader name (cell, RSetState cell) ;;;
      ret cell
  | None => throw (not_found name)
  end.

(** The [value] a component reads from its state cell. *)
Definition cell_value (cell : nat) (w : World) : Value :=
  default VUndefined (cells w !! cell).

(** ** Time travel *)

(** One [useTimeTravel(name)] instance: the store name and the state cell of
    its [usePulsy]. Its two refs, [historyRef.current] and
    [positionRef.current], live in the world under the number of the cell. *)
Record TimeTravel : Type := mkTimeTravel {
  tt_name : string;
  tt_cell : nat
}.

Definition historyRef (tv : TimeTravel) (w : World) : list Value :=
  fst (default ([], 0) (refs w !! tt_cell tv)).

Definition positionRef (tv : TimeTravel) (w : World) : Z :=
  snd (default ([], 0) (refs w !! tt_cell tv)).

Definition set_refs (tv : TimeTravel) (h : list Value) (p : Z) : M unit :=
  modify (with_refs (insert (tt_cell tv) (h, p))).

(** [historyRef.current[positionRef.current]]. *)
Definition history_at (h : list Value) (i : Z) : Value :=
  if i <? 0 then VUndefined else default VUndefined (h !! Z.to_nat i).

(** [historyRef.current.slice(0, positionRef.current + 1)], for a position
    that is not negative. *)
Definition slice_to (h : list Value) (p : Z) : list Value := take (Z.to_nat (p + 1)) h.

(** The first render of [useTimeTravel(name)]. *)
Definition useTimeTravel (name : string) : M TimeTravel :=
  let! cell := usePulsy name in
  let! v := gets (cell_value cell) in
  let tv := {| tt_name := name; tt_cell := cell |} in
  set_refs tv [v] 0 ;;;
  ret tv.

(** [updateValue(newValue)]. *)
Definition updateValue (fuel : nat) (tv : TimeTravel) (newValue : SetArg) : M unit :=
  let! current := gets (cell_value (tt_cell tv)) in
  let! updatedValue :=
    match newValue with
    | Literal v => ret v
    | Updater f =>
        match f current with
        | Some v => ret v
        | None => throw "updater"
        end
    end in
  let! h := gets (historyRef tv) in
  let! p := gets (positionRef tv) in
  set_refs tv (slice_to h p ++ [updatedValue])%list (p + 1) ;;;
  createSetter fuel (tt_name tv) (Literal updatedValue).

(** [undo()]. *)
Definition undo (fuel : nat) (tv : TimeTravel) : M unit :=
  let! h := gets (historyRef tv) in
  let! p := gets (positionRef tv) in
  if 0 <? p then
    set_refs tv h (p - 1) ;;;
    createSetter fuel (tt_name tv) (Literal (history_at h (p - 1)))
  else ret tt.

(** [redo()]. *)
Definition redo (fuel : nat) (tv : TimeTravel) : M unit :=
  let! h := gets (historyRef tv) in
  let! p := gets (positionRef tv) in
  if p <? Z.of_nat (length h) - 1 then
    set_refs tv h (p + 1) ;;;
    createSetter fuel (tt_name tv) (Literal (history_at h (p + 1)))
  else ret tt.

(** ** Computed stores *)


(** ** Composed stores *)

(** What the closures returned by [composeStores] capture. *)
Record Composed : Type := mkComposed {
  composed_name : string;
  composed_map : list (string * string);
  composed_value : Value
}.

(** The first loop of [composeStores]: the properties of [composedValue]. *)
Fixpoint snapshot (sts : gmap string Store) (storeMap : list (string * string))
    (acc : list (string * Value)) : list (string * Value) :=
  match storeMap with
  | [] => acc
  | (key, storeName) :: rest =>
      match sts !! storeName with
      | Some st => snapshot sts rest (obj_set key (value st) acc)
      | None => snapshot sts rest acc
      end
  end.

(** [composeStores(name, storeMap)]; [storeMap] lists the entries of the
    object in the order of [Object.entries]. *)
Definition composeStores (name : string) (storeMap : list (string * string)) : M Composed :=
  let! ref := fresh_id in
  let! sts := gets stores in
  let composedValue := VObj ref (snapshot sts storeMap []) in
  createStore name composedValue no_store_options ;;;
  let! updateComposedStore := fresh_id in
  forEach (fun storeName =>
             add_reloader storeName
               (updateComposedStore, RComposed name storeMap composedValue))
          (map snd storeMap) ;;;
  ret {| composed_name := name; composed_map := storeMap;
         composed_value := composedValue |}.

(** [getComposedStore()]. *)
Definition getComposedStore (c : Composed) : M Value :=
  let! store := stores_get (composed_name c) in
  match store with
  | Some st => ret (value st)
  | None => ret (composed_value c)
  end.

(** [setComposedStore(updates)]; [updates] lists [Object.entries(updates)]. *)
Definition setComposedStore (fuel : nat) (c : Composed) (updates : list (string * Value))
  : M unit :=
  try_catch
    (forEach (fun u =>
                match obj_get (fst u) (composed_map c) with
                | Some storeName =>
                    let! store := stores_get storeName in
                    match store with
                    | Some _ =>
                        set_value storeName (snd u) ;;;
                        notify fuel storeName (snd u) ;;;
                        onStoreUpdate_hook storeName (snd u)
                    | None => ret tt
                    end
                | None => ret tt
                end)
             updates)
    (ret tt).

(** ** Actions *)

(** [ActionHandler<S, T>]: [(state, action) => S]; [None] is a throw. *)
Definition ActionHandler : Type := Value -> Value -> option Value.

(** The action creator [actions[type]] built by [createActions]. *)
Definition action_creator (fuel : nat) (storeName : string) (type : string)
    (handler : ActionHandler) (payload : Value) : M Value :=
  let! store := stores_get storeName in
  match store with
  | None => throw (not_found storeName)
  | Some st =>
      let currentState := value st in
      let! action := new_object [("type", VStr type); ("payload", payload)] in
      match handler currentState action with
      | None => throw "handler"
      | Some newState =>
          set_value storeName newState ;;;
          notify fuel storeName newState ;;;
          onStoreUpdate_hook storeName newState ;;;
          when (truthy (persist st))
            (setItem localStorage storeName (to_item (JSON_stringify newState))) ;;;
          ret action
      end
  end.

(** [createActions(storeName, actionHandlers)]: one creator per own key. *)
Definition createActions (fuel : nat) (storeName : string)
    (actionHandlers : list (string * ActionHandler))
  : list (string * (Value -> M Value)) :=
  map (fun h => (fst h, action_creator fuel storeName (fst h) (snd h))) actionHandlers.

(** [actions[type](payload)]. *)
Definition dispatch (actions : list (string * (Value -> M Value))) (type : string)
    (payload : Value) : M Value :=
  match obj_get type actions with
  | Some creator => creator payload
  | None => throw "TypeError"
  end.

(** ** The earlier createStore, which skips an existing name *)

Module Legacy.

(** [options?.persist ?? pulsyConfig.persist ?? pulsyConfig.defaultPersist],
    with [defaultPersist] passed by the caller of the model, since the
    configuration record of the current source has no such field. *)
Definition resolve_persist (p : option bool) (global defaultPersist : option bool) : bool :=
  match p with
  | Some b => b
  | None =>
      match global with
      | Some b => b
      | None => default false defaultPersist
      end
  end.

(** [createStore(name, initialValue, options)] with its guard
    [if (stores.has(name)) return]. The record it installs has no [persist]
    field. *)
Definition createStore (defaultPersist : option bool) (name : string)
    (initialValue : Value) (persist_ : option bool)
    (middleware_ : option (list Middleware)) (memoize_ : option bool) : M unit :=
  let! config := gets pulsyConfig in
  let persist_ := resolve_persist persist_ (config_persist config) defaultPersist in
  let memoize_ := default (default false (defaultMemoize config)) memoize_ in
  let! existing := stores_get name in
  match existing with
  | Some _ => ret tt
  | None =>
      try_catch
        (let! value_ :=
           (if persist_ then
              let! storedValue := getItem localStorage name in
              match storedValue with
              | Some s =>
                  match JSON_parse s with
                  | Some v =>
                      fun w => let '(v', n) := fresh_refs v (next_id w) in
                               (Ret v', with_next_id (fun _ => n) w)
                  | None => ret initialValue
                  end
              | None => ret initialValue
              end
            else ret initialValue) in
         stores_set name
           {| value := value_; reloaders := []; middleware := default [] middleware_;
              memoize := memoize_; persist := PUndefined |} ;;;
         when (onStoreCreate config) (log (EvOnStoreCreate name value_)) ;;;
         when persist_ (setItem localStorage name (to_item (JSON_stringify value_))))
        (ret tt)
  end.

End Legacy.

(** * The rest of the engine

    The functions of [pulsy.ts] that the sections above do not need: the
    configuration, the bulk initialisation, the clearing of the storages,
    the cleanup of a mounted component and the namespaced hook. *)

(** ** Configuration *)

(** The argument of [configurePulsy]: an object literal, in which a key can
    be absent ([None]). A key that is present replaces the field, also when
    its value is [undefined]: [{ ...pulsyConfig, ...config }]. The key
    [enableDevTools] only reaches the development tools. *)
Record ConfigUpdate : Type := mkConfigUpdate {
  upd_onStoreCreate : option bool;
  upd_onStoreUpdate : option bool;
  upd_persist : option (option bool);
  upd_defaultMemoize : option (option bool)
}.

(** [{ ...c, ...u }]. *)
Definition spread (c : PulsyConfig) (u : ConfigUpdate) : PulsyConfig :=
  {| onStoreCreate := default (onStoreCreate c) (upd_onStoreCreate u);
     onStoreUpdate := default (onStoreUpdate c) (upd_onStoreUpdate u);
     config_persist := default (config_persist c) (upd_persist u);
     defaultMemoize := default (defaultMemoize c) (upd_defaultMemoize u) |}.

Definition with_config (f : PulsyConfig -> PulsyConfig) (w : World) : World :=
  {| stores := stores w; local_items := local_items w;
     session_items := session_items w; pulsyConfig := f (pulsyConfig w);
     cells := cells w; refs := refs w; next_id := next_id w; trace := trace w |}.

(** [configurePulsy(config)]. *)
Definition configurePulsy (config : ConfigUpdate) : M unit :=
  modify (with_config (fun c => spread c config)).

(** ** Bulk initialisation *)


(** ** Clearing the persisted stores *)

(** [storage.removeItem(key)]; the trace records the writes of [setItem]
    only. *)
Definition removeItem (s : Storage) (key : string) : M unit :=
  modify (with_items s (delete key)).

(** [Object.keys(storage)]: the keys of the items, read before the loop
    removes any of them. *)
Definition storage_keys (s : Storage) : M (list string) :=
  gets (fun w => map fst (map_to_list (items s w))).

(** [clearPersistedStores(storageType)], [None] for the default argument. *)
Definition clearPersistedStores (storageType : option Storage) : M unit :=
  let storage_ := default localStorage storageType in
  let! keys := storage_keys storage_ in
  forEach (fun key => when (String.prefix "pulsy_" key) (removeItem storage_ key)) keys.

(** ** The cleanup of a mounted component *)

(** [store.reloaders.delete(setValue)]. *)
Definition set_delete (id : nat) (s : list (nat * Reloader)) : list (nat * Reloader) :=
  List.filter (fun g => negb (Nat.eqb (fst g) id)) s.

Definition unsubscribe (id : nat) (st : Store) : Store :=
  {| value := value st; reloaders := set_delete id (reloaders st);
     middleware := middleware st; memoize := memoize st; persist := persist st |}.

(** The cleanup that the effect of [usePulsy(name)] returns, for the
    component with the state cell [cell]. The cleanup holds the record that
    the effect subscribed to. When that record is no longer the one
    registered under [name], the registered record does not have the
    [setValue] of the cell among its subscribers, and the removal leaves the
    registry as it is, in the source as here. *)
Definition unmount (name : string) (cell : nat) : M unit :=
  modify (with_stores (alter (unsubscribe cell) name)).

(** ** Namespaced stores *)

(** The name [`${namespace}:${key}`]. *)
Definition namespaced (namespace key : string) : string :=
  namespace +:+ ":" +:+ key.

(** [createNamespacedStore(namespace)(key)]. *)
Definition createNamespacedStore (namespace key : string) : M nat :=
  usePulsy (namespaced namespace key).

(** * The development tools (devtools.ts)

    The module [DevTools] follows [devtools.ts] on its own: the engine's
    calls of [devTools.log] and of the performance marks are left out of
    the sections above, since they reach the console and the performance
    timeline only. The state of the file is [devToolsConfig], the array
    [stateTimeline], and, as ghost state, the calls made to the console and
    the names passed to [performance.mark]. [Date.now()] is an argument.
    [measure] and [logPerformance] read durations from the performance
    timeline and are not modelled. *)

Module DevTools.

Inductive LogLevel : Type :=
| info | warn | error | measure | debug | group | none | groupEnd.

#[global] Instance LogLevel_eq_dec : EqDecision LogLevel.
Proof. solve_decision. Defined.

(** [logStyle[style]]. *)
Definition logStyle (style : LogLevel) : string :=
  match style with
  | info => "color: #1E90FF; font-weight: bold;"
  | warn => "color: #FFA500; font-weight: bold;"
  | error => "color: #FF4500; font-weight: bold;"
  | measure => "color: #32CD32; font-weight: bold;"
  | debug => "color: #9932CC; font-weight: bold;"
  | group => "color: #4169E1; font-weight: bold;"
  | none => EmptyString
  | groupEnd => EmptyString
  end.

(** [DevToolsConfig]: every field can be [undefined] ([None]). *)
Record DevToolsConfig : Type := mkDevToolsConfig {
  enableDevTools : option bool;
  logLevel : option LogLevel;
  trackPerformance : option bool;
  enableConsoleGroups : option bool;
  enableStateTimeline : option bool
}.

(** The argument of [configureDevTools]: a key can be absent ([None]). *)
Record DevToolsUpdate : Type := mkDevToolsUpdate {
  upd_enableDevTools : option (option bool);
  upd_logLevel : option (option LogLevel);
  upd_trackPerformance : option (option bool);
  upd_enableConsoleGroups : option (option bool);
  upd_enableStateTimeline : option (option bool)
}.

(** An entry of [stateTimeline]. *)
Record TimelineEntry : Type := mkTimelineEntry {
  timestamp : Z;
  storeName : string;
  entry_value : Value
}.

Inductive ConsoleCall : Type :=
| console_group (message css : string)
| console_groupEnd
| console_log (message css : string) (args : list Value)
| console_table (rows : list TimelineEntry).

Record State : Type := mkState {
  devToolsConfig : DevToolsConfig;
  stateTimeline : list TimelineEntry;
  console : list ConsoleCall;
  marks : list string
}.

(** The configuration the file starts with; [isDevelopment] is
    [process.env.NODE_ENV === "development"]. *)
Definition initial_config (isDevelopment : bool) : DevToolsConfig :=
  {| enableDevTools := Some isDevelopment; logLevel := Some info;
     trackPerformance := Some true; enableConsoleGroups := Some true;
     enableStateTimeline := Some true |}.

Definition initial_state (isDevelopment : bool) : State :=
  {| devToolsConfig := initial_config isDevelopment; stateTimeline := [];
     console := []; marks := [] |}.

(** A boolean field in a condition: [undefined] is falsy. *)
Definition on (flag : option bool) : bool := default false flag.

(** [configureDevTools(config)]: [{ ...devToolsConfig, ...config }]. *)
Definition configureDevTools (config : DevToolsUpdate) (s : State) : State :=
  {| devToolsConfig :=
       {| enableDevTools :=
            default (enableDevTools (devToolsConfig s)) (upd_enableDevTools config);
          logLevel := default (logLevel (devToolsConfig s)) (upd_logLevel config);
          trackPerformance :=
            default (trackPerformance (devToolsConfig s)) (upd_trackPerformance config);
          enableConsoleGroups :=
            default (enableConsoleGroups (devToolsConfig s)) (upd_enableConsoleGroups config);
          enableStateTimeline :=
            default (enableStateTimeline (devToolsConfig s)) (upd_enableStateTimeline config) |};
     stateTimeline := stateTimeline s; console := console s; marks := marks s |}.

Definition print (call : ConsoleCall) (s : State) : State :=
  {| devToolsConfig := devToolsConfig s; stateTimeline := stateTimeline s;
     console := (console s ++ [call])%list; marks := marks s |}.

(** [devToolsConfig.logLevel === style || devToolsConfig.logLevel === "info"]. *)
Definition level_passes (c : DevToolsConfig) (style : LogLevel) : bool :=
  bool_decide (logLevel c = Some style) || bool_decide (logLevel c = Some info).

(** [devTools.log(message, style, ...args)]. *)
Definition log (message : string) (style : LogLevel) (args : list Value) (s : State)
  : State :=
  let c := devToolsConfig s in
  if on (enableDevTools c) && level_passes c style then
    if on (enableConsoleGroups c) && bool_decide (style = group) then
      print (console_group ("%c" +:+ message) (logStyle style)) s
    else if bool_decide (style = groupEnd) then
      print console_groupEnd s
    else
      print (console_log ("%c" +:+ message) (logStyle style) args) s
  else s.

(** [devTools.mark(markName)]. *)
Definition mark (markName : string) (s : State) : State :=
  let c := devToolsConfig s in
  if on (enableDevTools c) && on (trackPerformance c) then
    log ("Mark: " +:+ markName) debug []
      {| devToolsConfig := devToolsConfig s; stateTimeline := stateTimeline s;
         console := console s; marks := (marks s ++ [markName])%list |}
  else s.

(** [devTools.trackStateChange(storeName, value)], at the time [now]. *)
Definition trackStateChange (now : Z) (name : string) (v : Value) (s : State) : State :=
  let c := devToolsConfig s in
  if on (enableDevTools c) && on (enableStateTimeline c) then
    log ("State changed: " +:+ name) debug [v]
      {| devToolsConfig := devToolsConfig s;
         stateTimeline :=
           (stateTimeline s ++ [{| timestamp := now; storeName := name;
                                   entry_value := v |}])%list;
         console := console s; marks := marks s |}
  else s.

(** [devTools.getStateTimeline()]. *)
Definition getStateTimeline (s : State) : list TimelineEntry := stateTimeline s.

(** [devTools.clearStateTimeline()]. *)
Definition clearStateTimeline (s : State) : State :=
  log "State timeline cleared" info []
    {| devToolsConfig := devToolsConfig s; stateTimeline := [];
       console := console s; marks := marks s |}.

(** [devTools.visualizeStateChanges()]. *)
Definition visualizeStateChanges (s : State) : State :=
  let c := devToolsConfig s in
  if on (enableDevTools c) && on (enableStateTimeline c) then
    print (console_table (stateTimeline s)) s
  else s.

End DevTools.

(** * Vocabulary of the properties

    The predicates and functions the statements below use, and the example
    worlds at which they are instantiated. *)

(** ** Predicates and run functions *)

Definition same_shape (a b : Store) : Prop :=
  reloaders b = reloaders a /\ middleware b = middleware a /\
  memoize b = memoize a /\ persist b = persist a.

Definition same_shape_opt (a b : option Store) : Prop :=
  match a, b with
  | Some x, Some y => same_shape x y
  | None, None => True
  | _, _ => False
  end.

(** The events a subscriber call can log. *)
Definition reloader_event (e : Event) : Prop :=
  match e with
  | EvCommit _ _ | EvNotify _ _ _ | EvOnStoreUpdate _ _ => True
  | _ => False
  end.

(** The store a subscriber writes, if any. *)
Definition target (r : Reloader) : option string :=
  match r with
  | RSetState _ => None
  | RComputed name _ => Some name
  | RComposed name _ _ => Some name
  end.

(** No subscriber registered anywhere writes a store of [keep]. *)
Definition untargeted (keep : string -> Prop) (w : World) : Prop :=
  forall s st f n,
    stores w !! s = Some st -> In f (reloaders st) -> target (snd f) = Some n -> ~ keep n.

(** No subscriber of a store outside [keep] writes a store of [keep]. *)
Definition closed_outside (keep : string -> Prop) (w : World) : Prop :=
  forall s st f n,
    ~ keep s -> stores w !! s = Some st -> In f (reloaders st) ->
    target (snd f) = Some n -> ~ keep n.

(** The subscribers [rs] write no store of [keep]. *)
Definition sparing (keep : string -> Prop) (rs : list (nat * Reloader)) : Prop :=
  forall f n, In f rs -> target (snd f) = Some n -> ~ keep n.

Record cascade (keep : string -> Prop) (w w' : World) : Prop := mkCascade {
  cascade_local : local_items w' = local_items w;
  cascade_session : session_items w' = session_items w;
  cascade_config : pulsyConfig w' = pulsyConfig w;
  cascade_refs : refs w' = refs w;
  cascade_trace : exists evs, trace w' = (trace w ++ evs)%list /\ Forall reloader_event evs;
  cascade_shape : forall s, same_shape_opt (stores w !! s) (stores w' !! s);
  cascade_keep : forall s, keep s -> stores w' !! s = stores w !! s
}.

Definition add_events (evs : list Event) (w : World) : World :=
  with_trace (fun t => (t ++ evs)%list) w.

(** The envelope [persistStore] builds, and the string it stores. *)
Definition envelope (ref : nat) (v : Value) (options : PersistenceOptions) : Value :=
  VObj ref [("value", v); ("version", VNum (version_or_1 (version options)))].

Definition backend (options : PersistenceOptions) : Storage :=
  default localStorage (storage options).

Definition serialized (ref : nat) (v : Value) (options : PersistenceOptions) : option string :=
  default default_serialize (serialize options) (envelope ref v options).

(** The fold of the claim: [mk(... m2(m1(candidate, prev, name), prev, name) ..., prev, name)],
    [None] as soon as a stage throws. *)
Definition middleware_fold (chain : list Middleware) (prev : Value) (name : string)
    (candidate : Value) : option Value :=
  fold_left (fun acc m => match acc with Some x => m x prev name | None => None end)
            chain (Some candidate).

(** The calls the loop makes: stage, argument and previous value. *)
Fixpoint stage_events (name : string) (stage : nat) (chain : list Middleware)
    (prev x : Value) : list Event :=
  match chain with
  | [] => []
  | m :: rest =>
      EvMiddleware name stage x prev ::
      match m x prev name with
      | Some y => stage_events name (S stage) rest prev y
      | None => []
      end
  end.

(** [typeof newValue === "function" ? newValue(store.value) : newValue]. *)
Definition resolve (newValue : SetArg) (prev : Value) : option Value :=
  match newValue with
  | Literal v => Some v
  | Updater f => f prev
  end.

(** Steps 4 to 6 of the setter, after the assignment [store.value = v]. *)
Definition after_commit (fuel : nat) (name : string) (st : Store) (v : Value) : M unit :=
  notify fuel name v ;;;
  onStoreUpdate_hook name v ;;;
  when (truthy (persist st))
    (persistStore name v match persist st with PObject o => o | _ => no_options end).


(** The record [createStore] installs. *)
Definition created (v : Value) (options : StoreOptions) (config : PulsyConfig) : Store :=
  {| value := v; reloaders := [];
     middleware := default [] (opt_middleware options);
     memoize := default (default false (defaultMemoize config)) (opt_memoize options);
     persist := persist_or (opt_persist options) (config_persist config) |}.

(** The events of [w'] that [w] does not have yet. *)
Definition new_events (w w' : World) : list Event := drop (length (trace w)) (trace w').

Definition migrate_called (w w' : World) : Prop :=
  exists persistedState storedVersion,
    In (EvMigrate persistedState storedVersion) (new_events w w').

(** What a retrieval does once the stored string is read and parsed. *)
Definition retrieved (name : string) (options : PersistenceOptions) (parsed : Value)
    (w1 : World) : Res Value * World :=
  let v := get_field "value" parsed in
  let storedVersion := get_field "version" parsed in
  let requested := default 1 (version options) in
  match migrate options with
  | Some migrate_ =>
      if negb (requested =? 0) && strict_neq storedVersion (VNum requested) then
        match migrate_ v storedVersion with
        | Some migrated =>
            (Ret migrated,
             snd (persistStore name migrated (with_version options requested)
                    (add_events [EvMigrate v storedVersion] w1)))
        | None => (Ret VUndefined, add_events [EvMigrate v storedVersion] w1)
        end
      else (Ret v, w1)
  | None => (Ret v, w1)
  end.

Definition is_object_like (v : Value) : Prop := v <> VUndefined /\ v <> VNull.

(** Whether a retrieval migrates: [version && storedVersion !== version && migrate]. *)
Definition migrates (options : PersistenceOptions) (parsed : Value) : bool :=
  let requested := default 1 (version options) in
  match migrate options with
  | Some _ => negb (requested =? 0) && strict_neq (get_field "version" parsed) (VNum requested)
  | None => false
  end.

(** C5 as the claim words it: [migrate] is called exactly when the stored
    version differs from the requested one and a function is supplied. *)
Definition migrates_as_claimed (name : string) (options : PersistenceOptions) (w : World)
  : Prop :=
  forall s parsed w1,
    items (backend options) w !! storage_key name = Some s ->
    run_deserialize (deserialize options) s w = (Ret parsed, w1) ->
    (migrate_called w (snd (retrievePersistedStore name options w)) <->
     strict_neq (get_field "version" parsed) (VNum (default 1 (version options))) = true /\
     is_Some (migrate options)).

(** The cursor is an index into the history. *)
Definition cursor_in_range (tv : TimeTravel) (w : World) : Prop :=
  0 <= positionRef tv w < Z.of_nat (length (historyRef tv w)).

Definition is_plain (f : nat * Reloader) : bool :=
  match snd f with
  | RSetState _ => true
  | _ => false
  end.

(** The state cells after each setter of [rs] was called on [v]. *)
Fixpoint plain_cells (rs : list (nat * Reloader)) (v : Value) (cs : gmap nat Value)
  : gmap nat Value :=
  match rs with
  | [] => cs
  | f :: rest =>
      plain_cells rest v
        match snd f with
        | RSetState cell => <[cell := v]> cs
        | _ => cs
        end
  end.

Definition notifications (name : string) (rs : list (nat * Reloader)) (v : Value)
  : list Event :=
  map (fun f => EvNotify name (fst f) v) rs.

Definition hooked (name : string) (v : Value) (w : World) : World :=
  if onStoreUpdate (pulsyConfig w) then add_events [EvOnStoreUpdate name v] w else w.

(** The world after [store.value = v], the calls of the setters [rs] and
    the update hook. *)
Definition committed (name : string) (v : Value) (rs : list (nat * Reloader)) (w : World)
  : World :=
  hooked name v
    (add_events (EvCommit name v :: notifications name rs v)
       (with_cells (plain_cells rs v) (with_stores (alter (assign v) name) w))).

(** The setter on a store whose subscribers are setters. *)
Definition setter_options (st : Store) : PersistenceOptions :=
  match persist st with
  | PObject o => o
  | _ => no_options
  end.

(** The registry after [f] was added to the subscribers of every store of
    [deps] that exists. *)
Definition subscribe_all (f : nat * Reloader) (deps : list string)
    (sts : gmap string Store) : gmap string Store :=
  fold_left (fun m d => alter (subscribe f) d m) deps sts.

(** Every subscriber identity in the registry is below [next_id]: a closure
    created next has an identity that no subscriber has. *)
Definition ids_below (w : World) : Prop :=
  forall s st f, stores w !! s = Some st -> In f (reloaders st) -> (fst f < next_id w)%nat.


(** The write of one field of a partial update. *)
Definition forward (fuel : nat) (c : Composed) (u : string * Value) : M unit :=
  match obj_get (fst u) (composed_map c) with
  | Some storeName =>
      let! store := stores_get storeName in
      match store with
      | Some _ =>
          set_value storeName (snd u) ;;;
          notify fuel storeName (snd u) ;;;
          onStoreUpdate_hook storeName (snd u)
      | None => ret tt
      end
  | None => ret tt
  end.






(** Every subscriber call set off by the commit of [v] to [d] returns:
    no [computeFn] throws and the nesting of the calls stays within [fuel]. *)
Definition subscribers_return (fuel : nat) (d : string) (st : Store) (candidate v : Value)
    (w : World) : Prop :=
  fst (notify fuel d v
         (snd (set_value d v
                 (add_events (stage_events d 0 (middleware st) (value st) candidate) w))))
  = Ret tt.


(** ** Example worlds *)

(** The configuration [pulsyConfig] starts with. *)
Definition default_config : PulsyConfig :=
  {| onStoreCreate := false; onStoreUpdate := false;
     config_persist := None; defaultMemoize := Some false |}.

Definition initial_world : World :=
  {| stores := ∅; local_items := ∅; session_items := ∅;
     pulsyConfig := default_config; cells := ∅; refs := ∅;
     next_id := 0; trace := [] |}.




Definition counter_once : World :=
  snd (createStore "counter" (VNum 1) no_store_options initial_world).

(** A stored envelope at version 0 whose value is to be migrated. *)
Definition stored_v0 : string :=
  to_item (JSON_stringify
             (VObj 0 [("value", VObj 0 [("count", VNum 0)]); ("version", VNum 0)])).

Definition stale_world : World :=
  with_items localStorage (insert (storage_key "s") stored_v0) initial_world.

Definition set_migrated : Value -> Value -> option Value :=
  fun persistedState _ =>
    match persistedState with
    | VObj ref fields => Some (VObj ref (obj_set "migrated" (VBool true) fields))
    | _ => None
    end.

Definition migrating (requested : Z) : PersistenceOptions :=
  {| storage := None; serialize := None; deserialize := None;
     version := Some requested; migrate := Some set_migrated |}.

(** A stored envelope at version 1. *)
Definition stored_v1 : string :=
  to_item (JSON_stringify (VObj 0 [("value", VNum 5); ("version", VNum 1)])).

Definition versioned_world : World :=
  with_items localStorage (insert (storage_key "s") stored_v1) initial_world.

Definition increment : ActionHandler :=
  fun state _ =>
    match state with
    | VNum n => Some (VNum (n + 1))
    | _ => None
    end.

Definition persisted_options : StoreOptions :=
  {| opt_persist := PBool true; opt_middleware := None; opt_memoize := None |}.

Definition persisted_counter : World :=
  snd (createStore "counter" (VNum 0) persisted_options initial_world).

Definition counter_history : World :=
  snd ((createStore "counter" (VNum 0) no_store_options ;;;
        let! tv := useTimeTravel "counter" in
        updateValue 1 tv (Literal (VNum 1)) ;;;
        updateValue 1 tv (Literal (VNum 2))) initial_world).

Definition counter_travel : TimeTravel := {| tt_name := "counter"; tt_cell := 0 |}.


Definition shop : World :=
  snd ((createStore "price" (VNum 100) no_store_options ;;;
        createStore "quantity" (VNum 2) no_store_options) initial_world).


(** The page is loaded again: the registry, the state cells and the refs
    are gone, the storages and the configuration stay. *)
Definition reload (w : World) : World :=
  {| stores := ∅; local_items := local_items w; session_items := session_items w;
     pulsyConfig := pulsyConfig w; cells := ∅; refs := ∅;
     next_id := next_id w; trace := [] |}.





(** A store [a], the aggregate [agg] over it, and a component watching the
    aggregate. *)
Definition composed_world : World :=
  snd ((createStore "a" (VNum 0) no_store_options ;;;
        composeStores "agg" [("x", "a")] ;;;
        usePulsy "agg") initial_world).









(** ** Vocabulary of the further properties *)

#[global] Instance Storage_eq_dec : EqDecision Storage.
Proof. solve_decision. Defined.

(** The entry under the namespaced key cannot be used: there is none, it is
    the empty string, the deserializer throws on it, or it yields [null] or
    [undefined]. *)
Definition unusable_entry (name : string) (options : PersistenceOptions) (w : World) : Prop :=
  match items (backend options) w !! storage_key name with
  | None => True
  | Some s =>
      s = EmptyString \/
      match fst (run_deserialize (deserialize options) s w) with
      | Ret parsed => parsed = VUndefined \/ parsed = VNull
      | _ => True
      end
  end.

(** The persistence options [createStore] works with:
    [typeof options?.persist === "object" ? options.persist : {}]. *)
Definition persistOptions_of (p : PersistSetting) : PersistenceOptions :=
  match p with
  | PObject o => o
  | _ => no_options
  end.

(** An event that writes the storage. *)
Definition is_setItem (e : Event) : Prop :=
  match e with
  | EvSetItem _ _ _ => True
  | _ => False
  end.
(** What a retrieval can change: the entry under the namespaced key of the
    options' backend, by the write of a migrated value. *)
Record retrieval (name : string) (options : PersistenceOptions) (w w' : World) : Prop :=
  mkRetrieval {
  retrieval_stores : stores w' = stores w;
  retrieval_config : pulsyConfig w' = pulsyConfig w;
  retrieval_cells : cells w' = cells w;
  retrieval_refs : refs w' = refs w;
  retrieval_items : forall s k,
    (s, k) <> (backend options, storage_key name) -> items s w' !! k = items s w !! k;
  retrieval_trace : exists evs,
    trace w' = (trace w ++ evs)%list /\
    Forall (fun e => match e with
                     | EvMigrate _ _ => True
                     | EvSetItem b k _ => b = backend options /\ k = storage_key name
                     | _ => False
                     end) evs
}.

(** The world in which [createStore] installs its record: the hook
    [onStoreCreate] has been called on the value. *)
Definition installed (name : string) (v : Value) (options : StoreOptions)
    (config : PulsyConfig) (w : World) : World :=
  (if onStoreCreate config then add_events [EvOnStoreCreate name v] else id)
    (with_stores (insert name (created v options config)) w).

(** A world visited for the first time: nothing is stored yet. *)
Definition empty_config_world (c : PulsyConfig) : World :=
  {| stores := ∅; local_items := ∅; session_items := ∅; pulsyConfig := c;
     cells := ∅; refs := ∅; next_id := 0; trace := [] |}.


(** Global persistence, with memoization on by default. *)
Definition global_persist_world : World :=
  empty_config_world
    {| onStoreCreate := false; onStoreUpdate := false;
       config_persist := Some true; defaultMemoize := Some true |}.

Definition opted_out : StoreOptions :=
  {| opt_persist := PBool false; opt_middleware := None; opt_memoize := Some false |}.

(** A counter that is persisted, watched by one component. *)
Definition watched_counter : World :=
  snd ((createStore "counter" (VNum 0) persisted_options ;;;
        usePulsy "counter") initial_world).

(** [{ ...u1, ...u2 }] on two arguments of [configurePulsy]. *)
Definition spread_update (u1 u2 : ConfigUpdate) : ConfigUpdate :=
  {| upd_onStoreCreate := match upd_onStoreCreate u2 with
                          | Some x => Some x
                          | None => upd_onStoreCreate u1
                          end;
     upd_onStoreUpdate := match upd_onStoreUpdate u2 with
                          | Some x => Some x
                          | None => upd_onStoreUpdate u1
                          end;
     upd_persist := match upd_persist u2 with
                    | Some x => Some x
                    | None => upd_persist u1
                    end;
     upd_defaultMemoize := match upd_defaultMemoize u2 with
                           | Some x => Some x
                           | None => upd_defaultMemoize u1
                           end |}.


(** [{ persist: true }]. *)
Definition persist_on : ConfigUpdate :=
  {| upd_onStoreCreate := None; upd_onStoreUpdate := None;
     upd_persist := Some (Some true); upd_defaultMemoize := None |}.


(** The items left by the loop of [clearPersistedStores] over [keys]. *)
Definition cleared (keys : list string) (m : gmap string string) : gmap string string :=
  fold_left (fun m key => if String.prefix "pulsy_" key then delete key m else m) keys m.

(** A visit that left a persisted counter in each storage and an entry of
    another application. *)
Definition session_options : StoreOptions :=
  {| opt_persist := PObject {| storage := Some sessionStorage; serialize := None;
                               deserialize := None; version := None; migrate := None |};
     opt_middleware := None; opt_memoize := None |}.

Definition visited_world : World :=
  snd ((createStore "counter" (VNum 4) persisted_options ;;;
        createStore "draft" (VNum 9) session_options ;;;
        setItem localStorage "theme" "dark") initial_world).

(** The subscribers are the [setValue] of state cells, each under the
    number of its cell, as [usePulsy] adds them. *)
Definition mounted_only (rs : list (nat * Reloader)) : Prop :=
  forall f, In f rs -> snd f = RSetState (fst f).

(** A counter watched by two components. *)
Definition two_components : World :=
  snd ((createStore "counter" (VNum 0) no_store_options ;;;
        usePulsy "counter" ;;; usePulsy "counter") initial_world).

(** No [":"] in the string. *)
Fixpoint colon_free (s : string) : bool :=
  match s with
  | EmptyString => true
  | String c rest => negb (Ascii.eqb c ":") && colon_free rest
  end.




(** An update of a composed store that reaches no store: every key is
    outside the store map, or mapped to a store that does not exist. *)
Definition reaches_no_store (c : Composed) (updates : list (string * Value)) (w : World)
  : Prop :=
  forall u, In u updates ->
    match obj_get (fst u) (composed_map c) with
    | Some storeName => stores w !! storeName = None
    | None => True
    end.

(** The cart: the price and the quantity of the shop, and a coupon store
    that was never created. *)
Definition cart_map : list (string * string) :=
  [("price", "price"); ("count", "quantity"); ("coupon", "coupon")].

(** What [composeStores("cart", ...)] returns in the shop. *)
Definition cart : Composed :=
  {| composed_name := "cart"; composed_map := cart_map;
     composed_value := VObj (next_id shop) (snapshot (stores shop) cart_map []) |}.

(** ** Values that JSON carries *)

(** No control character: the characters that [JSON.stringify] copies as
    they are or escapes with a backslash only. *)
Fixpoint printable (s : string) : bool :=
  match s with
  | EmptyString => true
  | String c rest => (32 <=? nat_of_ascii c)%nat && printable rest
  end.

(** An integer that a JavaScript number holds exactly. *)
Definition safe_integer (n : Z) : bool := Z.abs n <=? 9007199254740991.

(** The values that [JSON.stringify] and [JSON.parse] carry without loss:
    no [undefined], safe integers, strings and keys without control
    characters. *)
Fixpoint json_ok (v : Value) : bool :=
  match v with
  | VUndefined => false
  | VNull => true
  | VBool _ => true
  | VNum n => safe_integer n
  | VStr s => printable s
  | VObj _ fields =>
      bool_decide (NoDup (map fst fields)) &&
      (fix go (l : list (string * Value)) : bool :=
         match l with
         | [] => true
         | (k, x) :: rest => printable k && json_ok x && go rest
         end) fields
  end.

(** The value without its object references: two values with the same
    erasure differ in the identity of their objects only. *)
Fixpoint erase_refs (v : Value) : Value :=
  match v with
  | VObj _ fields =>
      VObj 0 ((fix go (l : list (string * Value)) : list (string * Value) :=
                 match l with
                 | [] => []
                 | (k, x) :: rest => (k, erase_refs x) :: go rest
                 end) fields)
  | _ => v
  end.

(** The number a decimal numeral denotes, with [acc] for the digits read
    so far. *)
Fixpoint uint_value (d : Decimal.uint) (acc : Z) : Z :=
  match d with
  | Decimal.Nil => acc
  | Decimal.D0 d => uint_value d (10 * acc + 0)
  | Decimal.D1 d => uint_value d (10 * acc + 1)
  | Decimal.D2 d => uint_value d (10 * acc + 2)
  | Decimal.D3 d => uint_value d (10 * acc + 3)
  | Decimal.D4 d => uint_value d (10 * acc + 4)
  | Decimal.D5 d => uint_value d (10 * acc + 5)
  | Decimal.D6 d => uint_value d (10 * acc + 6)
  | Decimal.D7 d => uint_value d (10 * acc + 7)
  | Decimal.D8 d => uint_value d (10 * acc + 8)
  | Decimal.D9 d => uint_value d (10 * acc + 9)
  end.

(** What follows a number in a JSON text is not a digit. *)
Definition ends_number (rest : list ascii) : Prop :=
  match rest with
  | [] => True
  | c :: _ => digit_of c = None
  end.

(** The members of an object as [JSON.stringify] writes them. *)
Fixpoint members (fields : list (string * Value)) : list string :=
  match fields with
  | [] => []
  | (k, x) :: rest =>
      match JSON_stringify x with
      | Some s => (json_quote k +:+ ":" +:+ s) :: members rest
      | None => members rest
      end
  end.

Fixpoint erase_fields (fields : list (string * Value)) : list (string * Value) :=
  match fields with
  | [] => []
  | (k, x) :: rest => (k, erase_refs x) :: erase_fields rest
  end.

(** The properties of an object after [fresh_refs] gave their objects new
    references. *)
Fixpoint fresh_fields (fields : list (string * Value)) (n : nat)
  : list (string * Value) * nat :=
  match fields with
  | [] => ([], n)
  | (k, x) :: rest =>
      let '(x', n1) := fresh_refs x n in
      let '(rest', n2) := fresh_fields rest n1 in
      ((k, x') :: rest', n2)
  end.

(** The entry under the namespaced key is the envelope of [v], as
    [persistStore] writes it with the default serializer. *)
Definition holds_envelope (name : string) (v : Value) (options : PersistenceOptions)
    (w : World) : Prop :=
  items (backend options) w !! storage_key name
  = JSON_stringify (VObj 0 [("value", v); ("version", VNum (version_or_1 (version options)))]).

(** The options name no serializer and no deserializer of their own, and a
    version that is a safe integer. *)
Definition plain_json (options : PersistenceOptions) : Prop :=
  serialize options = None /\ deserialize options = None /\
  safe_integer (version_or_1 (version options)) = true.

(** A visit in which the persisted counter was set to an object, and the
    page loaded again. *)
Definition returning_world : World :=
  reload (snd (createSetter 1 "counter" (Literal (VObj 7 [("count", VNum 1)]))
                 watched_counter)).

(** ** Sequences of calls to the development tools *)

(** A call [devTools.log(message, style, ...args)]. *)
Record LogCall : Type := mkLogCall {
  call_message : string;
  call_style : DevTools.LogLevel;
  call_args : list Value
}.

Definition log_call (m : LogCall) : DevTools.State -> DevTools.State :=
  DevTools.log (call_message m) (call_style m) (call_args m).

(** The calls [ms], one after the other. *)
Definition log_all (ms : list LogCall) (s : DevTools.State) : DevTools.State :=
  fold_left (fun s m => log_call m s) ms s.

(** Whether a message of the style [style] reaches the console. *)
Definition shown (c : DevTools.DevToolsConfig) (style : DevTools.LogLevel) : bool :=
  DevTools.on (DevTools.enableDevTools c) &&
  (bool_decide (DevTools.logLevel c = Some style)
   || bool_decide (DevTools.logLevel c = Some DevTools.info)).

(** The call that [log] makes for a message that is shown. *)
Definition rendered (c : DevTools.DevToolsConfig) (m : LogCall) : DevTools.ConsoleCall :=
  match call_style m with
  | DevTools.group =>
      if DevTools.on (DevTools.enableConsoleGroups c)
      then DevTools.console_group ("%c" +:+ call_message m) (DevTools.logStyle DevTools.group)
      else DevTools.console_log ("%c" +:+ call_message m) (DevTools.logStyle DevTools.group)
             (call_args m)
  | DevTools.groupEnd => DevTools.console_groupEnd
  | style => DevTools.console_log ("%c" +:+ call_message m) (DevTools.logStyle style)
               (call_args m)
  end.

(** The operations of [devTools] that do not change the configuration. *)
Inductive DevOp : Type :=
| OpLog (m : LogCall)
| OpMark (markName : string)
| OpTrack (now : Z) (name : string) (v : Value)
| OpClear
| OpVisualize.

Definition run_op (op : DevOp) (s : DevTools.State) : DevTools.State :=
  match op with
  | OpLog m => log_call m s
  | OpMark markName => DevTools.mark markName s
  | OpTrack now name v => DevTools.trackStateChange now name v s
  | OpClear => DevTools.clearStateTimeline s
  | OpVisualize => DevTools.visualizeStateChanges s
  end.

Definition run_ops (ops : list DevOp) (s : DevTools.State) : DevTools.State :=
  fold_left (fun s op => run_op op s) ops s.

Definition is_clear (op : DevOp) : bool :=
  match op with
  | OpClear => true
  | _ => false
  end.

(** The groups that the console has open: the calls of [console.group]
    less the calls of [console.groupEnd]. *)
Fixpoint open_groups (calls : list DevTools.ConsoleCall) : Z :=
  match calls with
  | [] => 0
  | DevTools.console_group _ _ :: rest => open_groups rest + 1
  | DevTools.console_groupEnd :: rest => open_groups rest - 1
  | _ :: rest => open_groups rest
  end.

(** A block of messages between [log(title, "group")] and the [log]
    call of the style ["groupEnd"] with the empty message, none of which
    opens or closes a group. *)
Definition grouped (title : string) (body : list LogCall) : list LogCall :=
  ({| call_message := title; call_style := DevTools.group; call_args := [] |} :: body
   ++ [{| call_message := EmptyString; call_style := DevTools.groupEnd; call_args := [] |}])%list.

Definition plain_style (m : LogCall) : bool :=
  negb (bool_decide (call_style m = DevTools.group))
  && negb (bool_decide (call_style m = DevTools.groupEnd)).

(** The configurations under which a block leaves the console with the
    groups it had: the tools are off, or the level lets both ends of the
    block through as a group, or neither. *)
Definition keeps_groups_balanced (c : DevTools.DevToolsConfig) : bool :=
  negb (DevTools.on (DevTools.enableDevTools c))
  || match DevTools.logLevel c with
     | Some DevTools.info => DevTools.on (DevTools.enableConsoleGroups c)
     | Some DevTools.group => negb (DevTools.on (DevTools.enableConsoleGroups c))
     | Some DevTools.groupEnd => false
     | _ => true
     end.

Definition track_all (changes : list (Z * string * Value)) (s : DevTools.State)
  : DevTools.State :=
  fold_left (fun s ch => DevTools.trackStateChange (fst (fst ch)) (snd (fst ch)) (snd ch) s)
            changes s.

Definition entry_of (ch : Z * string * Value) : DevTools.TimelineEntry :=
  {| DevTools.timestamp := fst (fst ch); DevTools.storeName := snd (fst ch);
     DevTools.entry_value := snd ch |}.

(** The messages of an update of the counter from 1 to 2, as a group. *)
Definition update_body : list LogCall :=
  [{| call_message := "Previous Value:"; call_style := DevTools.info;
      call_args := [VNum 1] |};
   {| call_message := "Next Value:"; call_style := DevTools.info;
      call_args := [VNum 2] |}].

Definition update_block : list LogCall := grouped "Store Update: counter" update_body.

(** The tools switched on, with the level [level]. *)
Definition at_level (level : DevTools.LogLevel) : DevTools.State :=
  {| DevTools.devToolsConfig :=
       {| DevTools.enableDevTools := Some true; DevTools.logLevel := Some level;
          DevTools.trackPerformance := Some true;
          DevTools.enableConsoleGroups := Some true;
          DevTools.enableStateTimeline := Some true |};
     DevTools.stateTimeline := []; DevTools.console := []; DevTools.marks := [] |}.

(** [{ enableDevTools: false }]. *)
Definition switch_off : DevTools.DevToolsUpdate :=
  {| DevTools.upd_enableDevTools := Some (Some false); DevTools.upd_logLevel := None;
     DevTools.upd_trackPerformance := None; DevTools.upd_enableConsoleGroups := None;
     DevTools.upd_enableStateTimeline := None |}.

(** * Properties *)

(** ** What a cascade of subscriber calls can change *)

Lemma same_shape_opt_refl o : same_shape_opt o o.
Proof. destruct o; simpl; unfold same_shape; auto. Qed.

Lemma same_shape_opt_trans a b c :
  same_shape_opt a b -> same_shape_opt b c -> same_shape_opt a c.
Proof.
  destruct a, b, c; simpl; unfold same_shape; try tauto.
  intros (?&?&?&?) (?&?&?&?). repeat split; congruence.
Qed.

Section Cascade.
Variable keep : string -> Prop.

Lemma cascade_refl w : cascade keep w w.
Proof.
  constructor; auto.
  - exists []. by rewrite app_nil_r.
  - intros. apply same_shape_opt_refl.
Qed.

Lemma cascade_trans a b c : cascade keep a b -> cascade keep b c -> cascade keep a c.
Proof.
  intros [] []. constructor; try congruence.
  - destruct cascade_trace0 as (e1 & E1 & F1).
    destruct cascade_trace1 as (e2 & E2 & F2).
    exists (e1 ++ e2)%list. split; [by rewrite E2, E1, app_assoc | by apply Forall_app].
  - intros s. eapply same_shape_opt_trans; eauto.
  - intros s K. rewrite cascade_keep1, cascade_keep0; auto.
Qed.

Lemma cascade_untargeted w w' : cascade keep w w' -> untargeted keep w -> untargeted keep w'.
Proof.
  intros C U s st f n Hs Hf Ht.
  pose proof (cascade_shape _ _ _ C s) as Sh. rewrite Hs in Sh.
  destruct (stores w !! s) as [st0|] eqn:E; simpl in Sh; [|done].
  destruct Sh as (Hr & _). rewrite Hr in Hf. eapply U; eauto.
Qed.

Lemma cascade_closed w w' :
  cascade keep w w' -> closed_outside keep w -> closed_outside keep w'.
Proof.
  intros C U s st f n Hk Hs Hf Ht.
  pose proof (cascade_shape _ _ _ C s) as Sh. rewrite Hs in Sh.
  destruct (stores w !! s) as [st0|] eqn:E; simpl in Sh; [|done].
  destruct Sh as (Hr & _). rewrite Hr in Hf. eapply U; eauto.
Qed.

Lemma untargeted_closed w : untargeted keep w -> closed_outside keep w.
Proof. intros U s st f n _. apply U. Qed.

Lemma untargeted_sparing w s st :
  untargeted keep w -> stores w !! s = Some st -> sparing keep (reloaders st).
Proof. intros U Hs f n Hf Ht. eapply U; eauto. Qed.

Lemma closed_sparing w s st :
  closed_outside keep w -> ~ keep s -> stores w !! s = Some st -> sparing keep (reloaders st).
Proof. intros U Hk Hs f n Hf Ht. eapply U; eauto. Qed.

Lemma cascade_cells w f : cascade keep w (with_cells f w).
Proof.
  constructor; simpl; auto.
  - exists []. by rewrite app_nil_r.
  - intros. apply same_shape_opt_refl.
Qed.

Lemma cascade_next_id w f : cascade keep w (with_next_id f w).
Proof.
  constructor; simpl; auto.
  - exists []. by rewrite app_nil_r.
  - intros. apply same_shape_opt_refl.
Qed.

Lemma cascade_log w e : reloader_event e -> cascade keep w (snd (log e w)).
Proof.
  intros He. constructor; simpl; auto.
  - exists [e]. split; [done | by constructor].
  - intros. apply same_shape_opt_refl.
Qed.

Lemma cascade_set_value w name v : ~ keep name -> cascade keep w (snd (set_value name v w)).
Proof.
  intros Hk. constructor; simpl; auto.
  - exists [EvCommit name v]. split; [done | by constructor].
  - intros s. destruct (decide (name = s)) as [->|Hne].
    + rewrite lookup_alter_eq. destruct (stores w !! s); simpl; unfold same_shape; auto.
    + rewrite lookup_alter_ne by done. apply same_shape_opt_refl.
  - intros s K. rewrite lookup_alter_ne; [done | congruence].
Qed.

Lemma cascade_hook w name v : cascade keep w (snd (onStoreUpdate_hook name v w)).
Proof.
  unfold onStoreUpdate_hook, bind, gets, when. simpl.
  destruct (onStoreUpdate (pulsyConfig w)).
  - by apply cascade_log.
  - apply cascade_refl.
Qed.

(** A subscriber loop stays within [cascade] when every call does. *)
Lemma forEach_cascade {A : Type} (step : A -> M unit) (l : list A) :
  (forall f w, In f l -> closed_outside keep w -> cascade keep w (snd (step f w))) ->
  forall w, closed_outside keep w -> cascade keep w (snd (forEach step l w)).
Proof.
  induction l as [|f l IH]; intros Hstep w U; simpl.
  - apply cascade_refl.
  - unfold bind. pose proof (Hstep f w (or_introl eq_refl) U) as C.
    destruct (step f w) as [[[]|msg|] w1]; simpl in *; auto.
    eapply cascade_trans; [exact C|].
    apply IH; [|by eapply cascade_closed].
    intros g w' Hg. apply Hstep. by right.
Qed.

Lemma notify_with_cascade (call : Reloader -> Value -> M unit) name v :
  (forall r x w, (forall n, target r = Some n -> ~ keep n) -> closed_outside keep w ->
                 cascade keep w (snd (call r x w))) ->
  forall w, closed_outside keep w ->
    (forall st, stores w !! name = Some st -> sparing keep (reloaders st)) ->
    cascade keep w (snd (notify_with call name v w)).
Proof.
  intros Hcall w U Hsp. unfold notify_with, bind, stores_get, gets. simpl.
  destruct (stores w !! name) as [st|] eqn:E; [|apply cascade_refl].
  apply forEach_cascade; [|done].
  intros f w' Hf U'. unfold bind.
  pose proof (cascade_log w' (EvNotify name (fst f) v) I) as C1.
  simpl in *. eapply cascade_trans; [exact C1|].
  apply Hcall; [|by eapply cascade_closed].
  intros n Hn. eapply (Hsp st); eauto.
Qed.

Lemma call_reloader_cascade fuel : forall r v w,
  (forall n, target r = Some n -> ~ keep n) -> closed_outside keep w ->
  cascade keep w (snd (call_reloader fuel r v w)).
Proof.
  induction fuel as [|fuel IH]; intros r v w Hr U; simpl.
  - apply cascade_refl.
  - destruct r as [cell|name computeFn|name storeMap composedValue].
    + apply cascade_cells.
    + unfold bind, gets. simpl.
      destruct (computeFn (view w)) as [newValue|]; [|apply cascade_refl].
      unfold stores_get, gets. simpl.
      destruct (stores w !! name) as [st|] eqn:E; [|apply cascade_refl].
      assert (Hk : ~ keep name) by (by apply Hr).
      pose proof (cascade_set_value w name newValue Hk) as C1.
      destruct (set_value name newValue w) as [r1 w1] eqn:E1.
      unfold set_value, bind, modify, log in E1. simpl in E1. injection E1 as <- <-.
      simpl in C1.
      match goal with |- cascade _ _ (snd (match notify_with ?c ?n ?x ?w1 with _ => _ end)) =>
        pose proof (notify_with_cascade c n x IH w1 (cascade_closed _ _ C1 U)
                      (fun st Hst => closed_sparing w1 n st (cascade_closed _ _ C1 U) Hk Hst))
          as C2;
        destruct (notify_with c n x w1) as [[[]|msg|] w2]
      end; simpl in *; try (eapply cascade_trans; eassumption).
      eapply cascade_trans; [exact C1|]. eapply cascade_trans; [exact C2|].
      apply cascade_hook.
    + unfold bind, fresh_id, gets. simpl.
      destruct (recombine (stores w) composedValue storeMap [] false) as [fields hasChanges].
      pose proof (cascade_next_id w S) as C0.
      destruct hasChanges; [|exact C0].
      unfold bind, stores_get, gets. simpl.
      destruct (stores w !! name) as [st|] eqn:E; [|exact C0].
      assert (Hk : ~ keep name) by (by apply Hr).
      pose proof (cascade_set_value (with_next_id S w) name (VObj (next_id w) fields) Hk) as C1.
      simpl in C1.
      pose proof (cascade_trans _ _ _ C0 C1) as C01.
      match goal with |- cascade _ _ (snd (match notify_with ?c ?n ?x ?w1 with _ => _ end)) =>
        pose proof (notify_with_cascade c n x IH w1 (cascade_closed _ _ C01 U)
                      (fun st Hst => closed_sparing w1 n st (cascade_closed _ _ C01 U) Hk Hst))
          as C2;
        destruct (notify_with c n x w1) as [[[]|msg|] w2]
      end; simpl in *; try (eapply cascade_trans; eassumption).
      eapply cascade_trans; [exact C01|]. eapply cascade_trans; [exact C2|].
      apply cascade_hook.
Qed.
End Cascade.

(** The notification of a store whose subscribers spare [keep]. *)
Lemma notify_cascade_outside keep fuel name v w :
  closed_outside keep w ->
  (forall st, stores w !! name = Some st -> sparing keep (reloaders st)) ->
  cascade keep w (snd (notify fuel name v w)).
Proof.
  intros U Hsp. apply notify_with_cascade; [|done|done].
  intros r x w' Hr U'. by apply call_reloader_cascade.
Qed.

Lemma notify_cascade keep fuel name v w :
  untargeted keep w -> cascade keep w (snd (notify fuel name v w)).
Proof.
  intros U. apply notify_cascade_outside; [by apply untargeted_closed|].
  intros st Hst. by eapply untargeted_sparing.
Qed.

(** ** Persistence writes *)

Lemma add_events_nil w : add_events [] w = w.
Proof. destruct w. unfold add_events, with_trace. simpl. by rewrite app_nil_r. Qed.

Lemma add_events_app a b w : add_events b (add_events a w) = add_events (a ++ b) w.
Proof. unfold add_events, with_trace. simpl. by rewrite app_assoc. Qed.

Lemma persistStore_run name v options w :
  persistStore name v options w =
  (Ret tt,
   match serialized (next_id w) v options with
   | Some s =>
       add_events [EvSetItem (backend options) (storage_key name) s]
         (with_items (backend options) (insert (storage_key name) s) (with_next_id S w))
   | None => with_next_id S w
   end).
Proof.
  unfold persistStore, try_catch, new_object, bind, fresh_id, ret, serialized, envelope, backend.
  simpl. destruct (default default_serialize (serialize options) _); reflexivity.
Qed.

Lemma persistStore_stores name v options w :
  stores (snd (persistStore name v options w)) = stores w.
Proof. rewrite persistStore_run. simpl. by destruct (serialized _ _ _). Qed.

(** ** The middleware fold *)

Lemma fold_thrown (chain : list Middleware) prev name :
  fold_left (fun acc (m : Middleware) => match acc with Some x => m x prev name | None => None end)
            chain None = None.
Proof. induction chain; simpl; auto. Qed.

Lemma middleware_fold_cons m chain prev name x :
  middleware_fold (m :: chain) prev name x =
  match m x prev name with
  | Some y => middleware_fold chain prev name y
  | None => None
  end.
Proof.
  unfold middleware_fold. simpl. destruct (m x prev name); [done | apply fold_thrown].
Qed.

Lemma apply_middleware_run name chain prev : forall stage x w,
  apply_middleware name stage chain prev x w =
  (match middleware_fold chain prev name x with
   | Some v => Ret v
   | None => Throw "middleware"
   end,
   add_events (stage_events name stage chain prev x) w).
Proof.
  induction chain as [|m chain IH]; intros stage x w.
  - simpl. unfold ret. by rewrite add_events_nil.
  - rewrite middleware_fold_cons. simpl. unfold bind, log, modify. simpl.
    destruct (m x prev name) as [y|].
    + rewrite IH. f_equal. apply add_events_app.
    + reflexivity.
Qed.



(** ** The setter *)

Lemma createSetter_missing fuel name newValue w :
  stores w !! name = None -> createSetter fuel name newValue w = (Ret tt, w).
Proof. intros H. unfold createSetter, bind, stores_get, gets. simpl. by rewrite H. Qed.

Lemma createSetter_run fuel name newValue w st candidate :
  stores w !! name = Some st ->
  resolve newValue (value st) = Some candidate ->
  createSetter fuel name newValue w =
  match middleware_fold (middleware st) (value st) name candidate with
  | Some v =>
      try_catch (after_commit fuel name st v) (ret tt)
        (snd (set_value name v
                (add_events (stage_events name 0 (middleware st) (value st) candidate) w)))
  | None =>
      (Ret tt, add_events (stage_events name 0 (middleware st) (value st) candidate) w)
  end.
Proof.
  intros Hst Hres. unfold createSetter, bind at 1, stores_get, gets. simpl. rewrite Hst.
  unfold try_catch at 1, bind at 1.
  assert (Hc : forall w0, (match newValue with
                | Literal v => ret v
                | Updater f => match f (value st) with Some v => ret v | None => throw "updater" end
                end) w0 = (Ret candidate, w0)).
  { intros w0. destruct newValue as [x|f]; simpl in Hres.
    - by injection Hres as ->.
    - by rewrite Hres. }
  rewrite Hc. unfold bind at 1. rewrite apply_middleware_run.
  destruct (middleware_fold (middleware st) (value st) name candidate) as [v|]; [|done].
  unfold try_catch, after_commit, bind, set_value, modify, log. simpl. reflexivity.
Qed.








Lemma obj_get_map {A B : Type} (g : string -> A -> B) key (l : list (string * A)) :
  obj_get key (map (fun h => (fst h, g (fst h) (snd h))) l) =
  match obj_get key l with
  | Some x => Some (g key x)
  | None => None
  end.
Proof.
  induction l as [|[k x] l IH]; simpl; [done|].
  destruct (String.eqb k key) eqn:E; [|done].
  apply String.eqb_eq in E. by subst.
Qed.

(** C4. On a name without a registry entry [getStoreValue], [addMiddleware]
    and the dispatch of an action throw, and leave the world as it was; the
    setter returns normally and leaves the world as it was, trace included. *)
Theorem missing_store_read_throws_write_noop fuel w name :
  stores w !! name = None ->
  getStoreValue name w = (Throw (not_found name), w) /\
  (forall m, addMiddleware name m w = (Throw (not_found name), w)) /\
  (forall handlers type handler payload,
     obj_get type handlers = Some handler ->
     dispatch (createActions fuel name handlers) type payload w =
     (Throw (not_found name), w)) /\
  (forall newValue, createSetter fuel name newValue w = (Ret tt, w)).
Proof.
  intros H. repeat split.
  - unfold getStoreValue, bind, stores_get, gets. simpl. by rewrite H.
  - intros m. unfold addMiddleware, bind, stores_get, gets. simpl. by rewrite H.
  - intros handlers type handler payload Hh.
    unfold dispatch, createActions. rewrite obj_get_map, Hh.
    unfold action_creator, bind, stores_get, gets. simpl. by rewrite H.
  - intros newValue. by apply createSetter_missing.
Qed.

(** ** Checks that compute, and the setter at example inputs *)





(** A name that was never created. *)
Lemma missing_store_read_throws_write_noop_witness :
  getStoreValue "ghost" initial_world = (Throw (not_found "ghost"), initial_world) /\
  createSetter 1 "ghost" (Literal (VNum 1)) initial_world = (Ret tt, initial_world).
Proof.
  destruct (missing_store_read_throws_write_noop 1 initial_world "ghost" eq_refl)
    as (Hget & _ & _ & Hset).
  split; [exact Hget | apply Hset].
Defined.

(** ** Creation *)

Lemma createStore_run_memory name v options w :
  truthy (persist_or (opt_persist options) (config_persist (pulsyConfig w))) = false ->
  createStore name v options w =
  (Ret tt,
   (if onStoreCreate (pulsyConfig w) then add_events [EvOnStoreCreate name v] else id)
     (with_stores (insert name (created v options (pulsyConfig w))) w)).
Proof.
  intros H. unfold createStore, bind, gets, stores_set, modify, when, ret. simpl.
  rewrite H. simpl. unfold created.
  destruct (onStoreCreate (pulsyConfig w)); reflexivity.
Qed.

(** C1, as the code has it. [createStore] has no guard on an existing name:
    called without persistence on a name that is already registered, it
    replaces the record, so that the value is the new one and the subscribers
    and the middleware chain of the old record are gone. *)
Theorem createStore_existing_overwrites w name st v2 options :
  stores w !! name = Some st ->
  truthy (persist_or (opt_persist options) (config_persist (pulsyConfig w))) = false ->
  let w' := snd (createStore name v2 options w) in
  stores w' !! name = Some (created v2 options (pulsyConfig w)) /\
  fst (getStoreValue name w') = Ret v2.
Proof.
  intros Hst Hp w'. subst w'. rewrite createStore_run_memory by done. simpl.
  assert (E : forall w0, stores ((if onStoreCreate (pulsyConfig w)
                                  then add_events [EvOnStoreCreate name v2] else id) w0)
                         = stores w0) by (intros; by destruct (onStoreCreate _)).
  split.
  - rewrite E. simpl. apply lookup_insert_eq.
  - unfold getStoreValue, bind, stores_get, gets. simpl. rewrite E. simpl.
    by rewrite lookup_insert_eq.
Qed.

(** [createStore("counter", 1)] then [createStore("counter", 2)]. *)
Lemma createStore_existing_overwrites_witness :
  fst (getStoreValue "counter" counter_once) = Ret (VNum 1) /\
  fst (getStoreValue "counter"
         (snd (createStore "counter" (VNum 2) no_store_options counter_once)))
  = Ret (VNum 2).
Proof.
  split; [reflexivity|].
  apply (createStore_existing_overwrites counter_once "counter"
           (created (VNum 1) no_store_options default_config) (VNum 2) no_store_options);
    reflexivity.
Defined.

(** The earlier [createStore] returns at once on a registered name. *)
Lemma legacy_createStore_existing defaultPersist w name st v persist_ middleware_ memoize_ :
  stores w !! name = Some st ->
  Legacy.createStore defaultPersist name v persist_ middleware_ memoize_ w = (Ret tt, w).
Proof.
  intros H. unfold Legacy.createStore, bind, gets, stores_get. simpl. by rewrite H.
Qed.

(** ** Retrieval and migration *)

Lemma new_events_add evs w : new_events w (add_events evs w) = evs.
Proof. unfold new_events. simpl. by rewrite drop_app_length. Qed.

Lemma run_deserialize_frame d s w r w1 :
  run_deserialize d s w = (r, w1) ->
  trace w1 = trace w /\ stores w1 = stores w /\
  local_items w1 = local_items w /\ session_items w1 = session_items w.
Proof.
  unfold run_deserialize. destruct d as [f|].
  - destruct (f s); unfold ret, throw; intros [= <- <-]; auto.
  - destruct (JSON_parse s) as [v|]; [|unfold throw; intros [= <- <-]; auto].
    destruct (fresh_refs v (next_id w)). intros [= <- <-]. auto.
Qed.

Lemma retrievePersistedStore_run name options w s parsed w1 :
  items (backend options) w !! storage_key name = Some s ->
  s <> EmptyString ->
  run_deserialize (deserialize options) s w = (Ret parsed, w1) ->
  is_object_like parsed ->
  retrievePersistedStore name options w = retrieved name options parsed w1.
Proof.
  intros Hitem Hne Hparse [Hu Hn].
  unfold retrievePersistedStore, try_catch, bind at 1, getItem, gets. simpl.
  unfold backend in Hitem. rewrite Hitem.
  assert (E : String.eqb s EmptyString = false) by (by apply String.eqb_neq).
  rewrite E. simpl. unfold bind at 1. rewrite Hparse.
  unfold retrieved.
  destruct parsed; try congruence;
    (destruct (migrate options) as [f|]; [|reflexivity];
     destruct (negb (default 1 (version options) =? 0) && _); [|reflexivity];
     unfold bind, log, modify; simpl;
     match goal with |- context [f ?a ?b] => destruct (f a b) end;
     [rewrite !persistStore_run; reflexivity | reflexivity]).
Qed.

Lemma new_events_app w w' evs : trace w' = (trace w ++ evs)%list -> new_events w w' = evs.
Proof. intros E. unfold new_events. by rewrite E, drop_app_length. Qed.

Lemma persistStore_trace name v options w :
  exists evs,
    trace (snd (persistStore name v options w)) = (trace w ++ evs)%list /\
    forall a b, ~ In (EvMigrate a b) evs.
Proof.
  rewrite persistStore_run. simpl. destruct (serialized _ _ _) as [s|]; simpl.
  - eexists. split; [reflexivity|]. intros a b [H|[]]. discriminate.
  - exists []. split; [by rewrite app_nil_r | by intros a b []].
Qed.

Lemma migrates_iff options parsed :
  migrates options parsed = true <->
  default 1 (version options) <> 0 /\
  strict_neq (get_field "version" parsed) (VNum (default 1 (version options))) = true /\
  is_Some (migrate options).
Proof.
  unfold migrates. destruct (migrate options) as [f|].
  - rewrite andb_true_iff, negb_true_iff, Z.eqb_neq. split; [|tauto].
    intros [? ?]. repeat split; eauto.
  - split; [done|]. intros (_ & _ & [x Hx]). done.
Qed.

Lemma retrieved_trace name options parsed w1 :
  exists evs,
    trace (snd (retrieved name options parsed w1)) =
      (trace w1 ++ (if migrates options parsed
                    then EvMigrate (get_field "value" parsed) (get_field "version" parsed) :: evs
                    else []))%list /\
    forall a b, ~ In (EvMigrate a b) evs.
Proof.
  unfold retrieved, migrates. destruct (migrate options) as [f|].
  - destruct (negb _ && _).
    + destruct (f _ _) as [migrated|]; simpl.
      * destruct (persistStore_trace name migrated
                    (with_version options (default 1 (version options)))
                    (add_events [EvMigrate (get_field "value" parsed)
                                           (get_field "version" parsed)] w1))
          as (evs & E & Hno).
        exists evs. split; [|done]. rewrite E. simpl. by rewrite <- app_assoc.
      * exists []. split; [done | by intros a b []].
    + exists []. simpl. split; [by rewrite app_nil_r | by intros a b []].
  - exists []. simpl. split; [by rewrite app_nil_r | by intros a b []].
Qed.

Lemma version_or_1_requested n : n <> 0 -> version_or_1 (Some n) = n.
Proof. intros H. simpl. destruct (n =? 0) eqn:E; [|done]. by apply Z.eqb_eq in E. Qed.

(** The write of a migrated value: under the namespaced key of the chosen
    backend, the envelope at the requested version. *)
Lemma retrieved_repersists name options parsed w1 migrate_ migrated str :
  migrate options = Some migrate_ ->
  migrates options parsed = true ->
  migrate_ (get_field "value" parsed) (get_field "version" parsed) = Some migrated ->
  default default_serialize (serialize options)
    (VObj (next_id w1)
       [("value", migrated); ("version", VNum (default 1 (version options)))]) = Some str ->
  retrieved name options parsed w1 =
  (Ret migrated,
   add_events [EvMigrate (get_field "value" parsed) (get_field "version" parsed);
               EvSetItem (backend options) (storage_key name) str]
     (with_items (backend options) (insert (storage_key name) str) (with_next_id S w1))).
Proof.
  intros Hm Hmig Hf Hser. unfold retrieved. unfold migrates in Hmig. rewrite Hm in *.
  rewrite Hmig, Hf. f_equal. rewrite persistStore_run. simpl.
  apply andb_true_iff in Hmig as [Hz _]. apply negb_true_iff, Z.eqb_neq in Hz.
  unfold serialized, envelope. simpl version. rewrite version_or_1_requested by done.
  simpl serialize. rewrite Hser. unfold backend, add_events, with_trace, with_items. simpl.
  by rewrite <- app_assoc.
Qed.

(** C5, as the code has it. Migration also needs a requested version that
    is not 0: [migrate] is called exactly when the requested version is not
    0, the stored version differs from it and a [migrate] function is
    supplied. It is called on the stored value and the stored version; its
    result is returned and stored again under the requested version, after
    which a retrieval that reads that version back does not call [migrate].
    Without a [migrate] function the stored value is returned as it is. *)
Theorem retrieve_migrates_on_mismatch name options w s parsed w1 :
  items (backend options) w !! storage_key name = Some s ->
  s <> EmptyString ->
  run_deserialize (deserialize options) s w = (Ret parsed, w1) ->
  is_object_like parsed ->
  let v := get_field "value" parsed in
  let storedVersion := get_field "version" parsed in
  let requested := default 1 (version options) in
  let w' := snd (retrievePersistedStore name options w) in
  (migrate_called w w' <->
     requested <> 0 /\ strict_neq storedVersion (VNum requested) = true /\
     is_Some (migrate options)) /\
  (forall a b, In (EvMigrate a b) (new_events w w') -> a = v /\ b = storedVersion) /\
  (forall migrate_ migrated,
     migrate options = Some migrate_ ->
     requested <> 0 -> strict_neq storedVersion (VNum requested) = true ->
     migrate_ v storedVersion = Some migrated ->
     fst (retrievePersistedStore name options w) = Ret migrated /\
     forall str,
       default default_serialize (serialize options)
         (VObj (next_id w1) [("value", migrated); ("version", VNum requested)]) = Some str ->
       items (backend options) w' !! storage_key name = Some str /\
       forall parsed2 w3,
         str <> EmptyString ->
         run_deserialize (deserialize options) str w' = (Ret parsed2, w3) ->
         is_object_like parsed2 ->
         get_field "version" parsed2 = VNum requested ->
         retrievePersistedStore name options w' = (Ret (get_field "value" parsed2), w3) /\
         ~ migrate_called w' w3) /\
  (migrate options = None -> retrievePersistedStore name options w = (Ret v, w1)).
Proof.
  intros Hitem Hne Hparse Hobj v storedVersion requested w'.
  subst v storedVersion requested.
  pose proof (retrievePersistedStore_run _ _ _ _ _ _ Hitem Hne Hparse Hobj) as Hrun.
  destruct (run_deserialize_frame _ _ _ _ _ Hparse) as (Ht1 & _).
  destruct (retrieved_trace name options parsed w1) as (evs & Htr & Hno).
  assert (Hnew : new_events w w' =
                 if migrates options parsed
                 then EvMigrate (get_field "value" parsed) (get_field "version" parsed) :: evs
                 else []).
  { apply new_events_app. subst w'. by rewrite Hrun, Htr, Ht1. }
  split; [|split; [|split]].
  - rewrite <- migrates_iff. unfold migrate_called. rewrite Hnew.
    destruct (migrates options parsed).
    + split; [done|]. intros _. eexists _, _. by left.
    + split; [|done]. by intros (a & b & []).
  - intros a b Hin. rewrite Hnew in Hin. destruct (migrates options parsed); [|done].
    destruct Hin as [Hin|Hin]; [by injection Hin as <- <- | by apply Hno in Hin].
  - intros migrate_ migrated Hm Hz Hs Hf.
    assert (Hmig : migrates options parsed = true).
    { apply migrates_iff. repeat split; auto; by rewrite Hm. }
    split.
    { rewrite Hrun. unfold retrieved. unfold migrates in Hmig. rewrite Hm in *.
      by rewrite Hmig, Hf. }
    intros str Hser.
    pose proof (retrieved_repersists name options parsed w1 _ _ _ Hm Hmig Hf Hser) as Hre.
    assert (Hitem2 : items (backend options) w' !! storage_key name = Some str).
    { subst w'. rewrite Hrun, Hre. simpl.
      destruct (backend options); simpl; apply lookup_insert_eq. }
    split; [exact Hitem2|].
    intros parsed2 w3 Hne2 Hparse2 Hobj2 Hver2.
    split.
    + rewrite (retrievePersistedStore_run _ _ _ _ _ _ Hitem2 Hne2 Hparse2 Hobj2).
      unfold retrieved. rewrite Hm, Hver2.
      assert (Es : strict_neq (VNum (default 1 (version options)))
                              (VNum (default 1 (version options))) = false).
      { unfold strict_neq. simpl. by rewrite Z.eqb_refl. }
      by rewrite Es, andb_false_r.
    + destruct (run_deserialize_frame _ _ _ _ _ Hparse2) as (Ht3 & _).
      intros (a & b & Hin). unfold new_events in Hin.
      by rewrite Ht3, drop_all in Hin.
  - intros Hm. rewrite Hrun. unfold retrieved. by rewrite Hm.
Qed.

(** Stored version 0, requested version 1: the value comes back migrated. *)
Lemma retrieve_migrates_on_mismatch_witness :
  migrate_called stale_world (snd (retrievePersistedStore "s" (migrating 1) stale_world)) /\
  fst (retrievePersistedStore "s" (migrating 1) stale_world)
  = Ret (VObj 1 [("count", VNum 0); ("migrated", VBool true)]).
Proof.
  assert (Hobj : is_object_like
                   (VObj 0 [("value", VObj 1 [("count", VNum 0)]); ("version", VNum 0)]))
    by (split; discriminate).
  destruct (retrieve_migrates_on_mismatch "s" (migrating 1) stale_world stored_v0
              (VObj 0 [("value", VObj 1 [("count", VNum 0)]); ("version", VNum 0)])
              (with_next_id (fun _ => 2%nat) stale_world)
              eq_refl ltac:(discriminate) eq_refl Hobj) as (Hiff & _ & Hret & _).
  split.
  - apply Hiff. repeat split; [discriminate | by eexists].
  - apply (Hret set_migrated); [reflexivity | discriminate | reflexivity | reflexivity].
Defined.

(** With requested version 0, stored version 1 and a [migrate] function,
    [migrate] is not called. *)
Lemma retrieve_version_zero_never_migrates :
  ~ migrates_as_claimed "s" (migrating 0) versioned_world.
Proof.
  intros H.
  specialize (H stored_v1 (VObj 0 [("value", VNum 5); ("version", VNum 1)])
                (with_next_id (fun _ => 1%nat) versioned_world) eq_refl eq_refl).
  destruct H as [_ H].
  destruct H as (a & b & Hin); [split; [reflexivity | by eexists]|].
  vm_compute in Hin. exact Hin.
Qed.

(** ** Actions and persistence *)

(** C6, at a failing input. A counter store created with [persist: true]
    is stored as an envelope under ["pulsy_counter"]; dispatching an action
    on it writes the bare JSON text of the new state under the key
    ["counter"], and leaves the envelope at the old value. *)
Theorem action_dispatch_persists_bare_value :
  let actions := createActions 1 "counter" [("increment", increment)] in
  let w := snd (dispatch actions "increment" VUndefined persisted_counter) in
  local_items persisted_counter !! storage_key "counter"
    = JSON_stringify (VObj 0 [("value", VNum 0); ("version", VNum 1)]) /\
  fst (getStoreValue "counter" w) = Ret (VNum 1) /\
  new_events persisted_counter w
    = [EvCommit "counter" (VNum 1); EvSetItem localStorage "counter" "1"] /\
  local_items w !! "counter" = Some "1" /\
  local_items w !! storage_key "counter"
    = JSON_stringify (VObj 0 [("value", VNum 0); ("version", VNum 1)]).
Proof. vm_compute. repeat split; reflexivity. Qed.

(** ** Time travel *)

Lemma untargeted_nothing w : untargeted (fun _ => False) w.
Proof. by intros s st f n _ _ _ K. Qed.

Lemma after_commit_refs fuel name st v w :
  refs (snd (try_catch (after_commit fuel name st v) (ret tt) w)) = refs w.
Proof.
  unfold try_catch, after_commit, bind.
  pose proof (notify_cascade _ fuel name v w (untargeted_nothing w)) as C1.
  destruct (notify fuel name v w) as [[[]|msg|] w1]; simpl in *;
    try apply (cascade_refs _ _ _ C1).
  pose proof (cascade_hook (fun _ => False) w1 name v) as C2.
  apply cascade_refs in C1, C2.
  destruct (onStoreUpdate_hook name v w1) as [[[]|msg|] w2]; simpl in *; try congruence.
  unfold when. destruct (truthy (persist st)); simpl; [|congruence].
  rewrite persistStore_run. simpl. rewrite <- C1, <- C2. by destruct (serialized _ _ _).
Qed.

Lemma createSetter_updater_throws fuel name f w st :
  stores w !! name = Some st -> f (value st) = None ->
  createSetter fuel name (Updater f) w = (Ret tt, w).
Proof.
  intros Hst Hf. unfold createSetter, bind, stores_get, gets, try_catch. simpl.
  by rewrite Hst, Hf.
Qed.

Lemma createSetter_refs fuel name newValue w :
  refs (snd (createSetter fuel name newValue w)) = refs w.
Proof.
  destruct (stores w !! name) as [st|] eqn:Hst;
    [|by rewrite createSetter_missing].
  destruct (resolve newValue (value st)) as [candidate|] eqn:Hres.
  - rewrite (createSetter_run _ _ _ _ _ _ Hst Hres).
    destruct (middleware_fold _ _ _ _) as [v|]; [|done].
    by rewrite after_commit_refs.
  - destruct newValue as [x|f]; simpl in Hres; [done|].
    by rewrite (createSetter_updater_throws _ _ _ _ _ Hst Hres).
Qed.

(** C8. With the cursor [p] inside the history [h]:
    - [updateValue] leaves [h[0..p] ++ [v]] and the cursor [p + 1], and
      passes [v] to the setter of the store;
    - [undo] does nothing at cursor 0; otherwise it leaves [h] as it is,
      moves the cursor to [p - 1] and passes [h[p - 1]] to the setter;
    - [redo] does nothing at the last entry; otherwise it leaves [h] as it
      is, moves the cursor to [p + 1] and passes [h[p + 1]] to the setter;
    - the cursor stays inside the history in every case.
    From the history [0, 1, 2] at cursor 2, two undos and a set of 5 leave
    the history [0, 5] at cursor 1, where [redo] does nothing. *)
Theorem time_travel_cursor fuel tv w h p :
  refs w !! tt_cell tv = Some (h, p) ->
  0 <= p < Z.of_nat (length h) ->
  (forall newValue v,
     resolve newValue (cell_value (tt_cell tv) w) = Some v ->
     let w1 := with_refs (insert (tt_cell tv) ((slice_to h p ++ [v])%list, p + 1)) w in
     let w' := snd (updateValue fuel tv newValue w) in
     updateValue fuel tv newValue w = createSetter fuel (tt_name tv) (Literal v) w1 /\
     historyRef tv w' = (take (Z.to_nat p + 1) h ++ [v])%list /\
     positionRef tv w' = p + 1 /\
     history_at (historyRef tv w') (positionRef tv w') = v /\
     cursor_in_range tv w') /\
  (p = 0 -> undo fuel tv w = (Ret tt, w)) /\
  (0 < p ->
     let w' := snd (undo fuel tv w) in
     undo fuel tv w =
       createSetter fuel (tt_name tv) (Literal (history_at h (p - 1)))
         (with_refs (insert (tt_cell tv) (h, p - 1)) w) /\
     historyRef tv w' = h /\ positionRef tv w' = p - 1 /\ cursor_in_range tv w') /\
  (p = Z.of_nat (length h) - 1 -> redo fuel tv w = (Ret tt, w)) /\
  (p < Z.of_nat (length h) - 1 ->
     let w' := snd (redo fuel tv w) in
     redo fuel tv w =
       createSetter fuel (tt_name tv) (Literal (history_at h (p + 1)))
         (with_refs (insert (tt_cell tv) (h, p + 1)) w) /\
     historyRef tv w' = h /\ positionRef tv w' = p + 1 /\ cursor_in_range tv w') /\
  (historyRef counter_travel counter_history = [VNum 0; VNum 1; VNum 2] /\
   positionRef counter_travel counter_history = 2 /\
   let w3 := snd ((undo 1 counter_travel ;;; undo 1 counter_travel ;;;
                   updateValue 1 counter_travel (Literal (VNum 5))) counter_history) in
   historyRef counter_travel w3 = [VNum 0; VNum 5] /\
   positionRef counter_travel w3 = 1 /\
   redo 1 counter_travel w3 = (Ret tt, w3)).
Proof.
  intros Href Hp.
  assert (Hh : forall w0, refs w0 = refs w -> historyRef tv w0 = h).
  { intros w0 E. unfold historyRef. by rewrite E, Href. }
  assert (Hpos : forall w0, refs w0 = refs w -> positionRef tv w0 = p).
  { intros w0 E. unfold positionRef. by rewrite E, Href. }
  assert (Hafter : forall name arg h' p',
            let w' := snd (createSetter fuel name arg
                             (with_refs (insert (tt_cell tv) (h', p')) w)) in
            historyRef tv w' = h' /\ positionRef tv w' = p').
  { intros name arg h' p'. simpl. unfold historyRef, positionRef.
    rewrite createSetter_refs. simpl. by rewrite lookup_insert_eq. }
  split; [|split; [|split; [|split; [|split]]]].
  - intros newValue v Hres w1 w'.
    assert (Hrun : updateValue fuel tv newValue w
                   = createSetter fuel (tt_name tv) (Literal v) w1).
    { unfold updateValue, bind at 1, gets. simpl. unfold bind at 1.
      assert (Hc : forall w0, (match newValue with
                | Literal v => ret v
                | Updater f => match f (cell_value (tt_cell tv) w) with
                               | Some v => ret v | None => throw "updater" end
                end) w0 = (Ret v, w0)).
      { intros w0. destruct newValue as [x|f]; simpl in Hres.
        - by injection Hres as ->.
        - by rewrite Hres. }
      rewrite Hc. unfold bind, gets, set_refs, modify. simpl.
      by rewrite (Hh w eq_refl), (Hpos w eq_refl). }
    subst w'. rewrite Hrun. subst w1.
    destruct (Hafter (tt_name tv) (Literal v) (slice_to h p ++ [v])%list (p + 1)) as (E1 & E2).
    simpl in E1, E2. unfold cursor_in_range. rewrite E1, E2.
    assert (Hlen : length (slice_to h p) = Z.to_nat (p + 1)).
    { unfold slice_to. rewrite length_take. lia. }
    repeat split.
    + unfold slice_to. f_equal. f_equal. lia.
    + unfold history_at. destruct (p + 1 <? 0) eqn:E; [lia|].
      rewrite lookup_app_r by lia. rewrite Hlen, Nat.sub_diag. reflexivity.
    + lia.
    + rewrite length_app, Hlen. simpl. lia.
  - intros ->. unfold undo, bind, gets. simpl.
    by rewrite (Hh w eq_refl), (Hpos w eq_refl).
  - intros Hlt w'.
    assert (Hrun : undo fuel tv w =
              createSetter fuel (tt_name tv) (Literal (history_at h (p - 1)))
                (with_refs (insert (tt_cell tv) (h, p - 1)) w)).
    { unfold undo, bind, gets, set_refs, modify. simpl.
      rewrite (Hh w eq_refl), (Hpos w eq_refl).
      destruct (0 <? p) eqn:E; [done | lia]. }
    subst w'. rewrite Hrun.
    destruct (Hafter (tt_name tv) (Literal (history_at h (p - 1))) h (p - 1)) as (E1 & E2).
    simpl in E1, E2. unfold cursor_in_range. rewrite E1, E2. repeat split; lia.
  - intros Hlast. unfold redo, bind, gets. simpl.
    rewrite (Hh w eq_refl), (Hpos w eq_refl).
    destruct (p <? Z.of_nat (length h) - 1) eqn:E; [lia | done].
  - intros Hlt w'.
    assert (Hrun : redo fuel tv w =
              createSetter fuel (tt_name tv) (Literal (history_at h (p + 1)))
                (with_refs (insert (tt_cell tv) (h, p + 1)) w)).
    { unfold redo, bind, gets, set_refs, modify. simpl.
      rewrite (Hh w eq_refl), (Hpos w eq_refl).
      destruct (p <? Z.of_nat (length h) - 1) eqn:E; [done | lia]. }
    subst w'. rewrite Hrun.
    destruct (Hafter (tt_name tv) (Literal (history_at h (p + 1))) h (p + 1)) as (E1 & E2).
    simpl in E1, E2. unfold cursor_in_range. rewrite E1, E2. repeat split; lia.
  - vm_compute. repeat split; reflexivity.
Qed.

(** One [undo] from the history [0, 1, 2] at cursor 2. *)
Lemma time_travel_cursor_witness :
  let w' := snd (undo 1 counter_travel counter_history) in
  historyRef counter_travel w' = [VNum 0; VNum 1; VNum 2] /\
  positionRef counter_travel w' = 1.
Proof.
  destruct (time_travel_cursor 1 counter_travel counter_history
              [VNum 0; VNum 1; VNum 2] 2 eq_refl ltac:(simpl; lia))
    as (_ & _ & Hundo & _).
  destruct (Hundo ltac:(lia)) as (_ & Hh & Hp & _).
  split; [exact Hh | exact Hp].
Defined.

(** ** Stores whose subscribers are state setters *)


Lemma forEach_plain fuel name v rs : forall w,
  forallb is_plain rs = true ->
  forEach (fun f => log (EvNotify name (fst f) v) ;;; call_reloader (S fuel) (snd f) v) rs w
  = (Ret tt, add_events (notifications name rs v) (with_cells (plain_cells rs v) w)).
Proof.
  induction rs as [|[id r] rs IH]; intros w H; simpl in *.
  - unfold ret. rewrite add_events_nil. by destruct w.
  - apply andb_true_iff in H as [Hr Hrs]. unfold is_plain in Hr. simpl in Hr.
    destruct r as [cell| |]; try discriminate.
    unfold bind at 1. unfold bind at 1, log, modify. simpl.
    rewrite IH by done.
    f_equal. unfold add_events, with_trace, with_cells. simpl.
    by rewrite <- app_assoc.
Qed.

Lemma onStoreUpdate_hook_run name v w :
  onStoreUpdate_hook name v w = (Ret tt, hooked name v w).
Proof.
  unfold onStoreUpdate_hook, hooked, bind, gets, when, log, modify, ret. simpl.
  by destruct (onStoreUpdate (pulsyConfig w)).
Qed.

Lemma notify_plain fuel name v st w :
  stores w !! name = Some st ->
  forallb is_plain (reloaders st) = true ->
  notify (S fuel) name v w
  = (Ret tt, add_events (notifications name (reloaders st) v)
               (with_cells (plain_cells (reloaders st) v) w)).
Proof.
  intros Hst Hplain. unfold notify, notify_with.
  unfold bind at 1. unfold stores_get, gets. rewrite Hst.
  by apply forEach_plain.
Qed.

(** The three statements [store.value = v; store.reloaders.forEach(...);
    onStoreUpdate?.(name, v)] on a store whose subscribers are setters. *)
Lemma commit_notify_plain fuel name v st w :
  stores w !! name = Some st ->
  forallb is_plain (reloaders st) = true ->
  (set_value name v ;;; notify (S fuel) name v ;;; onStoreUpdate_hook name v) w
  = (Ret tt, committed name v (reloaders st) w).
Proof.
  intros Hst Hplain.
  unfold bind at 1.
  replace (set_value name v w)
    with (Ret tt, add_events [EvCommit name v] (with_stores (alter (assign v) name) w))
    by reflexivity.
  unfold bind at 1.
  rewrite (notify_plain fuel name v (assign v st)); [|by simpl; rewrite lookup_alter_eq, Hst|done].
  rewrite onStoreUpdate_hook_run. unfold committed. f_equal. f_equal.
  unfold add_events, with_trace, with_cells, with_stores. simpl.
  by rewrite <- app_assoc.
Qed.


Lemma hooked_frame name v w :
  stores (hooked name v w) = stores w /\
  local_items (hooked name v w) = local_items w /\
  session_items (hooked name v w) = session_items w /\
  next_id (hooked name v w) = next_id w /\
  exists evs, trace (hooked name v w) = (trace w ++ evs)%list /\ Forall reloader_event evs.
Proof.
  unfold hooked. destruct (onStoreUpdate (pulsyConfig w)); simpl; repeat split; auto.
  - exists [EvOnStoreUpdate name v]. split; [done | by constructor].
  - exists []. by rewrite app_nil_r.
Qed.

Lemma committed_stores name v rs w :
  stores (committed name v rs w) = alter (assign v) name (stores w).
Proof. unfold committed. by destruct (hooked_frame name v
         (add_events (EvCommit name v :: notifications name rs v)
            (with_cells (plain_cells rs v) (with_stores (alter (assign v) name) w))))
         as (-> & _). Qed.




Lemma createSetter_plain fuel name newValue w st candidate v :
  stores w !! name = Some st ->
  forallb is_plain (reloaders st) = true ->
  resolve newValue (value st) = Some candidate ->
  middleware_fold (middleware st) (value st) name candidate = Some v ->
  createSetter (S fuel) name newValue w =
  (Ret tt,
   let w2 := committed name v (reloaders st)
               (add_events (stage_events name 0 (middleware st) (value st) candidate) w) in
   if truthy (persist st) then snd (persistStore name v (setter_options st) w2) else w2).
Proof.
  intros Hst Hplain Hres Hfold.
  rewrite (createSetter_run _ _ _ _ _ _ Hst Hres), Hfold.
  unfold try_catch, after_commit.
  set (w0 := add_events (stage_events name 0 (middleware st) (value st) candidate) w).
  pose proof (commit_notify_plain fuel name v st w0 Hst Hplain) as Hc.
  unfold bind at 1 in Hc.
  replace (set_value name v w0)
    with (Ret tt, snd (set_value name v w0)) in Hc by reflexivity.
  unfold bind at 1. unfold bind at 1 in Hc.
  destruct (notify (S fuel) name v (snd (set_value name v w0))) as [[[]|msg|] w1];
    try discriminate.
  unfold bind at 1. rewrite Hc. unfold when, setter_options.
  destruct (truthy (persist st)); [|reflexivity].
  by rewrite persistStore_run.
Qed.




(** ** Computed stores *)

Lemma forEach_add_reloader f deps : forall w,
  forEach (fun depName => add_reloader depName f) deps w
  = (Ret tt, with_stores (subscribe_all f deps) w).
Proof.
  induction deps as [|d deps IH]; intros w; simpl.
  - unfold ret. by destruct w.
  - unfold bind, add_reloader, modify. simpl. rewrite IH. reflexivity.
Qed.


Lemma set_add_idem f l : set_add f (set_add f l) = set_add f l.
Proof.
  unfold set_add at 2. destruct (existsb (fun g => fst g =? fst f)%nat l) eqn:E.
  - unfold set_add. by rewrite E.
  - unfold set_add. rewrite existsb_app, E. simpl. by rewrite Nat.eqb_refl.
Qed.

Lemma subscribe_idem f st : subscribe f (subscribe f st) = subscribe f st.
Proof. unfold subscribe. simpl. by rewrite set_add_idem. Qed.

Lemma subscribe_all_lookup f deps : forall sts d,
  subscribe_all f deps sts !! d
  = if decide (d ∈ deps) then subscribe f <$> sts !! d else sts !! d.
Proof.
  induction deps as [|d0 deps IH]; intros sts d; simpl.
  - destruct (decide (d ∈ [])) as [H|H]; [by apply elem_of_nil in H | done].
  - unfold subscribe_all in *. simpl. rewrite IH.
    destruct (decide (d0 = d)) as [->|Hne].
    + rewrite lookup_alter_eq.
      destruct (decide (d ∈ deps)) as [H1|H1], (decide (d ∈ d :: deps)) as [H2|H2];
        try (exfalso; apply H2; by left).
      * destruct (sts !! d); simpl; [|done]. by rewrite subscribe_idem.
      * done.
    + rewrite lookup_alter_ne by done.
      destruct (decide (d ∈ deps)) as [H1|H1], (decide (d ∈ d0 :: deps)) as [H2|H2];
        try done.
      * exfalso. apply H2. by right.
      * apply elem_of_cons in H2 as [->|H2]; done.
Qed.















Lemma ids_below_check w :
  map_Forall (fun _ st => forallb (fun f => (fst f <? next_id w)%nat) (reloaders st) = true)
             (stores w) ->
  ids_below w.
Proof.
  intros H s st f Hs Hf. specialize (H s st Hs). simpl in H.
  rewrite forallb_forall in H. specialize (H f Hf). by apply Nat.ltb_lt in H.
Qed.




(** ** Composed stores *)








Lemma composeStores_run name storeMap w :
  truthy (persist_or PUndefined (config_persist (pulsyConfig w))) = false ->
  let composedValue := VObj (next_id w) (snapshot (stores w) storeMap []) in
  composeStores name storeMap w =
  (Ret {| composed_name := name; composed_map := storeMap;
          composed_value := composedValue |},
   with_stores
     (subscribe_all (S (next_id w), RComposed name storeMap composedValue)
        (map snd storeMap))
     (with_next_id S
        (snd (createStore name composedValue no_store_options (with_next_id S w))))).
Proof.
  intros Hp composedValue. unfold composeStores, bind, gets, fresh_id.
  cbn [stores next_id with_next_id].
  rewrite createStore_run_memory by done.
  rewrite forEach_add_reloader. cbn [snd]. unfold ret. f_equal.
  rewrite createStore_run_memory by done. cbn [snd]. subst composedValue.
  by destruct (onStoreCreate (pulsyConfig (with_next_id S w))).
Qed.






(** The refresh closure compares with the snapshot it captured, which is
    never replaced: a second assignment of 1 to [a] republishes the
    aggregate although [a] has not changed since the aggregate was last
    published, and the return of [a] to 0 does not republish it. *)
Lemma composed_refresh_compares_first_snapshot :
  let w1 := snd (setStoreValue 2 "a" (VNum 1) composed_world) in
  let w2 := snd (setStoreValue 2 "a" (VNum 1) w1) in
  let w3 := snd (setStoreValue 2 "a" (VNum 0) w2) in
  value <$> stores w1 !! "agg" = Some (VObj 3 [("x", VNum 1)]) /\
  new_events w1 w2 =
    [EvCommit "a" (VNum 1); EvNotify "a" 1 (VNum 1);
     EvCommit "agg" (VObj 4 [("x", VNum 1)]); EvNotify "agg" 2 (VObj 4 [("x", VNum 1)])] /\
  new_events w2 w3 = [EvCommit "a" (VNum 0); EvNotify "a" 1 (VNum 0)] /\
  value <$> stores w3 !! "agg" = Some (VObj 4 [("x", VNum 1)]).
Proof. vm_compute. repeat split; reflexivity. Qed.

(** * Further properties of the engine *)

(** * Further properties *)

(** ** The persistence adapter at its edges *)

Lemma run_deserialize_world d s w :
  let r := run_deserialize d s w in
  stores (snd r) = stores w /\ local_items (snd r) = local_items w /\
  session_items (snd r) = session_items w /\ trace (snd r) = trace w /\
  pulsyConfig (snd r) = pulsyConfig w /\ cells (snd r) = cells w /\ refs (snd r) = refs w /\
  fst r <> OutOfFuel.
Proof.
  unfold run_deserialize. destruct d as [f|].
  - destruct (f s); simpl; repeat split; auto; discriminate.
  - destruct (JSON_parse s) as [v|]; simpl; [|repeat split; auto; discriminate].
    destruct (fresh_refs v (next_id w)). simpl. repeat split; auto; discriminate.
Qed.

Lemma items_with_items s f b w k :
  items s (with_items b f w) !! k
  = if decide (s = b) then f (items b w) !! k else items s w !! k.
Proof. destruct s, b; reflexivity. Qed.

Lemma items_add_events s evs w : items s (add_events evs w) = items s w.
Proof. by destruct s. Qed.

Lemma items_with_next_id s f w : items s (with_next_id f w) = items s w.
Proof. by destruct s. Qed.

Lemma persistStore_world name v options w :
  let w' := snd (persistStore name v options w) in
  fst (persistStore name v options w) = Ret tt /\
  stores w' = stores w /\ pulsyConfig w' = pulsyConfig w /\
  cells w' = cells w /\ refs w' = refs w /\
  (forall s k, (s, k) <> (backend options, storage_key name) ->
     items s w' !! k = items s w !! k) /\
  match serialized (next_id w) v options with
  | Some str =>
      items (backend options) w' !! storage_key name = Some str /\
      trace w' = (trace w ++ [EvSetItem (backend options) (storage_key name) str])%list
  | None =>
      items (backend options) w' = items (backend options) w /\ trace w' = trace w
  end.
Proof.
  rewrite persistStore_run. cbn [fst snd].
  destruct (serialized (next_id w) v options) as [str|].
  - split; [done|]. split; [done|]. split; [done|]. split; [done|]. split; [done|].
    split; [|split; [|done]].
    + intros s k Hne. rewrite items_add_events, items_with_items. case_decide; [|by rewrite items_with_next_id].
      subst s. rewrite lookup_insert_ne; [done|]. congruence.
    + rewrite items_add_events, items_with_items. case_decide; [|done].
      by rewrite lookup_insert_eq.
  - repeat split; auto.
Qed.

Lemma retrieval_same name options w w0 :
  stores w0 = stores w -> pulsyConfig w0 = pulsyConfig w ->
  cells w0 = cells w -> refs w0 = refs w ->
  local_items w0 = local_items w -> session_items w0 = session_items w ->
  trace w0 = trace w -> retrieval name options w w0.
Proof.
  intros H1 H2 H3 H4 H5 H6 H7. constructor; auto.
  - intros s k _. destruct s; simpl; congruence.
  - exists []. split; [by rewrite app_nil_r | constructor].
Qed.

Lemma retrieved_frame name options parsed w1 :
  exists v w',
    retrieved name options parsed w1 = (Ret v, w') /\ retrieval name options w1 w'.
Proof.
  unfold retrieved.
  destruct (migrate options) as [migrate_|];
    [|eexists _, _; split; [reflexivity|by apply retrieval_same]].
  destruct (negb _ && _);
    [|eexists _, _; split; [reflexivity|by apply retrieval_same]].
  set (v := get_field "value" parsed). set (sv := get_field "version" parsed).
  destruct (migrate_ v sv) as [migrated|].
  - set (o := with_version options (default 1 (version options))).
    set (w0 := add_events [EvMigrate v sv] w1).
    destruct (persistStore_world name migrated o w0) as (P0 & P1 & P2 & P3 & P4 & P5 & P6).
    eexists _, _. split; [reflexivity|].
    constructor; cbn [snd].
    + by rewrite P1.
    + by rewrite P2.
    + by rewrite P3.
    + by rewrite P4.
    + intros s k Hne. rewrite (P5 s k Hne). by destruct s.
    + destruct (serialized (next_id w0) migrated o) as [str|]; destruct P6 as [_ P6];
        rewrite P6; subst w0; cbn [trace add_events with_trace].
      * exists [EvMigrate v sv; EvSetItem (backend o) (storage_key name) str].
        split; [by rewrite <- app_assoc|]. repeat constructor.
      * exists [EvMigrate v sv]. split; [done|]. repeat constructor.
  - eexists _, _. split; [reflexivity|].
    constructor; [reflexivity|reflexivity|reflexivity|reflexivity| |].
    + intros s k _. by destruct s.
    + exists [EvMigrate v sv]. split; [done|]. repeat constructor.
Qed.

(** [retrievePersistedStore] always returns, and changes at most the entry
    it reads. *)
Lemma retrievePersistedStore_frame name options w :
  exists v w',
    retrievePersistedStore name options w = (Ret v, w') /\ retrieval name options w w'.
Proof.
  destruct (items (backend options) w !! storage_key name) as [s|] eqn:Hitem; cycle 1.
  { eexists _, _. split; [|by apply retrieval_same].
    unfold retrievePersistedStore, try_catch, bind, getItem, gets.
    fold (backend options). by rewrite Hitem. }
  destruct (String.eqb s EmptyString) eqn:Hs.
  { eexists _, _. split; [|by apply retrieval_same].
    unfold retrievePersistedStore, try_catch, bind, getItem, gets.
    fold (backend options). by rewrite Hitem, Hs. }
  destruct (run_deserialize_world (deserialize options) s w)
    as (D1 & D2 & D3 & D4 & D5 & D6 & D7 & D8).
  destruct (run_deserialize (deserialize options) s w) as [[parsed|msg|] w1] eqn:Hd;
    cbn [fst snd] in *; [| |done]; cycle 1.
  { eexists _, _. split; [|by apply retrieval_same].
    unfold retrievePersistedStore, try_catch, bind, getItem, gets.
    fold (backend options). rewrite Hitem, Hs. cbn [negb]. cbv beta iota.
    by rewrite Hd. }
  assert (Hnull : parsed = VUndefined \/ parsed = VNull -> exists v w',
            retrievePersistedStore name options w = (Ret v, w') /\
            retrieval name options w w').
  { intros Hp. exists VUndefined, w1. split; [|by apply retrieval_same].
    unfold retrievePersistedStore, try_catch, bind, getItem, gets.
    fold (backend options). rewrite Hitem, Hs. cbn [negb]. cbv beta iota.
    rewrite Hd. by destruct Hp as [-> | ->]. }
  assert (Hp : (parsed = VUndefined \/ parsed = VNull) \/ is_object_like parsed).
  { unfold is_object_like. destruct parsed; auto; right; split; discriminate. }
  destruct Hp as [Hp|Hp]; [by apply Hnull|].
  rewrite (retrievePersistedStore_run name options w s parsed w1 Hitem); try done; cycle 1.
  { by apply String.eqb_neq. }
  destruct (retrieved_frame name options parsed w1) as (v & w' & E & R).
  exists v, w'. split; [done|]. destruct R as [R1 R2 R3 R4 R5 (evs & R6 & R7)].
  constructor; try congruence.
  - intros s0 k Hne. rewrite (R5 s0 k Hne). destruct s0; simpl; congruence.
  - exists evs. split; [congruence|done].
Qed.
Lemma retrievePersistedStore_unusable name options w :
  unusable_entry name options w ->
  retrievePersistedStore name options w = (Ret VUndefined, snd (retrievePersistedStore name options w)) /\
  let w' := snd (retrievePersistedStore name options w) in
  stores w' = stores w /\ local_items w' = local_items w /\
  session_items w' = session_items w /\ trace w' = trace w /\ next_id w' = next_id w.
Proof.
  unfold unusable_entry. intros H.
  assert (Hgoal : forall w0,
            retrievePersistedStore name options w = (Ret VUndefined, w0) ->
            stores w0 = stores w -> local_items w0 = local_items w ->
            session_items w0 = session_items w -> trace w0 = trace w ->
            next_id w0 = next_id w ->
            retrievePersistedStore name options w
            = (Ret VUndefined, snd (retrievePersistedStore name options w)) /\
            let w' := snd (retrievePersistedStore name options w) in
            stores w' = stores w /\ local_items w' = local_items w /\
            session_items w' = session_items w /\ trace w' = trace w /\
            next_id w' = next_id w).
  { intros w0 E. rewrite E. cbn [snd]. intros. repeat split; auto. }
  destruct (items (backend options) w !! storage_key name) as [s|] eqn:Hitem; cycle 1.
  { apply (Hgoal w); auto.
    unfold retrievePersistedStore, try_catch, bind, getItem, gets.
    fold (backend options). by rewrite Hitem. }
  destruct (String.eqb s EmptyString) eqn:Hs.
  { apply (Hgoal w); auto.
    unfold retrievePersistedStore, try_catch, bind, getItem, gets.
    fold (backend options). by rewrite Hitem, Hs. }
  destruct H as [->|H]; [done|].
  assert (Hrun : forall r w1,
            run_deserialize (deserialize options) s w = (r, w1) ->
            match r with
            | Ret parsed => parsed = VUndefined \/ parsed = VNull
            | _ => True
            end ->
            retrievePersistedStore name options w = (Ret VUndefined, w1)).
  { intros r w1 Hd Hr.
    unfold retrievePersistedStore, try_catch, bind, getItem, gets.
    fold (backend options). rewrite Hitem, Hs. cbn [negb]. cbv beta iota. rewrite Hd.
    destruct r as [parsed|msg|]; [|done|].
    - by destruct Hr as [-> | ->].
    - exfalso. by destruct (run_deserialize_world (deserialize options) s w)
        as (_ & _ & _ & _ & _ & _ & _ & D); rewrite Hd in D. }
  destruct (run_deserialize (deserialize options) s w) as [r w1] eqn:Hd.
  cbn [fst] in H.
  destruct (run_deserialize_world (deserialize options) s w)
    as (D1 & D2 & D3 & D4 & _). rewrite Hd in *. cbn [snd] in *.
  apply (Hgoal w1); auto; [by apply (Hrun r w1)|].
  unfold run_deserialize in Hd. destruct (deserialize options) as [f|].
  - destruct (f s); injection Hd as <- <-; done.
  - destruct (JSON_parse s) as [v|]; [|by injection Hd as <- <-].
    destruct (fresh_refs v (next_id w)) as [v' n] eqn:E. injection Hd as <- <-.
    cbn [next_id with_next_id].
    destruct v; simpl in E; try (by injection E as <- <-).
    destruct ((fix go (l0 : list (string * Value)) (n0 : nat) {struct l0} := _) fields _).
    injection E as <- <-. by destruct H.
Qed.

(** ** Retrieval of an entry that cannot be used *)



(** ** Creation with persistence *)

Lemma createStore_run_persist name initialValue options w persisted w1 :
  truthy (persist_or (opt_persist options) (config_persist (pulsyConfig w))) = true ->
  retrievePersistedStore name (persistOptions_of (opt_persist options)) w
  = (Ret persisted, w1) ->
  createStore name initialValue options w =
  (Ret tt,
   let value_ := if strict_neq persisted VUndefined then persisted else initialValue in
   snd (persistStore name value_ (persistOptions_of (opt_persist options))
          (installed name value_ options (pulsyConfig w) w1))).
Proof.
  intros Hp Hr. unfold createStore. unfold bind at 1. unfold gets. cbv beta iota.
  rewrite Hp. unfold bind at 1. unfold bind at 1.
  fold (persistOptions_of (opt_persist options)). rewrite Hr. cbv beta iota. unfold ret at 1.
  cbv beta iota.
  set (value_ := if strict_neq persisted VUndefined then persisted else initialValue).
  unfold bind at 1. unfold stores_set, modify. cbv beta iota.
  unfold bind at 1. unfold when at 1.
  assert (E : forall w0,
            (if onStoreCreate (pulsyConfig w) then log (EvOnStoreCreate name value_)
             else ret tt) w0
            = (Ret tt, (if onStoreCreate (pulsyConfig w)
                        then add_events [EvOnStoreCreate name value_] else id) w0)).
  { intros w0. by destruct (onStoreCreate (pulsyConfig w)). }
  rewrite E. cbv beta iota. unfold when.
  destruct (persistStore_world name value_ (persistOptions_of (opt_persist options))
              (installed name value_ options (pulsyConfig w) w1)) as (P0 & _).
  unfold installed, created in *.
  destruct (persistStore name value_ _ _) as [r w2]. cbn [fst snd] in *. by subst r.
Qed.

(** [createStore] always returns. *)
Lemma createStore_returns name initialValue options w :
  fst (createStore name initialValue options w) = Ret tt.
Proof.
  destruct (truthy (persist_or (opt_persist options) (config_persist (pulsyConfig w))))
    eqn:Hp.
  - destruct (retrievePersistedStore_frame name (persistOptions_of (opt_persist options)) w)
      as (v & w1 & E & _).
    by rewrite (createStore_run_persist _ _ _ _ _ _ Hp E).
  - by rewrite createStore_run_memory.
Qed.
Lemma installed_frame name v options config w :
  stores (installed name v options config w) = <[name := created v options config]> (stores w) /\
  next_id (installed name v options config w) = next_id w /\
  (forall s, items s (installed name v options config w) = items s w) /\
  pulsyConfig (installed name v options config w) = pulsyConfig w /\
  cells (installed name v options config w) = cells w.
Proof. unfold installed. destruct (onStoreCreate config); repeat split; by intros []. Qed.

Lemma createStore_unusable_entry name initialValue options w :
  truthy (persist_or (opt_persist options) (config_persist (pulsyConfig w))) = true ->
  unusable_entry name (persistOptions_of (opt_persist options)) w ->
  let popts := persistOptions_of (opt_persist options) in
  let w' := snd (createStore name initialValue options w) in
  fst (createStore name initialValue options w) = Ret tt /\
  stores w' !! name = Some (created initialValue options (pulsyConfig w)) /\
  (forall n, n <> name -> stores w' !! n = stores w !! n) /\
  match serialized (next_id w) initialValue popts with
  | Some str => items (backend popts) w' !! storage_key name = Some str
  | None => items (backend popts) w' = items (backend popts) w
  end /\
  (forall s k, (s, k) <> (backend popts, storage_key name) ->
     items s w' !! k = items s w !! k).
Proof.
  intros Hp Hu popts w'. subst w'.
  destruct (retrievePersistedStore_unusable name popts w Hu)
    as (E & R1 & R2 & R3 & R4 & R5). cbv zeta in *.
  set (w1 := snd (retrievePersistedStore name popts w)) in *.
  set (wi := installed name initialValue options (pulsyConfig w) w1).
  assert (Ecreate : createStore name initialValue options w
                    = (Ret tt, snd (persistStore name initialValue popts wi))).
  { by rewrite (createStore_run_persist _ _ _ _ _ _ Hp E). }
  rewrite Ecreate. cbn [fst snd].
  destruct (installed_frame name initialValue options (pulsyConfig w) w1)
    as (I1 & I2 & I3 & _).
  destruct (persistStore_world name initialValue popts wi) as (_ & P1 & _ & _ & _ & P5 & P6).
  fold wi in I1, I2, I3. cbv zeta in *.
  assert (Hitems : forall s, items s w1 = items s w) by (by intros []).
  split; [done|]. split; [|split; [|split]].
  - by rewrite P1, I1, lookup_insert_eq.
  - intros n Hn. by rewrite P1, I1, lookup_insert_ne, R1.
  - rewrite I2, R5 in P6. destruct (serialized (next_id w) initialValue popts) as [str|].
    + by destruct P6.
    + destruct P6 as [P6 _]. by rewrite P6, I3, Hitems.
  - intros s k Hne. by rewrite (P5 s k Hne), I3, Hitems.
Qed.



(** [options.persist] is combined with the global flag by [||]: a store
    created with [persist: false] under a global [persist: true] is
    persisted all the same, with the default options. [options.memoize] is
    combined by [??], so that a [memoize] given in the options, also
    [false], is the one of the store. *)
Theorem persist_false_does_not_opt_out name initialValue options w :
  opt_persist options = PBool false ->
  config_persist (pulsyConfig w) = Some true ->
  let w' := snd (createStore name initialValue options w) in
  exists st,
    stores w' !! name = Some st /\
    persist st = PBool true /\
    local_items w' !! storage_key name
    = Some (to_item (JSON_stringify (VObj 0 [("value", value st); ("version", VNum 1)]))) /\
    (forall b, opt_memoize options = Some b -> memoize st = b).
Proof.
  intros Ho Hc w'. subst w'.
  assert (Hp : truthy (persist_or (opt_persist options) (config_persist (pulsyConfig w)))
               = true) by (by rewrite Ho, Hc).
  destruct (retrievePersistedStore_frame name (persistOptions_of (opt_persist options)) w)
    as (v & w1 & E & R).
  set (value_ := if strict_neq v VUndefined then v else initialValue).
  assert (Ecreate : createStore name initialValue options w
                    = (Ret tt, snd (persistStore name value_
                                      (persistOptions_of (opt_persist options))
                                      (installed name value_ options (pulsyConfig w) w1)))).
  { by rewrite (createStore_run_persist _ _ _ _ _ _ Hp E). }
  rewrite Ecreate. cbn [snd].
  destruct (installed_frame name value_ options (pulsyConfig w) w1) as (I1 & _).
  destruct (persistStore_world name value_ (persistOptions_of (opt_persist options))
              (installed name value_ options (pulsyConfig w) w1))
    as (_ & P1 & _ & _ & _ & _ & P6).
  cbv zeta in *. rewrite Ho in *. cbn [persistOptions_of] in *.
  exists (created value_ options (pulsyConfig w)).
  split; [by rewrite P1, I1, lookup_insert_eq|].
  split; [by unfold created; rewrite Ho, Hc|].
  split.
  - unfold serialized, envelope in P6. cbn in P6. by destruct P6 as [P6 _].
  - intros b Hb. unfold created. cbn. by rewrite Hb.
Qed.

Lemma persist_false_does_not_opt_out_witness :
  let w' := snd (createStore "counter" (VNum 0) opted_out global_persist_world) in
  persist <$> stores w' !! "counter" = Some (PBool true) /\
  memoize <$> stores w' !! "counter" = Some false /\
  local_items w' !! storage_key "counter"
  = JSON_stringify (VObj 0 [("value", VNum 0); ("version", VNum 1)]).
Proof.
  cbv zeta.
  destruct (persist_false_does_not_opt_out "counter" (VNum 0) opted_out global_persist_world
              eq_refl eq_refl) as (st & Hst & Hp & Hitem & Hm).
  assert (Hv : value <$> stores (snd (createStore "counter" (VNum 0) opted_out
                                        global_persist_world)) !! "counter"
               = Some (VNum 0)) by reflexivity.
  rewrite Hst in *. cbn [fmap option_fmap option_map] in *. injection Hv as Hv.
  rewrite Hp, (Hm false eq_refl), Hitem, Hv.
  split; [done|]. split; [done|]. reflexivity.
Defined.

(** ** What the setter writes to the storages *)

Lemma after_commit_run fuel name st v w :
  snd (try_catch (after_commit fuel name st v) (ret tt) w) =
  let wn := snd (notify fuel name v w) in
  match fst (notify fuel name v w) with
  | Ret _ =>
      if truthy (persist st)
      then snd (persistStore name v (setter_options st) (hooked name v wn))
      else hooked name v wn
  | _ => wn
  end.
Proof.
  unfold try_catch, after_commit. unfold bind at 1.
  destruct (notify fuel name v w) as [[[]|msg|] wn]; cbn [fst snd]; [|done|done].
  unfold bind at 1. rewrite onStoreUpdate_hook_run. unfold when, setter_options.
  destruct (truthy (persist st)); [|done].
  by destruct (persistStore name v _ (hooked name v wn)) as [[[]|?|] ?].
Qed.

Lemma after_commit_returns fuel name st v w :
  fst (notify fuel name v w) <> OutOfFuel ->
  fst (try_catch (after_commit fuel name st v) (ret tt) w) = Ret tt.
Proof.
  intros Hn. unfold try_catch, after_commit. unfold bind at 1.
  destruct (notify fuel name v w) as [[[]|msg|] wn]; cbn [fst snd] in *; [|done|done].
  unfold bind at 1. rewrite onStoreUpdate_hook_run. unfold when.
  destruct (truthy (persist st)); [|done].
  match goal with |- context [persistStore name v ?o ?w0] =>
    destruct (persistStore_world name v o w0) as (P0 & _);
    destruct (persistStore name v o w0) as [r w2]
  end. cbn [fst] in P0. by subst r.
Qed.

Lemma stage_events_no_setItem name chain prev : forall stage x,
  Forall (fun e => ~ is_setItem e) (stage_events name stage chain prev x).
Proof.
  induction chain as [|m chain IH]; intros stage x; [constructor|]. simpl.
  constructor; [by intros []|]. destruct (m x prev name); [apply IH|constructor].
Qed.

Lemma not_setItem_In (evs : list Event) b k d :
  Forall (fun e => ~ is_setItem e) evs -> ~ In (EvSetItem b k d) evs.
Proof.
  intros F Hin. rewrite Forall_forall in F.
  apply list_elem_of_In in Hin. by apply (F _ Hin).
Qed.

Lemma createSetter_storage fuel name newValue w st :
  stores w !! name = Some st ->
  let o := setter_options st in
  let w' := snd (createSetter fuel name newValue w) in
  (forall s k,
     truthy (persist st) = false \/ (s, k) <> (backend o, storage_key name) ->
     items s w' !! k = items s w !! k) /\
  (forall b k d, In (EvSetItem b k d) (new_events w w') ->
     truthy (persist st) = true /\ b = backend o /\ k = storage_key name /\
     items b w' !! k = Some d) /\
  (forall candidate v,
     truthy (persist st) = true ->
     resolve newValue (value st) = Some candidate ->
     middleware_fold (middleware st) (value st) name candidate = Some v ->
     subscribers_return fuel name st candidate v w ->
     exists ref,
       match serialized ref v o with
       | Some str => items (backend o) w' !! storage_key name = Some str
       | None => items (backend o) w' !! storage_key name
                 = items (backend o) w !! storage_key name
       end).
Proof.
  intros Hst o w'. subst o w'.
  destruct (resolve newValue (value st)) as [candidate|] eqn:Hres; cycle 1.
  { destruct newValue as [x|f]; [by cbn in Hres|]. cbn in Hres.
    rewrite (createSetter_updater_throws _ _ _ _ _ Hst Hres). cbn [snd].
    split; [by intros|]. split; [|intros ? ? _ Hr; cbn in Hr; congruence].
    intros b k d Hin. unfold new_events in Hin. by rewrite drop_all in Hin. }
  rewrite (createSetter_run _ _ _ _ _ _ Hst Hres).
  set (calls := stage_events name 0 (middleware st) (value st) candidate).
  destruct (middleware_fold (middleware st) (value st) name candidate) as [v|] eqn:Hfold;
    cycle 1.
  { cbn [snd]. split; [by intros [] ? ?|].
    split; [|intros ? ? _ [= <-] Hf; congruence].
    intros b k d Hin. rewrite new_events_add in Hin. subst calls.
    exfalso. revert Hin. apply not_setItem_In, stage_events_no_setItem. }
  set (wc := snd (set_value name v (add_events calls w))).
  assert (Hcalls : Forall (fun e => ~ is_setItem e) (calls ++ [EvCommit name v])).
  { apply Forall_app. split; [|by constructor; [intros []|constructor]].
    apply stage_events_no_setItem. }
  assert (Htc : trace wc = (trace w ++ calls ++ [EvCommit name v])%list).
  { subst wc. simpl. by rewrite <- app_assoc. }
  assert (Hic : forall s, items s wc = items s w) by (by intros []).
  rewrite after_commit_run. cbv zeta. set (o := setter_options st).
  pose proof (notify_cascade (fun _ => False) fuel name v wc (untargeted_nothing wc)) as C.
  set (wn := snd (notify fuel name v wc)) in *.
  destruct C as [C1 C2 _ _ (e1 & E1 & F1) _ _].
  assert (Hin1 : forall s, items s wn = items s w).
  { intros s. rewrite <- Hic. by destruct s. }
  assert (F1' : Forall (fun e => ~ is_setItem e) e1).
  { eapply Forall_impl; [exact F1|]. intros [] Hr Hs; (exact Hs || exact Hr). }
  destruct (hooked_frame name v wn) as (_ & H2 & H3 & H4 & e2 & E2 & F2).
  assert (Hih : forall s, items s (hooked name v wn) = items s w).
  { intros s. rewrite <- Hin1. by destruct s. }
  assert (F2' : Forall (fun e => ~ is_setItem e) e2).
  { eapply Forall_impl; [exact F2|]. intros [] Hr Hs; (exact Hs || exact Hr). }
  destruct (persistStore_world name v o (hooked name v wn))
    as (_ & _ & _ & _ & _ & P5 & P6).
  cbv zeta in *.
  split; [|split].
  - intros s k Hk.
    destruct (fst (notify fuel name v wc)) as [[]|msg|]; [|by rewrite Hin1|by rewrite Hin1].
    destruct (truthy (persist st)) eqn:Hp; [|by rewrite Hih].
    destruct Hk as [Hk|Hk]; [done|]. by rewrite (P5 s k Hk), Hih.
  - intros b k d Hin.
    assert (Hpre : ~ In (EvSetItem b k d) ((calls ++ [EvCommit name v]) ++ e1 ++ e2)).
    { apply not_setItem_In. apply Forall_app. split; [done|]. by apply Forall_app. }
    destruct (fst (notify fuel name v wc)) as [[]|msg|].
    + destruct (truthy (persist st)) eqn:Hp.
      * destruct (serialized (next_id (hooked name v wn)) v o) as [str|];
          destruct P6 as [P6 P7].
        -- rewrite (new_events_app w _
                      (((calls ++ [EvCommit name v]) ++ e1 ++ e2)
                       ++ [EvSetItem (backend o) (storage_key name) str])) in Hin
             by (by rewrite P7, E2, E1, Htc, <- !app_assoc).
           apply in_app_or in Hin as [Hin|[Hin|[]]]; [done|].
           injection Hin as <- <- <-. done.
        -- rewrite (new_events_app w _ ((calls ++ [EvCommit name v]) ++ e1 ++ e2)) in Hin
             by (by rewrite P7, E2, E1, Htc, <- !app_assoc).
           done.
      * rewrite (new_events_app w _ ((calls ++ [EvCommit name v]) ++ e1 ++ e2)) in Hin
          by (by rewrite E2, E1, Htc, <- !app_assoc).
        done.
    + rewrite (new_events_app w _ ((calls ++ [EvCommit name v]) ++ e1)) in Hin
        by (by rewrite E1, Htc, <- !app_assoc).
      exfalso. apply Hpre. apply in_app_or in Hin as [Hin|Hin]; apply in_or_app; auto.
      right. apply in_or_app. auto.
    + rewrite (new_events_app w _ ((calls ++ [EvCommit name v]) ++ e1)) in Hin
        by (by rewrite E1, Htc, <- !app_assoc).
      exfalso. apply Hpre. apply in_app_or in Hin as [Hin|Hin]; apply in_or_app; auto.
      right. apply in_or_app. auto.
  - intros candidate' v' Hp Hc Hf Hret. injection Hc as <-.
    rewrite Hfold in Hf. injection Hf as <-. unfold subscribers_return in Hret.
    fold calls in Hret. fold wc in Hret. rewrite Hret, Hp.
    exists (next_id (hooked name v wn)).
    destruct (serialized (next_id (hooked name v wn)) v o) as [str|]; destruct P6 as [P6 _].
    + done.
    + by rewrite P6, Hih.
Qed.



(** ** Configuration *)

Lemma configurePulsy_run u w :
  configurePulsy u w = (Ret tt, with_config (fun c => spread c u) w).
Proof. reflexivity. Qed.

Lemma spread_spread c u1 u2 : spread (spread c u1) u2 = spread c (spread_update u1 u2).
Proof.
  unfold spread, spread_update. cbn.
  destruct (upd_onStoreCreate u2), (upd_onStoreUpdate u2), (upd_persist u2),
    (upd_defaultMemoize u2); reflexivity.
Qed.

(** ** Creation, whatever the persistence *)

Lemma createStore_registry name initialValue options w :
  exists value_,
    let w' := snd (createStore name initialValue options w) in
    createStore name initialValue options w = (Ret tt, w') /\
    stores w' = <[name := created value_ options (pulsyConfig w)]> (stores w) /\
    pulsyConfig w' = pulsyConfig w /\ cells w' = cells w /\
    (truthy (persist_or (opt_persist options) (config_persist (pulsyConfig w))) = false ->
     value_ = initialValue /\ forall s, items s w' = items s w).
Proof.
  destruct (truthy (persist_or (opt_persist options) (config_persist (pulsyConfig w))))
    eqn:Hp.
  - destruct (retrievePersistedStore_frame name (persistOptions_of (opt_persist options)) w)
      as (v & w1 & E & R).
    set (value_ := if strict_neq v VUndefined then v else initialValue).
    exists value_.
    assert (Ecreate : createStore name initialValue options w
              = (Ret tt, snd (persistStore name value_
                                (persistOptions_of (opt_persist options))
                                (installed name value_ options (pulsyConfig w) w1)))).
    { by rewrite (createStore_run_persist _ _ _ _ _ _ Hp E). }
    rewrite Ecreate. cbn [snd]. cbv zeta.
    destruct (installed_frame name value_ options (pulsyConfig w) w1) as (I1 & _ & _ & I4 & I5).
    destruct (persistStore_world name value_ (persistOptions_of (opt_persist options))
                (installed name value_ options (pulsyConfig w) w1))
      as (_ & P1 & P2 & P3 & _).
    cbv zeta in *. destruct R as [R1 R2 R3 _ _ _].
    split; [done|]. split; [by rewrite P1, I1, R1|].
    split; [by rewrite P2, I4, R2|]. split; [by rewrite P3, I5, R3|done].
  - exists initialValue. rewrite createStore_run_memory by done. cbn [snd]. cbv zeta.
    split; [done|].
    destruct (onStoreCreate (pulsyConfig w)); repeat split; by intros [].
Qed.
(** [configurePulsy] changes the configuration only. A key of the argument
    replaces the setting, also by [undefined]; a key that is absent keeps
    it: two calls amount to one call with the second argument spread over
    the first, and a repeated call changes nothing more. *)
Theorem configurePulsy_spreads u1 u2 w :
  let w1 := snd (configurePulsy u1 w) in
  fst (configurePulsy u1 w) = Ret tt /\
  stores w1 = stores w /\ local_items w1 = local_items w /\
  session_items w1 = session_items w /\ cells w1 = cells w /\ trace w1 = trace w /\
  (forall persist_, upd_persist u1 = Some persist_ ->
     config_persist (pulsyConfig w1) = persist_) /\
  (upd_persist u1 = None -> config_persist (pulsyConfig w1) = config_persist (pulsyConfig w)) /\
  (configurePulsy u1 ;;; configurePulsy u2) w = configurePulsy (spread_update u1 u2) w /\
  (configurePulsy u1 ;;; configurePulsy u1) w = configurePulsy u1 w.
Proof.
  cbv zeta. rewrite !configurePulsy_run. cbn [fst snd].
  repeat split; try reflexivity.
  - intros p Hp. cbn. by rewrite Hp.
  - intros Hp. cbn. by rewrite Hp.
  - unfold bind. rewrite !configurePulsy_run. f_equal.
    unfold with_config. cbn. by rewrite spread_spread.
  - unfold bind. rewrite !configurePulsy_run. f_equal.
    unfold with_config. cbn. rewrite spread_spread. f_equal. f_equal.
    unfold spread_update. destruct u1 as [a b c d]. cbn.
    by destruct a, b, c, d.
Qed.

(** The persistence of a store is settled when the store is created. After
    [configurePulsy({ persist: true })], the setter of a store that was
    created without persistence still writes nothing to the storages, while
    a store created from then on is persisted. *)
Theorem persistence_is_fixed_at_creation u name st w :
  stores w !! name = Some st ->
  truthy (persist st) = false ->
  upd_persist u = Some (Some true) ->
  let w1 := snd (configurePulsy u w) in
  (forall fuel newValue s, items s (snd (createSetter fuel name newValue w1)) = items s w) /\
  (forall name' initialValue,
     exists st',
       stores (snd (createStore name' initialValue no_store_options w1)) !! name' = Some st' /\
       persist st' = PBool true).
Proof.
  intros Hst Hp Hu w1. subst w1. rewrite configurePulsy_run. cbn [snd]. split.
  - intros fuel newValue s.
    destruct (createSetter_storage fuel name newValue
                (with_config (fun c => spread c u) w) st Hst) as (Hframe & _).
    apply map_eq. intros k. rewrite (Hframe s k (or_introl Hp)). by destruct s.
  - intros name' initialValue.
    destruct (createStore_registry name' initialValue no_store_options
                (with_config (fun c => spread c u) w)) as (value_ & _ & Hs & _).
    cbv zeta in Hs. eexists. rewrite Hs, lookup_insert_eq. split; [reflexivity|].
    unfold created. cbn. by rewrite Hu.
Qed.

Lemma persistence_is_fixed_at_creation_witness :
  let w1 := snd (configurePulsy persist_on shop) in
  local_items (snd (createSetter 1 "quantity" (Literal (VNum 3)) w1)) = ∅ /\
  persist <$> stores (snd (createStore "discount" (VNum 5) no_store_options w1)) !! "discount"
  = Some (PBool true).
Proof.
  cbv zeta.
  destruct (persistence_is_fixed_at_creation persist_on "quantity"
              {| value := VNum 2; reloaders := []; middleware := []; memoize := false;
                 persist := PUndefined |} shop eq_refl eq_refl eq_refl) as (Hset & Hnew).
  split.
  - exact (Hset 1%nat (Literal (VNum 3)) localStorage).
  - destruct (Hnew "discount" (VNum 5)) as (st' & Hs & Hp). rewrite Hs. cbn. by rewrite Hp.
Defined.

(** ** Bulk initialisation *)




(** ** Clearing the storages *)

Lemma with_items_id s w : with_items s (fun m => m) w = w.
Proof. by destruct w, s. Qed.

Lemma with_items_compose s f g w :
  with_items s g (with_items s f w) = with_items s (fun m => g (f m)) w.
Proof. by destruct s. Qed.

Lemma clear_loop s keys : forall w,
  forEach (fun key => when (String.prefix "pulsy_" key) (removeItem s key)) keys w
  = (Ret tt, with_items s (cleared keys) w).
Proof.
  induction keys as [|key keys IH]; intros w; cbn [forEach].
  - unfold ret, cleared. cbn. by rewrite with_items_id.
  - unfold bind. unfold when at 1.
    destruct (String.prefix "pulsy_" key) eqn:Hp.
    + unfold removeItem, modify. rewrite IH, with_items_compose. f_equal.
      unfold cleared. cbn. by rewrite Hp.
    + unfold ret at 1. rewrite IH. f_equal. unfold cleared. cbn. by rewrite Hp.
Qed.

Lemma cleared_lookup keys : forall (m : gmap string string) k,
  cleared keys m !! k
  = if decide (k ∈ keys /\ String.prefix "pulsy_" k = true) then None else m !! k.
Proof.
  induction keys as [|key keys IH]; intros m k.
  - cbn. case_decide as H; [|done]. destruct H as [H _]. by apply elem_of_nil in H.
  - change (cleared (key :: keys) m)
      with (cleared keys (if String.prefix "pulsy_" key then delete key m else m)).
    rewrite IH. case_decide as H1; case_decide as H2; try done.
    + exfalso. apply H2. destruct H1 as [H1 Hp]. split; [by right|done].
    + destruct H2 as [H2 Hp]. apply elem_of_cons in H2 as [->|H2]; [|tauto].
      rewrite Hp. by rewrite lookup_delete_eq.
    + destruct (String.prefix "pulsy_" key) eqn:Hp; [|done].
      rewrite lookup_delete_ne; [done|]. intros ->. apply H2. split; [by left|done].
Qed.

Lemma prefix_storage_key name : String.prefix "pulsy_" (storage_key name) = true.
Proof. unfold storage_key. cbn. by destruct name. Qed.

Lemma clearPersistedStores_run storageType w :
  clearPersistedStores storageType w =
  (Ret tt,
   with_items (default localStorage storageType)
     (cleared (map fst (map_to_list (items (default localStorage storageType) w)))) w).
Proof. unfold clearPersistedStores, bind, storage_keys, gets. apply clear_loop. Qed.

Lemma clearPersistedStores_lookup storageType w k :
  let s := default localStorage storageType in
  items s (snd (clearPersistedStores storageType w)) !! k
  = if String.prefix "pulsy_" k then None else items s w !! k.
Proof.
  cbv zeta. rewrite clearPersistedStores_run. cbn [snd].
  set (s := default localStorage storageType).
  rewrite items_with_items. rewrite decide_True by done.
  rewrite cleared_lookup. case_decide as H.
  - destruct H as [_ ->]. done.
  - destruct (String.prefix "pulsy_" k) eqn:Hp; [|done].
    destruct (items s w !! k) as [x|] eqn:Hk; [|done].
    exfalso. apply H. split; [|done].
    apply list_elem_of_fmap. exists (k, x). split; [done|].
    by apply elem_of_map_to_list.
Qed.

Lemma clearPersistedStores_frame storageType w :
  let s := default localStorage storageType in
  let w' := snd (clearPersistedStores storageType w) in
  fst (clearPersistedStores storageType w) = Ret tt /\
  (forall k, items s w' !! k = if String.prefix "pulsy_" k then None else items s w !! k) /\
  (forall name, items s w' !! storage_key name = None) /\
  (forall s', s' <> s -> items s' w' = items s' w) /\
  stores w' = stores w /\ pulsyConfig w' = pulsyConfig w /\ trace w' = trace w.
Proof.
  cbv zeta. split; [by rewrite clearPersistedStores_run|].
  split; [apply clearPersistedStores_lookup|].
  split; [intros name; by rewrite clearPersistedStores_lookup, prefix_storage_key|].
  rewrite clearPersistedStores_run. cbn [snd].
  split; [|done]. intros s' Hs.
  destruct s', (default localStorage storageType); done.
Qed.

(** [clearPersistedStores] removes from the storage it is given (the local
    one by default) exactly the entries whose key starts with the prefix of
    the engine, and nothing else: the other entries, the other storage and
    the registry are as before. *)
Theorem clearPersistedStores_removes_prefixed storageType w :
  let s := default localStorage storageType in
  let w' := snd (clearPersistedStores storageType w) in
  fst (clearPersistedStores storageType w) = Ret tt /\
  (forall k, items s w' !! k = if String.prefix "pulsy_" k then None else items s w !! k) /\
  (forall name, items s w' !! storage_key name = None) /\
  (forall s', s' <> s -> items s' w' = items s' w) /\
  stores w' = stores w /\ pulsyConfig w' = pulsyConfig w /\ trace w' = trace w.
Proof. apply clearPersistedStores_frame. Qed.

(** After [clearPersistedStores], a store persisted in the cleared storage
    starts at its initial value again, whatever was persisted before. A
    store persisted in the other storage finds its entry as it was. *)
Theorem cleared_store_starts_at_initial_value storageType name initialValue options w :
  truthy (persist_or (opt_persist options) (config_persist (pulsyConfig w))) = true ->
  let s := default localStorage storageType in
  let popts := persistOptions_of (opt_persist options) in
  let w1 := snd (clearPersistedStores storageType w) in
  (backend popts = s ->
   stores (snd (createStore name initialValue options w1)) !! name
   = Some (created initialValue options (pulsyConfig w))) /\
  (backend popts <> s ->
   items (backend popts) w1 !! storage_key name = items (backend popts) w !! storage_key name).
Proof.
  intros Hp s popts w1. subst s popts w1.
  destruct (clearPersistedStores_frame storageType w)
    as (_ & _ & Hnone & Hother & _ & Hc & _).
  cbv zeta in *. split.
  - intros Hb.
    destruct (createStore_unusable_entry name initialValue options
                (snd (clearPersistedStores storageType w))) as (_ & Hst & _).
    + by rewrite Hc.
    + unfold unusable_entry. by rewrite Hb, Hnone.
    + by rewrite Hst, Hc.
  - intros Hb. by rewrite (Hother _ Hb).
Qed.
(** The counter persisted at 4 is created at 4 again, and at its initial
    value 0 once the local storage was cleared; the draft in the session
    storage is kept. *)
Lemma cleared_store_starts_at_initial_value_witness :
  let w1 := snd (clearPersistedStores None visited_world) in
  value <$> stores (snd (createStore "counter" (VNum 0) persisted_options
                           visited_world)) !! "counter" = Some (VNum 4) /\
  value <$> stores (snd (createStore "counter" (VNum 0) persisted_options w1))
              !! "counter" = Some (VNum 0) /\
  session_items w1 !! storage_key "draft" = session_items visited_world !! storage_key "draft".
Proof.
  cbv zeta. split; [reflexivity|]. split.
  - destruct (cleared_store_starts_at_initial_value None "counter" (VNum 0)
                persisted_options visited_world eq_refl) as [H _].
    by rewrite (H eq_refl).
  - destruct (cleared_store_starts_at_initial_value None "draft" (VNum 0)
                session_options visited_world eq_refl) as [_ H].
    apply H. discriminate.
Defined.

(** ** Mounted components *)

Lemma usePulsy_run name st w :
  stores w !! name = Some st ->
  usePulsy name w =
  (Ret (next_id w),
   with_stores (alter (subscribe (next_id w, RSetState (next_id w))) name)
     (with_cells (insert (next_id w) (value st)) (with_next_id S w))).
Proof.
  intros Hst. unfold usePulsy, bind, stores_get, gets, fresh_id, modify, add_reloader, ret.
  by rewrite Hst.
Qed.

Lemma usePulsy_missing name w :
  stores w !! name = None -> usePulsy name w = (Throw (not_found name), w).
Proof. intros Hst. unfold usePulsy, bind, stores_get, gets. by rewrite Hst. Qed.

Lemma set_add_new f rs :
  (forall g, In g rs -> fst g <> fst f) -> set_add f rs = (rs ++ [f])%list.
Proof.
  intros H. unfold set_add.
  destruct (existsb (fun g => Nat.eqb (fst g) (fst f)) rs) eqn:E; [|done].
  apply existsb_exists in E as (g & Hg & Heq). apply Nat.eqb_eq in Heq.
  by destruct (H g Hg).
Qed.

(** [usePulsy] on a store that does not exist throws and changes nothing,
    as [createNamespacedStore] and [useTimeTravel] do, which call it first.
    On a store that exists it gives the component a state cell of its own,
    which starts at the value of the store, and adds the [setValue] of the
    cell after the subscribers the store has; the value, the middleware and
    the other stores are as before. *)
Theorem usePulsy_mounts_component name w :
  ids_below w ->
  match stores w !! name with
  | None =>
      usePulsy name w = (Throw (not_found name), w) /\
      useTimeTravel name w = (Throw (not_found name), w) /\
      (forall namespace key, namespaced namespace key = name ->
         createNamespacedStore namespace key w = (Throw (not_found name), w))
  | Some st =>
      let cell := next_id w in
      let w' := snd (usePulsy name w) in
      fst (usePulsy name w) = Ret cell /\
      cell_value cell w' = value st /\
      stores w' !! name
      = Some {| value := value st;
                reloaders := (reloaders st ++ [(cell, RSetState cell)])%list;
                middleware := middleware st; memoize := memoize st;
                persist := persist st |} /\
      (forall n, n <> name -> stores w' !! n = stores w !! n) /\
      (forall c, c <> cell -> cells w' !! c = cells w !! c) /\
      (forall s, items s w' = items s w)
  end.
Proof.
  intros Hids. destruct (stores w !! name) as [st|] eqn:Hst.
  - cbv zeta. rewrite (usePulsy_run name st w Hst). cbn [fst snd].
    split; [done|]. split; [|split; [|split; [|split]]].
    + unfold cell_value. cbn. by rewrite lookup_insert_eq.
    + cbn. rewrite lookup_alter_eq, Hst. cbn. f_equal. unfold subscribe. f_equal.
      apply set_add_new. intros g Hg. cbn. specialize (Hids name st g Hst Hg). lia.
    + intros n Hn. cbn. by rewrite lookup_alter_ne.
    + intros c Hc. cbn. by rewrite lookup_insert_ne.
    + by intros [].
  - split; [by apply usePulsy_missing|]. split.
    + unfold useTimeTravel, bind. by rewrite usePulsy_missing.
    + intros namespace key <-. unfold createNamespacedStore. by apply usePulsy_missing.
Qed.

Lemma usePulsy_mounts_component_witness :
  let w' := snd (usePulsy "quantity" shop) in
  cell_value 0 w' = VNum 2 /\
  reloaders <$> stores w' !! "quantity" = Some [(0%nat, RSetState 0)] /\
  usePulsy "discount" shop = (Throw (not_found "discount"), shop).
Proof.
  cbv zeta.
  assert (Hids : ids_below shop).
  { apply ids_below_check. apply (bool_decide_unpack _). vm_compute. exact I. }
  pose proof (usePulsy_mounts_component "quantity" shop Hids) as H1.
  pose proof (usePulsy_mounts_component "discount" shop Hids) as H2.
  change (stores shop !! "quantity")
    with (Some {| value := VNum 2; reloaders := []; middleware := []; memoize := false;
                  persist := PUndefined |}) in H1.
  change (stores shop !! "discount") with (@None Store) in H2.
  cbv zeta in H1. destruct H1 as (_ & Hv & Hs & _). destruct H2 as (Hm & _).
  split; [exact Hv|]. split; [by rewrite Hs|exact Hm].
Defined.

(** ** What the components see *)

Lemma plain_cells_keeps rs v : forall (cs : gmap nat Value) c,
  cs !! c = Some v -> plain_cells rs v cs !! c = Some v.
Proof.
  induction rs as [|[id r] rs IH]; intros cs c H; [done|]. cbn.
  apply IH. destruct r as [cell| |]; try done.
  destruct (decide (cell = c)) as [->|Hne];
    [by rewrite lookup_insert_eq | by rewrite lookup_insert_ne].
Qed.

Lemma plain_cells_In rs v : forall (cs : gmap nat Value) id c,
  In (id, RSetState c) rs -> plain_cells rs v cs !! c = Some v.
Proof.
  induction rs as [|[id' r] rs IH]; intros cs id c Hin; [done|]. cbn.
  destruct Hin as [[= -> ->]|Hin]; [|by eapply IH].
  apply plain_cells_keeps. by rewrite lookup_insert_eq.
Qed.

Lemma plain_cells_other rs v : forall (cs : gmap nat Value) c,
  (forall id, ~ In (id, RSetState c) rs) -> plain_cells rs v cs !! c = cs !! c.
Proof.
  induction rs as [|[id' r] rs IH]; intros cs c Hno; [done|]. cbn.
  rewrite IH by (intros id Hin; apply (Hno id); by right).
  destruct r as [cell| |]; try done.
  rewrite lookup_insert_ne; [done|]. intros ->. apply (Hno id'). by left.
Qed.

Lemma createSetter_plain_world fuel name newValue w st candidate v :
  stores w !! name = Some st ->
  forallb is_plain (reloaders st) = true ->
  resolve newValue (value st) = Some candidate ->
  middleware_fold (middleware st) (value st) name candidate = Some v ->
  let w' := snd (createSetter (S fuel) name newValue w) in
  fst (createSetter (S fuel) name newValue w) = Ret tt /\
  stores w' = alter (assign v) name (stores w) /\
  cells w' = plain_cells (reloaders st) v (cells w).
Proof.
  intros Hst Hplain Hres Hfold.
  rewrite (createSetter_plain fuel name newValue w st candidate v Hst Hplain Hres Hfold).
  cbn [fst snd]. cbv zeta. split; [done|].
  set (w2 := committed name v (reloaders st)
               (add_events (stage_events name 0 (middleware st) (value st) candidate) w)).
  assert (Hs2 : stores w2 = alter (assign v) name (stores w)).
  { subst w2. by rewrite committed_stores. }
  assert (Hc2 : cells w2 = plain_cells (reloaders st) v (cells w)).
  { subst w2. unfold committed, hooked. by destruct (onStoreUpdate _). }
  destruct (truthy (persist st)); [|done].
  destruct (persistStore_world name v (setter_options st) w2) as (_ & P1 & _ & P3 & _).
  cbv zeta in *. by rewrite P1, P3.
Qed.

(** After a setter call on a store whose subscribers are the [setValue] of
    mounted components, the store holds the committed value and so does the
    state cell of every one of these components; the other state cells are
    as before. *)
Theorem setter_updates_every_mounted_component fuel name newValue w st candidate v :
  stores w !! name = Some st ->
  forallb is_plain (reloaders st) = true ->
  resolve newValue (value st) = Some candidate ->
  middleware_fold (middleware st) (value st) name candidate = Some v ->
  let w' := snd (createSetter (S fuel) name newValue w) in
  fst (createSetter (S fuel) name newValue w) = Ret tt /\
  fst (getStoreValue name w') = Ret v /\
  (forall id c, In (id, RSetState c) (reloaders st) -> cell_value c w' = v) /\
  (forall c, (forall id, ~ In (id, RSetState c) (reloaders st)) ->
     cells w' !! c = cells w !! c).
Proof.
  intros Hst Hplain Hres Hfold w'. subst w'.
  destruct (createSetter_plain_world fuel name newValue w st candidate v
              Hst Hplain Hres Hfold) as (H0 & Hs & Hc). cbv zeta in *.
  split; [done|]. split; [|split].
  - unfold getStoreValue, bind, stores_get, gets. by rewrite Hs, lookup_alter_eq, Hst.
  - intros id c Hin. unfold cell_value. by rewrite Hc, (plain_cells_In _ _ _ id c Hin).
  - intros c Hno. by rewrite Hc, plain_cells_other.
Qed.

Lemma setter_updates_every_mounted_component_witness :
  let w' := snd (createSetter 1 "counter" (Literal (VNum 5)) two_components) in
  cell_value 0 w' = VNum 5 /\ cell_value 1 w' = VNum 5.
Proof.
  cbv zeta.
  destruct (setter_updates_every_mounted_component 0 "counter" (Literal (VNum 5))
              two_components
              {| value := VNum 0; reloaders := [(0%nat, RSetState 0); (1%nat, RSetState 1)];
                 middleware := []; memoize := false; persist := PUndefined |}
              (VNum 5) (VNum 5) eq_refl eq_refl eq_refl eq_refl) as (_ & _ & H & _).
  split; [apply (H 0%nat)|apply (H 1%nat)]; cbn; auto.
Defined.
(** ** Unmounting *)

Lemma set_delete_app id a b : set_delete id (a ++ b) = (set_delete id a ++ set_delete id b)%list.
Proof. unfold set_delete. apply List.filter_app. Qed.

Lemma set_delete_absent id rs :
  (forall g, In g rs -> fst g <> id) -> set_delete id rs = rs.
Proof.
  induction rs as [|g rs IH]; intros H; [done|]. cbn.
  destruct (Nat.eqb (fst g) id) eqn:E.
  - apply Nat.eqb_eq in E. destruct (H g (or_introl eq_refl) E).
  - cbn. f_equal. apply IH. intros g' Hg'. apply H. by right.
Qed.

Lemma set_delete_In id rs f :
  In f (set_delete id rs) <-> In f rs /\ fst f <> id.
Proof.
  unfold set_delete. rewrite filter_In, negb_true_iff, Nat.eqb_neq. tauto.
Qed.

Lemma unmount_run name cell w :
  unmount name cell w = (Ret tt, with_stores (alter (unsubscribe cell) name) w).
Proof. reflexivity. Qed.

Lemma forallb_is_plain_delete id rs :
  forallb is_plain rs = true -> forallb is_plain (set_delete id rs) = true.
Proof.
  rewrite !forallb_forall. intros H f Hf. apply H. by apply set_delete_In in Hf as [Hf _].
Qed.

(** The cleanup of a component removes the [setValue] of its cell from the
    subscribers of the store and leaves the others in their order; the
    store itself stays registered with its value. Mounting a component and
    unmounting it again leaves the registry as it was. From then on a
    setter call still updates the store and the components that stay
    mounted, and leaves the state cell of the unmounted one as it is. *)
Theorem unmount_unsubscribes_component fuel name cell newValue w st candidate v :
  stores w !! name = Some st ->
  ids_below w ->
  forallb is_plain (reloaders st) = true ->
  mounted_only (reloaders st) ->
  resolve newValue (value st) = Some candidate ->
  middleware_fold (middleware st) (value st) name candidate = Some v ->
  let w1 := snd (unmount name cell w) in
  let w2 := snd (createSetter (S fuel) name newValue w1) in
  stores w1 !! name
  = Some {| value := value st; reloaders := set_delete cell (reloaders st);
            middleware := middleware st; memoize := memoize st; persist := persist st |} /\
  (forall f, In f (set_delete cell (reloaders st)) <-> In f (reloaders st) /\ fst f <> cell) /\
  (forall n, n <> name -> stores w1 !! n = stores w !! n) /\
  stores (snd ((let! c := usePulsy name in unmount name c) w)) = stores w /\
  fst (getStoreValue name w2) = Ret v /\
  cells w2 !! cell = cells w !! cell /\
  (forall c, c <> cell -> In (c, RSetState c) (reloaders st) -> cell_value c w2 = v).
Proof.
  intros Hst Hids Hplain Hm Hres Hfold w1 w2. subst w1 w2.
  rewrite unmount_run. cbn [snd].
  set (w1 := with_stores (alter (unsubscribe cell) name) w).
  assert (Hst1 : stores w1 !! name = Some (unsubscribe cell st)).
  { subst w1. cbn. by rewrite lookup_alter_eq, Hst. }
  split; [exact Hst1|]. split; [intros f; apply set_delete_In|].
  split; [intros n Hn; subst w1; cbn; by rewrite lookup_alter_ne|].
  split.
  { unfold bind. rewrite (usePulsy_run name st w Hst), unmount_run. cbn [snd stores with_stores].
    apply map_eq. intros n. destruct (decide (n = name)) as [->|Hn].
    - rewrite !lookup_alter_eq. cbn [stores with_cells with_next_id]. rewrite Hst.
      change (Some (unsubscribe (next_id w)
                      (subscribe (next_id w, RSetState (next_id w)) st)) = Some st).
      f_equal.
      unfold unsubscribe, subscribe. cbn [value reloaders middleware memoize persist].
      rewrite set_add_new
        by (intros g Hg; cbn [fst]; specialize (Hids name _ g Hst Hg); lia).
      rewrite set_delete_app.
      rewrite (set_delete_absent (next_id w) (reloaders st))
        by (intros g Hg; specialize (Hids name _ g Hst Hg); lia).
      unfold set_delete at 1. cbn [List.filter fst]. rewrite Nat.eqb_refl. cbn [negb].
      rewrite app_nil_r. by destruct st.
    - by rewrite !lookup_alter_ne. }
  destruct (createSetter_plain_world fuel name newValue w1 (unsubscribe cell st) candidate v
              Hst1 (forallb_is_plain_delete _ _ Hplain) Hres Hfold) as (_ & Hs & Hc).
  cbv zeta in *. cbn [reloaders unsubscribe] in Hc.
  split; [|split].
  - unfold getStoreValue, bind, stores_get, gets. by rewrite Hs, lookup_alter_eq, Hst1.
  - rewrite Hc. rewrite plain_cells_other; [done|].
    intros id Hin. apply set_delete_In in Hin as [Hin Hne].
    specialize (Hm _ Hin). cbn in Hm. injection Hm as Hm. cbn in Hne. congruence.
  - intros c Hne Hin. unfold cell_value. rewrite Hc.
    rewrite (plain_cells_In _ _ _ c c); [done|]. apply set_delete_In. by split.
Qed.

Lemma unmount_unsubscribes_component_witness :
  let w1 := snd (unmount "counter" 0 two_components) in
  let w2 := snd (createSetter 1 "counter" (Literal (VNum 5)) w1) in
  reloaders <$> stores w1 !! "counter" = Some [(1%nat, RSetState 1)] /\
  cells w2 !! 0%nat = Some (VNum 0) /\ cell_value 1 w2 = VNum 5.
Proof.
  cbv zeta.
  assert (Hids : ids_below two_components).
  { apply ids_below_check. apply (bool_decide_unpack _). vm_compute. exact I. }
  destruct (unmount_unsubscribes_component 0 "counter" 0 (Literal (VNum 5)) two_components
              {| value := VNum 0; reloaders := [(0%nat, RSetState 0); (1%nat, RSetState 1)];
                 middleware := []; memoize := false; persist := PUndefined |}
              (VNum 5) (VNum 5) eq_refl Hids eq_refl)
    as (Hs & _ & _ & _ & _ & Hc & Hv); try reflexivity.
  { intros f [<-|[<-|[]]]; reflexivity. }
  split; [by rewrite Hs|]. split; [by rewrite Hc|].
  apply Hv; [done|]. cbn. auto.
Defined.

(** ** Namespaced stores *)

Lemma namespaced_cons c namespace key :
  namespaced (String c namespace) key = String c (namespaced namespace key).
Proof. reflexivity. Qed.

Lemma namespaced_injective : forall ns1 ns2 k1 k2,
  colon_free ns1 = true -> colon_free ns2 = true ->
  namespaced ns1 k1 = namespaced ns2 k2 -> ns1 = ns2 /\ k1 = k2.
Proof.
  induction ns1 as [|c1 ns1 IH]; intros [|c2 ns2] k1 k2 H1 H2 E.
  - change (String ":" k1 = String ":" k2) in E. by injection E as ->.
  - change (String ":" k1 = String c2 (namespaced ns2 k2)) in E. cbn in H2.
    injection E as <- _. by rewrite Ascii.eqb_refl in H2.
  - change (String c1 (namespaced ns1 k1) = String ":" k2) in E. cbn in H1.
    injection E as -> _. by rewrite Ascii.eqb_refl in H1.
  - rewrite !namespaced_cons in E. injection E as -> E. cbn in H1, H2.
    apply andb_true_iff in H1 as [_ H1]. apply andb_true_iff in H2 as [_ H2].
    destruct (IH ns2 k1 k2 H1 H2 E) as [-> ->]. done.
Qed.

Lemma namespaced_nested : forall namespace k1 k2,
  namespaced (namespaced namespace k1) k2 = namespaced namespace (namespaced k1 k2).
Proof.
  induction namespace as [|c namespace IH]; intros k1 k2.
  - reflexivity.
  - rewrite !namespaced_cons. by rewrite IH.
Qed.

(** [createNamespacedStore(namespace)(key)] is [usePulsy] on the name
    [namespace:key]. Two namespaces without a colon never address the same
    store under different keys, nor one store under two namespaces. A
    namespace with a colon does: the namespace [n:k1] with the key [k2]
    addresses the store of the namespace [n] with the key [k1:k2]. *)
Theorem namespaced_stores_do_not_collide ns1 ns2 k1 k2 :
  colon_free ns1 = true -> colon_free ns2 = true ->
  (namespaced ns1 k1 = namespaced ns2 k2 -> ns1 = ns2 /\ k1 = k2) /\
  (forall w, createNamespacedStore ns1 k1 w = usePulsy (ns1 +:+ ":" +:+ k1) w) /\
  (forall w, createNamespacedStore (ns1 +:+ ":" +:+ k1) k2 w
             = createNamespacedStore ns1 (k1 +:+ ":" +:+ k2) w).
Proof.
  intros H1 H2. split; [by apply namespaced_injective|]. split; [reflexivity|].
  intros w. unfold createNamespacedStore.
  change (usePulsy (namespaced (namespaced ns1 k1) k2) w
          = usePulsy (namespaced ns1 (namespaced k1 k2)) w).
  by rewrite namespaced_nested.
Qed.

Lemma namespaced_stores_do_not_collide_witness :
  namespaced "cart" "total" <> namespaced "user" "total" /\
  namespaced "cart" "total" <> namespaced "cart" "count".
Proof.
  split; intros E.
  - destruct (namespaced_stores_do_not_collide "cart" "user" "total" "total"
                eq_refl eq_refl) as (H & _).
    destruct (H E) as [H1 _]. discriminate H1.
  - destruct (namespaced_stores_do_not_collide "cart" "cart" "total" "count"
                eq_refl eq_refl) as (H & _).
    destruct (H E) as [_ H1]. discriminate H1.
Defined.

(** ** Middleware added later *)





(** ** Actions *)





(** ** The snapshot of a composed store *)

Lemma obj_get_set_eq {A : Type} key (x : A) l : obj_get key (obj_set key x l) = Some x.
Proof.
  induction l as [|[k y] l IH]; cbn.
  - by rewrite String.eqb_refl.
  - destruct (String.eqb k key) eqn:E; cbn; by rewrite E.
Qed.

Lemma obj_get_set_ne {A : Type} key k (x : A) l :
  k <> key -> obj_get key (obj_set k x l) = obj_get key l.
Proof.
  intros Hne. induction l as [|[k' y] l IH]; cbn.
  - by apply String.eqb_neq in Hne as ->.
  - destruct (String.eqb k' k) eqn:E; cbn.
    + apply String.eqb_eq in E as ->. by apply String.eqb_neq in Hne as ->.
    + destruct (String.eqb k' key); [done|apply IH].
Qed.

Lemma obj_get_In {A : Type} key (l : list (string * A)) x :
  NoDup (map fst l) -> In (key, x) l -> obj_get key l = Some x.
Proof.
  induction l as [|[k y] l IH]; [done|]. cbn. intros Hnd [[= -> ->]|Hin].
  - by rewrite String.eqb_refl.
  - apply NoDup_cons in Hnd as [Hk Hnd].
    destruct (String.eqb k key) eqn:E; [|by apply IH].
    apply String.eqb_eq in E as ->. exfalso. apply Hk.
    apply list_elem_of_fmap. exists (key, x). split; [done|]. by apply list_elem_of_In.
Qed.

Lemma snapshot_get sts : forall storeMap acc key,
  NoDup (map fst storeMap) ->
  obj_get key (snapshot sts storeMap acc) =
  match obj_get key storeMap with
  | Some storeName =>
      match sts !! storeName with
      | Some st => Some (value st)
      | None => obj_get key acc
      end
  | None => obj_get key acc
  end.
Proof.
  induction storeMap as [|[k storeName] storeMap IH]; intros acc key Hnd; [done|].
  apply NoDup_cons in Hnd as [Hk Hnd]. cbn [snapshot obj_get].
  assert (Hfresh : String.eqb k key = true -> obj_get key storeMap = None).
  { intros E. apply String.eqb_eq in E as ->.
    destruct (obj_get key storeMap) as [x|] eqn:Hx; [|done]. exfalso. apply Hk.
    clear -Hx. induction storeMap as [|[k' y] l IH]; [done|]. cbn in *.
    destruct (String.eqb k' key) eqn:E.
    - apply String.eqb_eq in E as ->. by left.
    - right. by apply IH. }
  destruct (String.eqb k key) eqn:E.
  - pose proof (Hfresh eq_refl) as Hf. apply String.eqb_eq in E as ->.
    destruct (sts !! storeName) as [st|] eqn:Hs; rewrite IH, Hf by done.
    + apply obj_get_set_eq.
    + done.
  - destruct (sts !! storeName) as [st|] eqn:Hs; rewrite IH by done; [|done].
    destruct (obj_get key storeMap) as [sn|]; [destruct (sts !! sn); [done|]|];
      apply obj_get_set_ne; by apply String.eqb_neq.
Qed.

(** The value a composed store is created with is an object with one
    property for every key of the store map whose store exists, holding the
    value of that store at that moment; the keys of stores that do not
    exist are left out, and read as [undefined]. [getComposedStore] returns
    this object until a constituent store changes. *)
Theorem composed_store_starts_at_snapshot name storeMap w :
  truthy (persist_or PUndefined (config_persist (pulsyConfig w))) = false ->
  NoDup (map fst storeMap) ->
  let c := {| composed_name := name; composed_map := storeMap;
              composed_value := VObj (next_id w) (snapshot (stores w) storeMap []) |} in
  let w' := snd (composeStores name storeMap w) in
  fst (composeStores name storeMap w) = Ret c /\
  getComposedStore c w' = (Ret (composed_value c), w') /\
  (forall key storeName, In (key, storeName) storeMap ->
     get_field key (composed_value c)
     = default VUndefined (value <$> stores w !! storeName)) /\
  (forall key, obj_get key storeMap = None -> get_field key (composed_value c) = VUndefined).
Proof.
  intros Hp Hnd c w'. subst c w'. rewrite (composeStores_run name storeMap w Hp).
  cbn [fst snd]. cbv zeta. split; [done|]. split; [|split].
  - unfold getComposedStore, bind, stores_get, gets. cbn [composed_name stores with_stores].
    rewrite subscribe_all_lookup. cbn [stores with_next_id].
    rewrite createStore_run_memory by done. cbn [snd].
    assert (E : forall f, stores ((if onStoreCreate (pulsyConfig (with_next_id S w))
                                   then add_events [EvOnStoreCreate name f] else id)
                                    (with_stores (insert name
                                       (created f no_store_options
                                          (pulsyConfig (with_next_id S w))))
                                       (with_next_id S w)))
                        = <[name := created f no_store_options (pulsyConfig w)]> (stores w)).
    { intros f. by destruct (onStoreCreate _). }
    rewrite E, lookup_insert_eq. by destruct (decide (name ∈ map snd storeMap)).
  - intros key storeName Hin. cbn [composed_value get_field].
    rewrite (snapshot_get _ _ _ _ Hnd), (obj_get_In _ _ _ Hnd Hin).
    by destruct (stores w !! storeName).
  - intros key Hk. cbn [composed_value get_field].
    by rewrite (snapshot_get _ _ _ _ Hnd), Hk.
Qed.

Lemma composed_store_starts_at_snapshot_witness :
  let r := composeStores "cart" cart_map shop in
  exists c, fst r = Ret c /\
    get_field "price" (composed_value c) = VNum 100 /\
    get_field "count" (composed_value c) = VNum 2 /\
    get_field "coupon" (composed_value c) = VUndefined.
Proof.
  cbv zeta.
  assert (Hnd : NoDup (map fst cart_map)).
  { apply NoDup_ListNoDup. repeat constructor; cbn; intuition discriminate. }
  destruct (composed_store_starts_at_snapshot "cart" cart_map shop eq_refl Hnd)
    as (Hr & _ & Hget & _).
  eexists. split; [exact Hr|].
  split; [apply (Hget "price" "price"); cbn; auto|].
  split; [apply (Hget "count" "quantity"); cbn; auto|].
  apply (Hget "coupon" "coupon"); cbn; auto.
Defined.

(** ** Updates of a composed store that reach no store *)

(** [setComposedStore] skips the keys that the store map does not have and
    the keys mapped to a store that does not exist: an update made of such
    keys only, the empty update among them, returns normally and changes
    nothing. *)
Theorem composed_update_skips_unknown_keys fuel c updates w :
  reaches_no_store c updates w ->
  setComposedStore fuel c updates w = (Ret tt, w).
Proof.
  intros H. unfold setComposedStore, try_catch.
  assert (E : forEach (forward fuel c) updates w = (Ret tt, w)).
  { induction updates as [|u updates IH]; [done|]. cbn [forEach]. unfold bind at 1.
    assert (Eu : forward fuel c u w = (Ret tt, w)).
    { unfold forward. specialize (H u (or_introl eq_refl)).
      destruct (obj_get (fst u) (composed_map c)) as [storeName|]; [|done].
      unfold bind, stores_get, gets. by rewrite H. }
    rewrite Eu. apply IH. intros u' Hu'. apply H. by right. }
  change (forEach _ updates w) with (forEach (forward fuel c) updates w). by rewrite E.
Qed.

Lemma composed_update_skips_unknown_keys_witness :
  fst (composeStores "cart" cart_map shop) = Ret cart /\
  setComposedStore 1 cart [("coupon", VNum 5); ("total", VNum 1)]
    (snd (composeStores "cart" cart_map shop))
  = (Ret tt, snd (composeStores "cart" cart_map shop)).
Proof.
  split; [reflexivity|]. apply composed_update_skips_unknown_keys.
  intros u [<-|[<-|[]]]; reflexivity.
Defined.

(** ** JSON texts read back *)

Lemma Value_nested_ind (P : Value -> Prop) :
  P VUndefined -> P VNull -> (forall b, P (VBool b)) -> (forall n, P (VNum n)) ->
  (forall s, P (VStr s)) ->
  (forall ref fields, Forall (fun f => P (snd f)) fields -> P (VObj ref fields)) ->
  forall v, P v.
Proof.
  intros H1 H2 H3 H4 H5 H6.
  fix IH 1. intros [| |b|n|s|ref fields];
    [exact H1|exact H2|apply H3|apply H4|apply H5|].
  apply H6. induction fields as [|[k x] fields IHf]; constructor; [apply IH|exact IHf].
Qed.

Lemma stringify_object ref fields :
  JSON_stringify (VObj ref fields) = Some ("{" +:+ String.concat "," (members fields) +:+ "}").
Proof.
  reflexivity.
Qed.

Lemma erase_object ref fields : erase_refs (VObj ref fields) = VObj 0 (erase_fields fields).
Proof.
  reflexivity.
Qed.

Lemma json_ok_object ref fields :
  json_ok (VObj ref fields) = true <->
  NoDup (map fst fields) /\
  Forall (fun f => printable (fst f) = true /\ json_ok (snd f) = true) fields.
Proof.
  cbn [json_ok]. rewrite andb_true_iff, bool_decide_eq_true.
  apply and_iff_compat_l.
  induction fields as [|[k x] fields IH].
  - split; [constructor|done].
  - rewrite !andb_true_iff, IH. split.
    + intros [[? ?] ?]. by constructor.
    + intros H. apply Forall_cons in H as [[? ?] ?]. done.
Qed.

(** *** Characters *)

Lemma chars_app a b :
  list_ascii_of_string (a +:+ b) = (list_ascii_of_string a ++ list_ascii_of_string b)%list.
Proof.
  induction a as [|c a IH]; [done|].
  change (String c a +:+ b) with (String c (a +:+ b)). cbn [list_ascii_of_string app].
  by rewrite IH.
Qed.

(** *** Numbers *)

Lemma parse_digits_uint d : forall rest acc,
  ends_number rest ->
  parse_digits (list_ascii_of_string (NilEmpty.string_of_uint d) ++ rest) acc
  = (uint_value d acc, rest).
Proof.
  induction d; intros rest acc Hrest;
    try (cbn [NilEmpty.string_of_uint list_ascii_of_string app parse_digits uint_value];
         change (digit_of _) with (Some 0) || change (digit_of _) with (Some 1)
         || change (digit_of _) with (Some 2) || change (digit_of _) with (Some 3)
         || change (digit_of _) with (Some 4) || change (digit_of _) with (Some 5)
         || change (digit_of _) with (Some 6) || change (digit_of _) with (Some 7)
         || change (digit_of _) with (Some 8) || change (digit_of _) with (Some 9);
         by apply IHd).
  cbn. destruct rest as [|c rest]; [done|]. cbn in *. by rewrite Hrest.
Qed.

Lemma parse_number_uint d rest :
  d <> Decimal.Nil -> ends_number rest ->
  parse_number (list_ascii_of_string (NilEmpty.string_of_uint d) ++ rest)
  = Some (uint_value d 0, rest).
Proof.
  intros Hd Hrest.
  destruct d; [done|..];
    cbn [NilEmpty.string_of_uint list_ascii_of_string app parse_number uint_value];
    (change (digit_of _) with (Some 0) || change (digit_of _) with (Some 1)
     || change (digit_of _) with (Some 2) || change (digit_of _) with (Some 3)
     || change (digit_of _) with (Some 4) || change (digit_of _) with (Some 5)
     || change (digit_of _) with (Some 6) || change (digit_of _) with (Some 7)
     || change (digit_of _) with (Some 8) || change (digit_of _) with (Some 9));
    cbv beta iota; f_equal; by apply parse_digits_uint.
Qed.

Lemma of_uint_acc_value d : forall acc,
  Z.pos (Pos.of_uint_acc d acc) = uint_value d (Z.pos acc).
Proof.
  induction d; intros acc; cbn [Pos.of_uint_acc uint_value]; [done|..];
    rewrite IHd; f_equal; lia.
Qed.

Lemma of_uint_value d : Z.of_N (Pos.of_uint d) = uint_value d 0.
Proof.
  induction d; cbn [Pos.of_uint uint_value]; [done|exact IHd|..];
    cbn [Z.of_N]; by rewrite of_uint_acc_value.
Qed.

Lemma to_uint_value p : uint_value (Pos.to_uint p) 0 = Z.pos p.
Proof. by rewrite <- of_uint_value, DecimalPos.Unsigned.of_to. Qed.

(** *** Strings *)

Lemma parse_string_escaped s : forall rest acc,
  parse_string_body (list_ascii_of_string (json_escape s) ++ dquote :: rest) acc
  = Some (string_of_list_ascii (rev acc ++ list_ascii_of_string s), rest).
Proof.
  induction s as [|c s IH]; intros rest acc.
  - cbn. by rewrite app_nil_r.
  - cbn [json_escape].
    destruct (Ascii.eqb c dquote) eqn:Eq; cbn [orb].
    + cbn [list_ascii_of_string app parse_string_body].
      change (Ascii.eqb backslash dquote) with false.
      change (Ascii.eqb backslash backslash) with true. cbv beta iota.
      rewrite IH. cbn [rev list_ascii_of_string]. by rewrite <- app_assoc.
    + destruct (Ascii.eqb c backslash) eqn:Eb.
      * cbn [list_ascii_of_string app parse_string_body].
        change (Ascii.eqb backslash dquote) with false.
        change (Ascii.eqb backslash backslash) with true. cbv beta iota.
        rewrite IH. cbn [rev list_ascii_of_string]. by rewrite <- app_assoc.
      * cbn [list_ascii_of_string app parse_string_body]. rewrite Eq, Eb.
        rewrite IH. cbn [rev list_ascii_of_string]. by rewrite <- app_assoc.
Qed.

Lemma chars_quote s :
  list_ascii_of_string (json_quote s)
  = (dquote :: list_ascii_of_string (json_escape s) ++ [dquote])%list.
Proof.
  unfold json_quote.
  change (String dquote (json_escape s) +:+ String dquote EmptyString)
    with (String dquote (json_escape s +:+ String dquote EmptyString)).
  cbn [list_ascii_of_string]. by rewrite chars_app.
Qed.

Lemma parse_quoted s rest :
  parse_string_body (list_ascii_of_string (json_escape s) ++ [dquote] ++ rest) []
  = Some (s, rest).
Proof.
  cbn [app]. rewrite parse_string_escaped. cbn [rev app].
  by rewrite string_of_list_ascii_of_string.
Qed.

(** *** Objects *)

Lemma obj_set_fresh {A : Type} k (x : A) acc :
  k ∉ map fst acc -> obj_set k x acc = (acc ++ [(k, x)])%list.
Proof.
  induction acc as [|[k' y] acc IH]; intros Hk; [done|]. cbn.
  destruct (String.eqb k' k) eqn:E.
  - apply String.eqb_eq in E as ->. exfalso. apply Hk. by left.
  - f_equal. apply IH. intros Hin. apply Hk. by right.
Qed.

Lemma stringify_ok v : json_ok v = true -> exists s, JSON_stringify v = Some s.
Proof. destruct v as [| |[]|n|s|ref fields]; try done; intros _; by eexists. Qed.

Lemma chars_concat_cons m ms :
  ms <> [] ->
  list_ascii_of_string (String.concat "," (m :: ms))
  = (list_ascii_of_string m ++ ","%char :: list_ascii_of_string (String.concat "," ms))%list.
Proof.
  intros Hms. destruct ms as [|m2 ms]; [done|].
  change (String.concat "," (m :: m2 :: ms))
    with (m +:+ "," +:+ String.concat "," (m2 :: ms)).
  by rewrite !chars_app.
Qed.

Section Members.
Variable fuel : nat.

(** The members after the opening brace, when the values are read back by
    [parse_value fuel]. *)
Lemma parse_members_fields : forall fields,
  Forall (fun f =>
            json_ok (snd f) = true /\
            forall s rest, JSON_stringify (snd f) = Some s ->
              (length (list_ascii_of_string s) < fuel)%nat -> ends_number rest ->
              parse_value fuel (list_ascii_of_string s ++ rest)
              = Some (erase_refs (snd f), rest)) fields ->
  fields <> [] ->
  forall fm acc rest,
    (length fields <= fm)%nat ->
    (length (list_ascii_of_string (String.concat "," (members fields))) < fuel)%nat ->
    NoDup (map fst acc ++ map fst fields) ->
    parse_members (parse_value fuel) fm
      (list_ascii_of_string (String.concat "," (members fields)) ++ "}"%char :: rest) acc
    = Some ((acc ++ erase_fields fields)%list, rest).
Proof.
  induction fields as [|[k x] fields IH]; intros HF Hne fm acc rest Hfm Hlen Hnd; [done|].
  apply Forall_cons in HF as [[Hok Hx] HF]. cbn [snd] in *.
  destruct (stringify_ok x Hok) as (sx & Hsx). cbn [members] in *. rewrite Hsx in *.
  destruct fm as [|fm]; [cbn in Hfm; lia|].
  assert (Hk : k ∉ map fst acc).
  { cbn in Hnd. apply NoDup_app in Hnd as (_ & Hd & _). intros Hin.
    apply (Hd k Hin). by left. }
  assert (Hnd' : NoDup (map fst (acc ++ [(k, erase_refs x)]) ++ map fst fields)).
  { rewrite map_app, <- app_assoc. exact Hnd. }
  set (member := json_quote k +:+ ":" +:+ sx) in *.
  assert (Hmember : forall tail,
            (list_ascii_of_string member ++ tail)%list
            = (dquote :: list_ascii_of_string (json_escape k) ++ [dquote]
               ++ ":"%char :: list_ascii_of_string sx ++ tail)%list).
  { intros tail. subst member.
    change (json_quote k +:+ ":" +:+ sx) with (json_quote k +:+ String ":" sx).
    rewrite chars_app, chars_quote. cbn [list_ascii_of_string app].
    by rewrite <- !app_assoc. }
  assert (Hmlen : (length (list_ascii_of_string sx) < length (list_ascii_of_string member))%nat).
  { pose proof (Hmember []) as E. rewrite app_nil_r in E. rewrite E. cbn [length].
    rewrite !length_app. cbn [length]. rewrite length_app. lia. }
  destruct fields as [|f2 fields].
  - (* the last member *)
    cbn [members String.concat] in *. rewrite Hmember.
    cbn [parse_members skip_ws is_ws].
    change (is_ws dquote) with false. cbv beta iota.
    change (Ascii.eqb dquote "}") with false.
    change (Ascii.eqb dquote dquote) with true. cbv beta iota.
    rewrite parse_quoted. cbn [skip_ws]. change (is_ws ":") with false. cbv beta iota.
    change (Ascii.eqb ":" ":") with true. cbv beta iota.
    rewrite (Hx sx ("}"%char :: rest) eq_refl) by (done || lia).
    cbn [skip_ws]. change (is_ws "}") with false. cbv beta iota.
    change (Ascii.eqb "}" ",") with false. change (Ascii.eqb "}" "}") with true.
    cbv beta iota. by rewrite obj_set_fresh.
  - (* a member followed by another *)
    assert (Hrest : members (f2 :: fields) <> []).
    { apply Forall_cons in HF as [[Hok2 _] _]. destruct f2 as [k2 x2]. cbn [members snd] in *.
      destruct (stringify_ok x2 Hok2) as (s2 & ->). done. }
    rewrite chars_concat_cons in * by done.
    rewrite <- app_assoc, Hmember.
    rewrite length_app in Hlen. cbn [length] in Hlen.
    cbn [parse_members skip_ws is_ws].
    change (is_ws dquote) with false. cbv beta iota.
    change (Ascii.eqb dquote "}") with false.
    change (Ascii.eqb dquote dquote) with true. cbv beta iota.
    rewrite parse_quoted. cbn [skip_ws]. change (is_ws ":") with false. cbv beta iota.
    change (Ascii.eqb ":" ":") with true. cbv beta iota.
    cbn [app].
    rewrite (Hx sx _ eq_refl) by (done || lia).
    cbn [skip_ws]. change (is_ws ",") with false. cbv beta iota.
    change (Ascii.eqb "," ",") with true. cbv beta iota.
    rewrite obj_set_fresh by done.
    rewrite (IH HF ltac:(done) fm _ rest); [|cbn in *; lia|lia|done].
    cbn [erase_fields]. by rewrite <- app_assoc.
Qed.
End Members.

(** *** Values *)

Lemma starts_with_app p rest : starts_with p (p ++ rest) = Some rest.
Proof.
  unfold starts_with. rewrite take_app_length, drop_app_length. by rewrite decide_True.
Qed.

Lemma parse_stringify : forall v,
  json_ok v = true ->
  forall s, JSON_stringify v = Some s ->
  forall fuel rest,
    (length (list_ascii_of_string s) < fuel)%nat -> ends_number rest ->
    parse_value fuel (list_ascii_of_string s ++ rest) = Some (erase_refs v, rest).
Proof.
  induction v as [| |b|n|str|ref fields IH] using Value_nested_ind;
    intros Hok s Hs fuel rest Hfuel Hrest.
  - done.
  - injection Hs as <-. destruct fuel as [|fuel]; [cbn in Hfuel; lia|].
    change (list_ascii_of_string "null" ++ rest)%list
      with ("n"%char :: "u"%char :: "l"%char :: "l"%char :: rest).
    cbn [parse_value skip_ws]. change (is_ws "n") with false. cbv beta iota zeta.
    change (Ascii.eqb "n" "{") with false. change (Ascii.eqb "n" dquote) with false.
    change (Ascii.eqb "n" "-") with false. cbv beta iota.
    change (parse_number ("n"%char :: "u"%char :: "l"%char :: "l"%char :: rest))
      with (@None (Z * list ascii)). cbv beta iota.
    change ("n"%char :: "u"%char :: "l"%char :: "l"%char :: rest)
      with (list_ascii_of_string "null" ++ rest)%list.
    by rewrite starts_with_app.
  - destruct fuel as [|fuel]; [cbn in Hfuel; lia|]. destruct b; injection Hs as <-.
    + change (list_ascii_of_string "true" ++ rest)%list
        with ("t"%char :: "r"%char :: "u"%char :: "e"%char :: rest).
      cbn [parse_value skip_ws]. change (is_ws "t") with false. cbv beta iota zeta.
      change (Ascii.eqb "t" "{") with false. change (Ascii.eqb "t" dquote) with false.
      change (Ascii.eqb "t" "-") with false. cbv beta iota.
      change (parse_number ("t"%char :: "r"%char :: "u"%char :: "e"%char :: rest))
        with (@None (Z * list ascii)). cbv beta iota.
      assert (E : starts_with (list_ascii_of_string "null")
                    ("t"%char :: "r"%char :: "u"%char :: "e"%char :: rest) = None).
      { unfold starts_with. cbn [length list_ascii_of_string take].
        by rewrite decide_False. }
      rewrite E.
      change ("t"%char :: "r"%char :: "u"%char :: "e"%char :: rest)
        with (list_ascii_of_string "true" ++ rest)%list.
      by rewrite starts_with_app.
    + change (list_ascii_of_string "false" ++ rest)%list
        with ("f"%char :: "a"%char :: "l"%char :: "s"%char :: "e"%char :: rest).
      cbn [parse_value skip_ws]. change (is_ws "f") with false. cbv beta iota zeta.
      change (Ascii.eqb "f" "{") with false. change (Ascii.eqb "f" dquote) with false.
      change (Ascii.eqb "f" "-") with false. cbv beta iota.
      change (parse_number ("f"%char :: "a"%char :: "l"%char :: "s"%char :: "e"%char :: rest))
        with (@None (Z * list ascii)). cbv beta iota.
      assert (E1 : starts_with (list_ascii_of_string "null")
                     ("f"%char :: "a"%char :: "l"%char :: "s"%char :: "e"%char :: rest)
                   = None).
      { unfold starts_with. cbn [length list_ascii_of_string take].
        by rewrite decide_False. }
      assert (E2 : starts_with (list_ascii_of_string "true")
                     ("f"%char :: "a"%char :: "l"%char :: "s"%char :: "e"%char :: rest)
                   = None).
      { unfold starts_with. cbn [length list_ascii_of_string take].
        by rewrite decide_False. }
      rewrite E1, E2.
      change ("f"%char :: "a"%char :: "l"%char :: "s"%char :: "e"%char :: rest)
        with (list_ascii_of_string "false" ++ rest)%list.
      by rewrite starts_with_app.
  - injection Hs as <-. destruct fuel as [|fuel]; [cbn in Hfuel; lia|].
    unfold json_number. destruct n as [|p|p]; cbn [Z.to_int NilZero.string_of_int].
    + change (list_ascii_of_string (NilZero.string_of_uint (Decimal.D0 Decimal.Nil)) ++ rest)%list
        with ("0"%char :: rest).
      cbn [parse_value skip_ws]. change (is_ws "0") with false. cbv beta iota zeta.
      change (Ascii.eqb "0" "{") with false. change (Ascii.eqb "0" dquote) with false.
      change (Ascii.eqb "0" "-") with false. cbv beta iota.
      change ("0"%char :: rest)
        with (list_ascii_of_string (NilEmpty.string_of_uint (Decimal.D0 Decimal.Nil)) ++ rest)%list.
      by rewrite parse_number_uint.
    + pose proof (Unsigned.to_uint_nonnil p) as Hnil.
      assert (Ez : NilZero.string_of_uint (Pos.to_uint p)
                   = NilEmpty.string_of_uint (Pos.to_uint p)).
      { by destruct (Pos.to_uint p). }
      rewrite Ez. pose proof (parse_number_uint (Pos.to_uint p) rest Hnil Hrest) as Hp.
      rewrite to_uint_value in Hp.
      destruct (list_ascii_of_string (NilEmpty.string_of_uint (Pos.to_uint p)) ++ rest)%list
        as [|c tail] eqn:Ec; [done|].
      assert (Hd : digit_of c <> None).
      { cbn [parse_number] in Hp. by destruct (digit_of c). }
      assert (Hc : is_ws c = false /\ Ascii.eqb c "{" = false /\ Ascii.eqb c dquote = false
                   /\ Ascii.eqb c "-" = false).
      { clear -Hd. unfold digit_of in Hd.
        destruct ((48 <=? Z.of_nat (nat_of_ascii c)) && (Z.of_nat (nat_of_ascii c) <=? 57))
          eqn:E; [|done].
        repeat split; try (unfold is_ws; rewrite !orb_false_iff; repeat split);
          apply Ascii.eqb_neq; intros ->; vm_compute in E; discriminate. }
      destruct Hc as (H1 & H2 & H3 & H4).
      cbn [parse_value skip_ws]. rewrite H1. cbv beta iota zeta. rewrite H2, H3, H4.
      by rewrite Hp.
    + pose proof (Unsigned.to_uint_nonnil p) as Hnil.
      assert (Ez : NilZero.string_of_uint (Pos.to_uint p)
                   = NilEmpty.string_of_uint (Pos.to_uint p)).
      { by destruct (Pos.to_uint p). }
      rewrite Ez. cbn [list_ascii_of_string app].
      cbn [parse_value skip_ws]. change (is_ws "-") with false. cbv beta iota zeta.
      change (Ascii.eqb "-" "{") with false. change (Ascii.eqb "-" dquote) with false.
      change (Ascii.eqb "-" "-") with true. cbv beta iota.
      rewrite (parse_number_uint (Pos.to_uint p) rest Hnil Hrest), to_uint_value. done.
  - injection Hs as <-. destruct fuel as [|fuel]; [cbn in Hfuel; lia|].
    rewrite chars_quote. cbn [app parse_value skip_ws].
    change (is_ws dquote) with false. cbv beta iota zeta.
    change (Ascii.eqb dquote "{") with false. change (Ascii.eqb dquote dquote) with true.
    cbv beta iota. rewrite <- app_assoc. by rewrite parse_quoted.
  - rewrite stringify_object in Hs. injection Hs as <-.
    apply json_ok_object in Hok as [Hnd Hfields].
    destruct fuel as [|fuel]; [cbn in Hfuel; lia|].
    rewrite erase_object.
    change ("{" +:+ String.concat "," (members fields) +:+ "}")
      with (String "{" (String.concat "," (members fields) +:+ "}")) in *.
    cbn [list_ascii_of_string] in *. rewrite chars_app in *. cbn [length] in Hfuel.
    rewrite length_app in Hfuel. cbn [list_ascii_of_string length] in Hfuel.
    cbn [app parse_value skip_ws]. change (is_ws "{") with false. cbv beta iota zeta.
    change (Ascii.eqb "{" "{") with true. cbv beta iota.
    rewrite <- app_assoc. cbn [list_ascii_of_string app].
    destruct fields as [|f fields].
    + cbn [members String.concat list_ascii_of_string app length parse_members skip_ws].
      change (is_ws "}") with false. cbv beta iota.
      change (Ascii.eqb "}" "}") with true. done.
    + rewrite (parse_members_fields fuel (f :: fields)); [done| |done| | |done].
      * rewrite Forall_forall in IH, Hfields. apply Forall_forall. intros g Hg.
        destruct (Hfields g Hg) as [_ Hokg]. split; [done|].
        intros sg rest' Hsg Hlen Hr. by apply (IH g Hg Hokg).
      * rewrite length_app. cbn [length].
        assert (Hm : (length (f :: fields)
                      <= length (list_ascii_of_string
                                   (String.concat "," (members (f :: fields)))))%nat).
        { clear -Hfields. induction (f :: fields) as [|[k x] l IHl]; [cbn; lia|].
          apply Forall_cons in Hfields as [[_ Hok] Hl]. cbn [snd] in Hok.
          destruct (stringify_ok x Hok) as (sx & Hsx). cbn [members]. rewrite Hsx.
          destruct l as [|g l].
          - cbn [members String.concat length].
            change (json_quote k +:+ ":" +:+ sx) with (json_quote k +:+ String ":" sx).
            rewrite chars_app, chars_quote, !length_app. cbn [length]. lia.
          - assert (Hne : members (g :: l) <> []).
            { apply Forall_cons in Hl as [[_ Hokg] _]. destruct g as [k2 x2].
              cbn [members snd] in *. destruct (stringify_ok x2 Hokg) as (s2 & ->). done. }
            rewrite chars_concat_cons by done. rewrite length_app. cbn [length].
            specialize (IHl Hl). cbn [length] in *. lia. }
        cbn [length] in Hm. lia.
      * lia.
Qed.

(** [JSON.parse] reads back what [JSON.stringify] wrote, up to the
    references of the objects. *)
Lemma JSON_round_trip v :
  json_ok v = true ->
  exists s, JSON_stringify v = Some s /\ JSON_parse s = Some (erase_refs v).
Proof.
  intros Hok. destruct (stringify_ok v Hok) as (s & Hs). exists s. split; [done|].
  unfold JSON_parse.
  pose proof (parse_stringify v Hok s Hs (S (length (list_ascii_of_string s))) []
                ltac:(lia) I) as H.
  rewrite app_nil_r in H. by rewrite H.
Qed.

(** ** What is persisted is what is restored *)

Lemma fresh_refs_object ref fields n :
  fresh_refs (VObj ref fields) n
  = let '(fields', n') := fresh_fields fields (S n) in (VObj n fields', n').
Proof. reflexivity. Qed.

Lemma fresh_refs_erase : forall v n, erase_refs (fst (fresh_refs v n)) = erase_refs v.
Proof.
  induction v as [| |b|k|s|ref fields IH] using Value_nested_ind; intros n; try done.
  rewrite fresh_refs_object.
  assert (E : forall m, erase_fields (fst (fresh_fields fields m)) = erase_fields fields).
  { induction fields as [|[k x] fields IHf]; intros m; [done|].
    apply Forall_cons in IH as [Hx Hf]. cbn [fresh_fields]. cbn [snd] in Hx.
    specialize (Hx m). destruct (fresh_refs x m) as [x' n1]. cbn [fst snd] in Hx.
    specialize (IHf Hf n1). destruct (fresh_fields fields n1) as [rest' n2].
    cbn [fst erase_fields] in *. by rewrite Hx, IHf. }
  specialize (E (S n)). destruct (fresh_fields fields (S n)) as [fields' n'].
  cbn [fst] in *. by rewrite !erase_object, E.
Qed.

Lemma erase_refs_idem : forall v, erase_refs (erase_refs v) = erase_refs v.
Proof.
  induction v as [| |b|k|s|ref fields IH] using Value_nested_ind; try done.
  rewrite !erase_object. f_equal.
  induction fields as [|[k x] fields IHf]; [done|].
  apply Forall_cons in IH as [Hx Hf]. cbn [erase_fields]. cbn [snd] in Hx.
  by rewrite Hx, IHf.
Qed.

Lemma erase_refs_undefined v : erase_refs v = VUndefined -> v = VUndefined.
Proof. by destruct v. Qed.

Lemma erase_refs_primitive v v' :
  (forall ref fields, v <> VObj ref fields) -> erase_refs v' = erase_refs v -> v' = v.
Proof.
  intros Hv E. destruct v; try (by destruct v'); by destruct (Hv ref fields).
Qed.

Lemma json_ok_envelope ref v n :
  json_ok v = true -> safe_integer n = true ->
  json_ok (VObj ref [("value", v); ("version", VNum n)]) = true.
Proof.
  intros Hv Hn. apply json_ok_object. split.
  - apply (bool_decide_unpack _). vm_compute. exact I.
  - repeat constructor; done.
Qed.

(** The retrieval of an entry that holds the envelope of [v]. *)
Lemma retrieve_envelope name v options w :
  plain_json options -> json_ok v = true -> holds_envelope name v options w ->
  exists v' w',
    retrievePersistedStore name options w = (Ret v', w') /\
    erase_refs v' = erase_refs v /\
    stores w' = stores w /\ pulsyConfig w' = pulsyConfig w /\ cells w' = cells w /\
    trace w' = trace w /\ (forall s, items s w' = items s w).
Proof.
  intros (Hser & Hdes & Hver) Hv Hitem. unfold holds_envelope in Hitem.
  set (ver := version_or_1 (version options)) in *.
  destruct (JSON_round_trip (VObj 0 [("value", v); ("version", VNum ver)])
              (json_ok_envelope 0 v ver Hv Hver)) as (s & Hs & Hparse).
  rewrite Hs in Hitem.
  assert (Hne : s <> EmptyString).
  { rewrite stringify_object in Hs. injection Hs as <-. done. }
  rewrite erase_object in Hparse. cbn [erase_fields erase_refs] in Hparse.
  destruct (fresh_refs (erase_refs v) (S (next_id w))) as [v' n1] eqn:Ef.
  set (parsed := VObj (next_id w) [("value", v'); ("version", VNum ver)]).
  assert (Hd : run_deserialize (deserialize options) s w
               = (Ret parsed, with_next_id (fun _ => n1) w)).
  { unfold run_deserialize. rewrite Hdes, Hparse. rewrite fresh_refs_object.
    cbn [fresh_fields]. rewrite Ef. reflexivity. }
  rewrite (retrievePersistedStore_run name options w s parsed _ Hitem Hne Hd)
    by (split; discriminate).
  exists v', (with_next_id (fun _ => n1) w).
  split.
  - unfold retrieved. cbn [get_field obj_get String.eqb Ascii.eqb Bool.eqb parsed].
    change (default VUndefined (Some v')) with v'.
    destruct (migrate options) as [migrate_|]; [|reflexivity].
    assert (Hno : negb (default 1 (version options) =? 0)
                  && strict_neq (default VUndefined (Some (VNum ver)))
                       (VNum (default 1 (version options))) = false).
    { subst ver. unfold version_or_1. destruct (version options) as [x|]; [|done].
      unfold default, from_option, id.
      destruct (x =? 0) eqn:Ex; cbn [negb andb]; [done|].
      unfold strict_neq, strict_eq. by rewrite Z.eqb_refl. }
    by rewrite Hno.
  - split.
    + pose proof (fresh_refs_erase (erase_refs v) (S (next_id w))) as E.
      rewrite Ef in E. cbn [fst] in E. by rewrite E, erase_refs_idem.
    + repeat split; done.
Qed.

(** What [persistStore] writes with the default serializer,
    [retrievePersistedStore] reads back under the same options: the value,
    with new objects in place of the ones it had, whatever version and
    [migrate] function the options give; [migrate] is not called, and the
    storage is left as it is. *)
Theorem persisted_value_is_retrieved name v options w :
  plain_json options -> json_ok v = true ->
  let w1 := snd (persistStore name v options w) in
  let r := retrievePersistedStore name options w1 in
  exists v',
    fst r = Ret v' /\ erase_refs v' = erase_refs v /\
    ((forall ref fields, v <> VObj ref fields) -> v' = v) /\
    ~ migrate_called w1 (snd r) /\
    (forall s, items s (snd r) = items s w1).
Proof.
  intros Hplain Hv w1 r. subst w1 r.
  destruct (persistStore_world name v options w) as (_ & _ & _ & _ & _ & _ & P6).
  cbv zeta in P6.
  assert (Hser : serialized (next_id w) v options
                 = JSON_stringify (VObj 0 [("value", v);
                                           ("version", VNum (version_or_1 (version options)))])).
  { unfold serialized, envelope. destruct Hplain as (-> & _ & _). cbn [default].
    unfold default_serialize. by rewrite !stringify_object. }
  rewrite Hser in P6. rewrite stringify_object in P6. destruct P6 as [P6 _].
  destruct (retrieve_envelope name v options (snd (persistStore name v options w))
              Hplain Hv) as (v' & w' & E & He & _ & _ & _ & Ht & Hi).
  { unfold holds_envelope. by rewrite stringify_object. }
  exists v'. rewrite E. cbn [fst snd]. split; [done|]. split; [done|].
  split; [intros Hp; by apply erase_refs_primitive|]. split; [|done].
  intros (a & b & Hin). unfold new_events in Hin. by rewrite Ht, drop_all in Hin.
Qed.

Lemma persisted_value_is_retrieved_witness :
  let v := VObj 3 [("theme", VStr "dark"); ("size", VNum (-2))] in
  let w1 := snd (persistStore "prefs" v (migrating 2) initial_world) in
  exists v', fst (retrievePersistedStore "prefs" (migrating 2) w1) = Ret v' /\
             erase_refs v' = VObj 0 [("theme", VStr "dark"); ("size", VNum (-2))].
Proof.
  cbv zeta.
  destruct (persisted_value_is_retrieved "prefs"
              (VObj 3 [("theme", VStr "dark"); ("size", VNum (-2))]) (migrating 2)
              initial_world) as (v' & Hr & He & _).
  { repeat split. }
  { reflexivity. }
  exists v'. split; [exact Hr|exact He].
Defined.

(** A persisted store is created at the value that its entry holds, not at
    the initial value it is given: with the default serializer, the value
    that was persisted is the value of the store, with new objects in place
    of the ones it had. *)
Theorem persisted_store_rehydrates name initialValue options v w :
  truthy (persist_or (opt_persist options) (config_persist (pulsyConfig w))) = true ->
  plain_json (persistOptions_of (opt_persist options)) ->
  json_ok v = true ->
  holds_envelope name v (persistOptions_of (opt_persist options)) w ->
  let w' := snd (createStore name initialValue options w) in
  exists v',
    fst (getStoreValue name w') = Ret v' /\ erase_refs v' = erase_refs v /\
    ((forall ref fields, v <> VObj ref fields) -> v' = v).
Proof.
  intros Hp Hplain Hv Hitem w'. subst w'.
  destruct (retrieve_envelope name v _ w Hplain Hv Hitem)
    as (v' & w1 & E & He & _).
  assert (Hdef : strict_neq v' VUndefined = true).
  { destruct v'; try done. cbn in He. symmetry in He.
    apply erase_refs_undefined in He. by subst. }
  assert (Ecreate : createStore name initialValue options w
            = (Ret tt, snd (persistStore name v' (persistOptions_of (opt_persist options))
                              (installed name v' options (pulsyConfig w) w1)))).
  { rewrite (createStore_run_persist _ _ _ _ _ _ Hp E). cbv zeta. by rewrite Hdef. }
  rewrite Ecreate. cbn [snd].
  destruct (installed_frame name v' options (pulsyConfig w) w1) as (I1 & _).
  destruct (persistStore_world name v' (persistOptions_of (opt_persist options))
              (installed name v' options (pulsyConfig w) w1)) as (_ & P1 & _).
  cbv zeta in P1. exists v'. split; [|split; [done|]].
  - unfold getStoreValue, bind, stores_get, gets. by rewrite P1, I1, lookup_insert_eq.
  - intros Hprim. by apply erase_refs_primitive.
Qed.

Lemma persisted_store_rehydrates_witness :
  exists v',
    fst (getStoreValue "counter"
           (snd (createStore "counter" (VNum 0) persisted_options returning_world)))
    = Ret v' /\
    erase_refs v' = VObj 0 [("count", VNum 1)].
Proof.
  destruct (persisted_store_rehydrates "counter" (VNum 0) persisted_options
              (VObj 7 [("count", VNum 1)]) returning_world eq_refl)
    as (v' & Hr & He & _).
  { repeat split. }
  { reflexivity. }
  { reflexivity. }
  exists v'. split; [exact Hr|exact He].
Defined.

(** * Properties of the development tools *)

Lemma log_run message style args s :
  DevTools.log message style args s =
  if shown (DevTools.devToolsConfig s) style
  then DevTools.print
         (rendered (DevTools.devToolsConfig s)
            {| call_message := message; call_style := style; call_args := args |}) s
  else s.
Proof.
  unfold DevTools.log, shown, DevTools.level_passes, rendered. cbn [call_style call_message call_args].
  destruct (DevTools.on (DevTools.enableDevTools (DevTools.devToolsConfig s)) && _); [|done].
  destruct style; cbn; try done;
    by destruct (DevTools.on (DevTools.enableConsoleGroups (DevTools.devToolsConfig s))).
Qed.

Lemma log_frame message style args s :
  DevTools.devToolsConfig (DevTools.log message style args s) = DevTools.devToolsConfig s /\
  DevTools.stateTimeline (DevTools.log message style args s) = DevTools.stateTimeline s /\
  DevTools.marks (DevTools.log message style args s) = DevTools.marks s.
Proof. rewrite log_run. by destruct (shown _ _). Qed.

Lemma log_all_run ms : forall s,
  DevTools.devToolsConfig (log_all ms s) = DevTools.devToolsConfig s /\
  DevTools.stateTimeline (log_all ms s) = DevTools.stateTimeline s /\
  DevTools.marks (log_all ms s) = DevTools.marks s /\
  DevTools.console (log_all ms s)
  = (DevTools.console s
     ++ map (rendered (DevTools.devToolsConfig s))
          (List.filter (fun m => shown (DevTools.devToolsConfig s) (call_style m)) ms))%list.
Proof.
  induction ms as [|m ms IH]; intros s.
  - cbn. by rewrite app_nil_r.
  - cbn [log_all fold_left]. fold (log_all ms (log_call m s)).
    destruct (IH (log_call m s)) as (I1 & I2 & I3 & I4).
    destruct (log_frame (call_message m) (call_style m) (call_args m) s) as (F1 & F2 & F3).
    fold (log_call m s) in F1, F2, F3. rewrite F1 in *.
    split; [done|]. split; [congruence|]. split; [congruence|].
    rewrite I4. cbn [List.filter]. unfold log_call at 1. rewrite log_run.
    destruct (shown (DevTools.devToolsConfig s) (call_style m)).
    + cbn [DevTools.print DevTools.console map]. rewrite <- app_assoc. by destruct m.
    + done.
Qed.

(** A sequence of [devTools.log] calls prints, in the order of the calls,
    the messages whose style is the configured level, or all of them when
    the level is ["info"], and prints nothing when the tools are off; it
    changes neither the configuration nor the timeline. The level is no
    threshold: under the level ["warn"] an ["error"] message is dropped. *)
Theorem log_prints_the_level_in_order ms s :
  let c := DevTools.devToolsConfig s in
  let s' := log_all ms s in
  DevTools.console s'
  = (DevTools.console s
     ++ map (rendered c) (List.filter (fun m => shown c (call_style m)) ms))%list /\
  DevTools.devToolsConfig s' = c /\
  DevTools.stateTimeline s' = DevTools.stateTimeline s /\
  (forall style, shown c style = true <->
     DevTools.enableDevTools c = Some true /\
     (DevTools.logLevel c = Some style \/ DevTools.logLevel c = Some DevTools.info)).
Proof.
  cbv zeta. destruct (log_all_run ms s) as (H1 & H2 & _ & H4).
  split; [done|]. split; [done|]. split; [done|].
  intros style. unfold shown, DevTools.on.
  rewrite andb_true_iff, orb_true_iff, !bool_decide_eq_true.
  destruct (DevTools.enableDevTools (DevTools.devToolsConfig s)) as [[]|]; cbn;
    intuition congruence.
Qed.

(** ** The tools switched off *)

Lemma run_op_off op s :
  DevTools.on (DevTools.enableDevTools (DevTools.devToolsConfig s)) = false ->
  DevTools.devToolsConfig (run_op op s) = DevTools.devToolsConfig s /\
  DevTools.console (run_op op s) = DevTools.console s /\
  DevTools.marks (run_op op s) = DevTools.marks s /\
  DevTools.stateTimeline (run_op op s)
  = if is_clear op then [] else DevTools.stateTimeline s.
Proof.
  intros Hoff. destruct op as [m|markName|now name v| |]; cbn [run_op is_clear].
  - unfold log_call. rewrite log_run. unfold shown. by rewrite Hoff.
  - unfold DevTools.mark. by rewrite Hoff.
  - unfold DevTools.trackStateChange. by rewrite Hoff.
  - unfold DevTools.clearStateTimeline. rewrite log_run. unfold shown. cbn. by rewrite Hoff.
  - unfold DevTools.visualizeStateChanges. by rewrite Hoff.
Qed.

Lemma run_ops_off ops : forall s,
  DevTools.on (DevTools.enableDevTools (DevTools.devToolsConfig s)) = false ->
  DevTools.console (run_ops ops s) = DevTools.console s /\
  DevTools.marks (run_ops ops s) = DevTools.marks s /\
  DevTools.devToolsConfig (run_ops ops s) = DevTools.devToolsConfig s /\
  DevTools.stateTimeline (run_ops ops s)
  = if existsb is_clear ops then [] else DevTools.stateTimeline s.
Proof.
  induction ops as [|op ops IH]; intros s Hoff; [done|].
  cbn [run_ops fold_left existsb]. fold (run_ops ops (run_op op s)).
  destruct (run_op_off op s Hoff) as (R1 & R2 & R3 & R4).
  destruct (IH (run_op op s)) as (I1 & I2 & I3 & I4); [by rewrite R1|].
  split; [congruence|]. split; [congruence|]. split; [congruence|].
  rewrite I4, R4. destruct (is_clear op); cbn [orb]; [|done].
  by destruct (existsb is_clear ops).
Qed.

(** With [enableDevTools] off (or [undefined]), no operation of
    [devTools] reaches the console or the performance marks, and none adds
    to the timeline; [clearStateTimeline] still empties it. *)
Theorem disabled_devtools_are_silent ops s :
  DevTools.on (DevTools.enableDevTools (DevTools.devToolsConfig s)) = false ->
  let s' := run_ops ops s in
  DevTools.console s' = DevTools.console s /\
  DevTools.marks s' = DevTools.marks s /\
  DevTools.devToolsConfig s' = DevTools.devToolsConfig s /\
  DevTools.stateTimeline s'
  = if existsb is_clear ops then [] else DevTools.stateTimeline s.
Proof. intros Hoff. by apply run_ops_off. Qed.

Lemma disabled_devtools_are_silent_witness :
  let s' := run_ops [OpTrack 10 "counter" (VNum 1); OpMark "start";
                     OpLog {| call_message := "Store created: counter";
                              call_style := DevTools.info; call_args := [VNum 1] |};
                     OpVisualize]
              (DevTools.initial_state false) in
  DevTools.console s' = [] /\ DevTools.marks s' = [] /\ DevTools.stateTimeline s' = [].
Proof.
  cbv zeta.
  destruct (disabled_devtools_are_silent
              [OpTrack 10 "counter" (VNum 1); OpMark "start";
               OpLog {| call_message := "Store created: counter";
                        call_style := DevTools.info; call_args := [VNum 1] |};
               OpVisualize] (DevTools.initial_state false) eq_refl)
    as (H1 & H2 & _ & H4).
  split; [exact H1|]. split; [exact H2|exact H4].
Defined.

(** ** Switching the tools off *)

(** [configureDevTools] prints nothing and keeps the timeline. A call that
    sets [enableDevTools] to [false] (or [undefined]) silences every later
    operation, whatever the other settings are; a later call that does not
    mention [enableDevTools] leaves the tools off. *)
Theorem configureDevTools_switches_off u flag ops s :
  DevTools.upd_enableDevTools u = Some flag ->
  DevTools.on flag = false ->
  let s1 := DevTools.configureDevTools u s in
  let s' := run_ops ops s1 in
  DevTools.console s1 = DevTools.console s /\
  DevTools.stateTimeline s1 = DevTools.stateTimeline s /\
  DevTools.console s' = DevTools.console s /\
  DevTools.marks s' = DevTools.marks s /\
  (forall u' ops',
     DevTools.upd_enableDevTools u' = None ->
     DevTools.console (run_ops ops' (DevTools.configureDevTools u' s')) = DevTools.console s).
Proof.
  intros Hu Hflag s1 s'. subst s1 s'.
  assert (Hoff : DevTools.on (DevTools.enableDevTools
                   (DevTools.devToolsConfig (DevTools.configureDevTools u s))) = false).
  { cbn. by rewrite Hu. }
  destruct (run_ops_off ops _ Hoff) as (R1 & R2 & R3 & _).
  split; [done|]. split; [done|]. split; [exact R1|]. split; [exact R2|].
  intros u' ops' Hu'.
  set (s' := run_ops ops (DevTools.configureDevTools u s)) in *.
  assert (Hoff' : DevTools.on (DevTools.enableDevTools
                    (DevTools.devToolsConfig (DevTools.configureDevTools u' s'))) = false).
  { cbn. rewrite Hu'. cbn. by rewrite R3. }
  destruct (run_ops_off ops' _ Hoff') as (R1' & _). rewrite R1'. exact R1.
Qed.

Lemma configureDevTools_switches_off_witness :
  DevTools.console
    (run_ops [OpTrack 10 "counter" (VNum 1); OpMark "start"; OpVisualize]
       (DevTools.configureDevTools switch_off (at_level DevTools.info)))
  = [].
Proof.
  destruct (configureDevTools_switches_off switch_off (Some false)
              [OpTrack 10 "counter" (VNum 1); OpMark "start"; OpVisualize]
              (at_level DevTools.info) eq_refl eq_refl) as (_ & _ & H & _).
  exact H.
Defined.

(** ** Console groups *)

Lemma open_groups_app a b : open_groups (a ++ b) = open_groups a + open_groups b.
Proof.
  induction a as [|[m css| |m css args|rows] a IH]; cbn [app open_groups]; lia.
Qed.

Lemma open_groups_plain c body :
  forallb plain_style body = true ->
  open_groups (map (rendered c) (List.filter (fun m => shown c (call_style m)) body)) = 0.
Proof.
  induction body as [|m body IH]; intros H; [done|]. cbn [forallb] in H.
  apply andb_true_iff in H as [Hm Hb]. cbn [List.filter].
  destruct (shown c (call_style m)); [|by apply IH].
  cbn [map open_groups]. unfold plain_style in Hm.
  unfold rendered. destruct (call_style m); cbn in Hm; try done; by apply IH.
Qed.

Lemma open_groups_grouped c title body :
  forallb plain_style body = true ->
  open_groups (map (rendered c)
                 (List.filter (fun m => shown c (call_style m)) (grouped title body)))
  = (if shown c DevTools.group && DevTools.on (DevTools.enableConsoleGroups c) then 1 else 0)
    - (if shown c DevTools.groupEnd then 1 else 0).
Proof.
  intros Hbody. pose proof (open_groups_plain c body Hbody) as Hplain.
  assert (Htail : open_groups
            (map (rendered c)
               (List.filter (fun m => shown c (call_style m))
                  (body ++ [{| call_message := EmptyString; call_style := DevTools.groupEnd;
                               call_args := [] |}])))
            = - (if shown c DevTools.groupEnd then 1 else 0)).
  { rewrite List.filter_app, map_app, open_groups_app, Hplain.
    cbn [List.filter call_style]. by destruct (shown c DevTools.groupEnd). }
  unfold grouped. cbn [List.filter call_style].
  destruct (shown c DevTools.group); cbn [andb map open_groups].
  - unfold rendered at 1. cbn [call_style call_message call_args].
    destruct (DevTools.on (DevTools.enableConsoleGroups c)); cbn [open_groups];
      rewrite Htail; lia.
  - rewrite Htail. lia.
Qed.

(** A block of messages sent between a ["group"] message and a
    ["groupEnd"] message leaves the console with as many open groups as
    before exactly when the tools are off, or the level is ["info"] with
    console groups on, or the level is ["group"] with console groups off,
    or the level is neither of ["info"], ["group"], ["groupEnd"]. In the
    other configurations one end of the block is printed as a group call
    and the other is not. *)
Theorem console_groups_stay_balanced title body s :
  forallb plain_style body = true ->
  let c := DevTools.devToolsConfig s in
  let s' := log_all (grouped title body) s in
  open_groups (DevTools.console s') = open_groups (DevTools.console s)
  <-> keeps_groups_balanced c = true.
Proof.
  intros Hbody c s'. subst c s'.
  destruct (log_all_run (grouped title body) s) as (_ & _ & _ & H). rewrite H.
  set (c := DevTools.devToolsConfig s).
  rewrite open_groups_app, (open_groups_grouped c title body Hbody).
  unfold keeps_groups_balanced, shown.
  destruct (DevTools.on (DevTools.enableDevTools c)); cbn [andb negb orb];
    [|split; [done|lia]].
  destruct (DevTools.logLevel c) as [[]|];
    destruct (DevTools.on (DevTools.enableConsoleGroups c));
    repeat match goal with
           | |- context [bool_decide ?P] =>
               let b := eval vm_compute in (bool_decide P) in
               change (bool_decide P) with b
           end;
    cbn [orb andb negb]; split; intros E; first [done | lia].
Qed.

Lemma console_groups_stay_balanced_witness :
  open_groups (DevTools.console (log_all update_block (at_level DevTools.info))) = 0 /\
  open_groups (DevTools.console (log_all update_block (at_level DevTools.group))) <> 0.
Proof.
  split.
  - apply (console_groups_stay_balanced "Store Update: counter" update_body
             (at_level DevTools.info) eq_refl). reflexivity.
  - intros H.
    apply (console_groups_stay_balanced "Store Update: counter" update_body
             (at_level DevTools.group) eq_refl) in H. discriminate H.
Defined.

(** ** The timeline *)

Lemma trackStateChange_run now name v s :
  let c := DevTools.devToolsConfig s in
  DevTools.devToolsConfig (DevTools.trackStateChange now name v s) = c /\
  DevTools.stateTimeline (DevTools.trackStateChange now name v s)
  = (DevTools.stateTimeline s
     ++ (if DevTools.on (DevTools.enableDevTools c) && DevTools.on (DevTools.enableStateTimeline c)
         then [entry_of (now, name, v)] else []))%list.
Proof.
  cbv zeta. unfold DevTools.trackStateChange.
  destruct (DevTools.on _ && DevTools.on _).
  - match goal with |- context [DevTools.log ?m ?st ?a ?s0] =>
      destruct (log_frame m st a s0) as (F1 & F2 & _)
    end. by rewrite F1, F2.
  - by rewrite app_nil_r.
Qed.

(** With the tools and the timeline on, [trackStateChange] adds one entry
    at the end of the timeline, so that the timeline lists the changes in
    the order they were tracked, each with its time, store and value;
    otherwise the timeline stays as it is. [clearStateTimeline] empties it
    in either case. *)
Theorem timeline_lists_changes_in_order changes s :
  let c := DevTools.devToolsConfig s in
  let s' := track_all changes s in
  DevTools.getStateTimeline s'
  = (DevTools.stateTimeline s
     ++ (if DevTools.on (DevTools.enableDevTools c) && DevTools.on (DevTools.enableStateTimeline c)
         then map entry_of changes else []))%list /\
  DevTools.getStateTimeline (DevTools.clearStateTimeline s') = [].
Proof.
  cbv zeta. split.
  - revert s. induction changes as [|[[now name] v] changes IH]; intros s.
    + cbn. destruct (_ && _); by rewrite app_nil_r.
    + cbn [track_all fold_left fst snd].
      fold (track_all changes (DevTools.trackStateChange now name v s)).
      destruct (trackStateChange_run now name v s) as (T1 & T2). cbv zeta in *.
      unfold DevTools.getStateTimeline in *. rewrite IH, T1, T2.
      destruct (_ && _); cbn [map]; by rewrite <- app_assoc.
  - unfold DevTools.clearStateTimeline, DevTools.getStateTimeline.
    match goal with |- context [DevTools.log ?m ?st ?a ?s0] =>
      destruct (log_frame m st a s0) as (_ & F2 & _)
    end. by rewrite F2.
Qed.
